(** * PawKit: a shallow embedding of [src/commands.js]

    The development follows the source file top to bottom: JavaScript
    string primitives, Node's [path] and [fs] modules (as far as the
    program calls them), the special-location table, [cleanAndMapPath],
    [installFromFile], [remove] and [compareVersions]; then the
    [delete] command of the entry script, the repository list
    ([addRepo], [removeRepo], [updateRepo], [updateAllRepos],
    [getLatestVersionFromRepo]) and [config].  Paths are POSIX paths
    (the program targets macOS). *)

From Stdlib Require Import ZArith List String Ascii Bool Lia.
From stdpp Require Import base gmap strings list.

Local Open Scope string_scope.
Local Open Scope list_scope.
Local Open Scope stdpp_scope.

(** ** JavaScript string primitives *)

Module Js.

(** [s.startsWith(p)] *)
Definition startsWith (s p : string) : bool := String.prefix p s.

(** [s.substring(n)] *)
Fixpoint substring_from (n : nat) (s : string) : string :=
  match n, s with
  | O, _ => s
  | S _, EmptyString => EmptyString
  | S k, String _ s' => substring_from k s'
  end.

(** [s.substring(0, n)] *)
Fixpoint substring_to (n : nat) (s : string) : string :=
  match n, s with
  | O, _ => EmptyString
  | S _, EmptyString => EmptyString
  | S k, String c s' => String c (substring_to k s')
  end.

(** [s.indexOf(needle)], with [None] for [-1] *)
Fixpoint indexOf (needle s : string) : option nat :=
  if String.prefix needle s then Some O
  else match s with
       | EmptyString => None
       | String _ s' => option_map S (indexOf needle s')
       end.

(** [s.includes(needle)] *)
Definition includes (needle s : string) : bool :=
  match indexOf needle s with Some _ => true | None => false end.

(** [s.endsWith(suffix)] *)
Definition endsWith (s suffix : string) : bool :=
  (String.length suffix <=? String.length s)%nat &&
  String.eqb (substring_from (String.length s - String.length suffix) s) suffix.

(** [s.replace(/c/g, d)] for a single character [c] *)
Fixpoint replace_char (c d : ascii) (s : string) : string :=
  match s with
  | EmptyString => EmptyString
  | String a s' => String (if Ascii.eqb a c then d else a) (replace_char c d s')
  end.

(** [s.replace(needle, by)] with a string pattern: first occurrence only *)
Definition replace_first (needle by_ s : string) : string :=
  match indexOf needle s with
  | Some i => substring_to i s +:+ by_ +:+ substring_from (i + String.length needle) s
  | None => s
  end.

(** Removal of every (non-overlapping, left to right) occurrence of a
    non-empty literal: the [/needle/g] alternative of a global replace
    by the empty string.  [skip] counts the characters of a match that
    remain to be dropped. *)
Fixpoint remove_all_aux (needle : string) (skip : nat) (s : string) : string :=
  match s with
  | EmptyString => EmptyString
  | String c s' =>
      match skip with
      | S k => remove_all_aux needle k s'
      | O => if String.prefix needle s
             then remove_all_aux needle (String.length needle - 1) s'
             else String c (remove_all_aux needle O s')
      end
  end.

Definition remove_all (needle s : string) : string := remove_all_aux needle O s.

(** [s.split(sep)] for a single separator character *)
Fixpoint split_aux (sep : ascii) (cur : string) (s : string) : list string :=
  match s with
  | EmptyString => [cur]
  | String c s' =>
      if Ascii.eqb c sep then cur :: split_aux sep EmptyString s'
      else split_aux sep (cur +:+ String c EmptyString) s'
  end.

Definition split (sep : ascii) (s : string) : list string :=
  split_aux sep EmptyString s.

(** [l.join(sep)] *)
Fixpoint join (sep : string) (l : list string) : string :=
  match l with
  | [] => EmptyString
  | [x] => x
  | x :: rest => x +:+ sep +:+ join sep rest
  end.

(** The class [\w] of a regular expression without the unicode flag:
    [A-Za-z0-9_]. *)
Definition is_word (c : ascii) : bool :=
  let n := nat_of_ascii c in
  ((65 <=? n) && (n <=? 90) || (97 <=? n) && (n <=? 122) ||
   (48 <=? n) && (n <=? 57) || (n =? 95))%nat.

(** Longest prefix of word characters, and what follows it. *)
Fixpoint word_run (s : string) : string * string :=
  match s with
  | EmptyString => (EmptyString, EmptyString)
  | String c s' =>
      if is_word c then let '(w, r) := word_run s' in (String c w, r)
      else (EmptyString, s)
  end.

(** [/(@\w+)\//] anchored at the start of [s]: the captured group.  The
    greedy [\w+] cannot give a character back, since the character that
    has to follow it, [/], is not a word character. *)
Definition at_token_here (s : string) : option string :=
  match s with
  | String "@" r =>
      let '(w, rest) := word_run r in
      match w with
      | EmptyString => None
      | _ => if startsWith rest "/" then Some (String "@" w) else None
      end
  | _ => None
  end.

(** [s.match(/(@\w+)\//)]: group 1 of the leftmost match. *)
Fixpoint match_at_token (s : string) : option string :=
  match at_token_here s with
  | Some t => Some t
  | None => match s with
            | EmptyString => None
            | String _ s' => match_at_token s'
            end
  end.

End Js.

(** ** Plain objects used as tables

    [paws.installed], [repoData.paws] and the [pathsByDir] of [remove]
    are object literals or come out of [JSON.parse]: their prototype is
    [Object.prototype].  A table is the finite map of its own
    properties; what a key that is no own property gives is decided by
    the prototype. *)

Module JsObject.

(** The property names of [Object.prototype]. *)
Definition prototype_keys : list string :=
  [ "constructor"; "__defineGetter__"; "__defineSetter__"; "hasOwnProperty";
    "__lookupGetter__"; "__lookupSetter__"; "isPrototypeOf";
    "propertyIsEnumerable"; "toString"; "valueOf"; "__proto__";
    "toLocaleString" ].

Definition inherited (key : string) : bool :=
  existsb (String.eqb key) prototype_keys.

(** What [o[key]] evaluates to: an own value, a member of the
    prototype (a function, or the prototype itself for [__proto__]:
    truthy, and without any of the properties a record has), or
    [undefined]. *)
Inductive property (V : Type) : Type :=
| Own (v : V)
| Inherited
| Undefined.
Arguments Own {V} v.
Arguments Inherited {V}.
Arguments Undefined {V}.

Definition get {V} (o : gmap string V) (key : string) : property V :=
  match o !! key with
  | Some v => Own v
  | None => if inherited key then Inherited else Undefined
  end.

(** [o[key] = v] for an object [v], as the own properties show it
    afterwards: an assignment to [__proto__] on a table without an own
    property of that name goes to the setter of [Object.prototype] and
    makes no own property. *)
Definition set {V} (key : string) (v : V) (o : gmap string V) : gmap string V :=
  if String.eqb key "__proto__" && bool_decide (o !! key = None) then o
  else <[key := v]> o.

End JsObject.

(** ** Node's [path] module (POSIX flavour) *)

Module Path.

(** [path.isAbsolute(p)] *)
Definition isAbsolute (p : string) : bool := Js.startsWith p "/".

(** One step of [normalizeString]: [acc] is the stack of kept segments,
    most recent first. *)
Definition norm_step (allowAboveRoot : bool) (acc : list string) (seg : string)
  : list string :=
  if String.eqb seg "" || String.eqb seg "." then acc
  else if String.eqb seg ".." then
    match acc with
    | [] => if allowAboveRoot then [".."] else []
    | top :: below =>
        if String.eqb top ".." then
          (if allowAboveRoot then ".." :: acc else acc)
        else below
    end
  else seg :: acc.

Definition normalize_segments (allowAboveRoot : bool) (segs : list string)
  : list string :=
  rev (fold_left (norm_step allowAboveRoot) segs []).

(** [path.normalize(p)] *)
Definition normalize (p : string) : string :=
  match p with
  | EmptyString => "."
  | _ =>
      let abs := isAbsolute p in
      let trailing := Js.endsWith p "/" in
      let body := Js.join "/" (normalize_segments (negb abs) (Js.split "/" p)) in
      match body with
      | EmptyString => if abs then "/" else if trailing then "./" else "."
      | _ =>
          let body' := if trailing then body +:+ "/" else body in
          if abs then "/" +:+ body' else body'
      end
  end.

(** [path.join(...args)]: empty arguments are skipped, the others are
    glued with [/] and the result is normalized. *)
Definition joinl (args : list string) : string :=
  match List.filter (fun a => negb (String.eqb a "")) args with
  | [] => "."
  | parts => normalize (Js.join "/" parts)
  end.

Definition join (a b : string) : string := joinl [a; b].

(** [path.dirname(p)].  The source loop scans from the end down to
    index 1; here the tail of the path is scanned reversed: trailing
    slashes are passed, then the last segment, and the slash found next
    marks the end of the result. *)
Fixpoint drop_slashes (l : list ascii) : list ascii :=
  match l with
  | "/"%char :: l' => drop_slashes l'
  | _ => l
  end.

Fixpoint drop_segment (l : list ascii) : list ascii :=
  match l with
  | [] => []
  | "/"%char :: _ => l
  | _ :: l' => drop_segment l'
  end.

Definition dirname (p : string) : string :=
  match p with
  | EmptyString => "."
  | String c0 tl =>
      let hasRoot := Ascii.eqb c0 "/" in
      match drop_segment (drop_slashes (rev (list_ascii_of_string tl))) with
      | [] => if hasRoot then "/" else "."
      | _ :: before =>
          match before with
          | [] => if hasRoot then "//" else String c0 EmptyString
          | _ => String c0 (string_of_list_ascii (rev before))
          end
      end
  end.

(** [path.basename(p, ext)] for a path without trailing slash. *)
Definition basename (p ext : string) : string :=
  let base := match rev (Js.split "/" p) with
              | last :: _ => last
              | [] => EmptyString
              end in
  if Js.endsWith base ext && negb (String.eqb base ext)
  then Js.substring_to (String.length base - String.length ext) base
  else base.

(** *** Plain paths

    The vocabulary for stating where a joined path lies. *)

(** A path segment that [normalize] keeps as it is. *)
Definition plain_segment (s : string) : bool :=
  negb (String.eqb s "") && negb (String.eqb s ".") && negb (String.eqb s "..") &&
  negb (Js.includes "/" s).

(** An absolute path made of such segments: [/a/b/c]. *)
Definition plain_path (p : string) (segs : list string) : Prop :=
  segs <> [] /\ forallb plain_segment segs = true /\ p = "/" +:+ Js.join "/" segs.

(** The text [/x1/x2...] for the segments [x1, x2, ...]. *)
Fixpoint glue (l : list string) : string :=
  match l with
  | [] => ""
  | x :: rest => "/" +:+ x +:+ glue rest
  end.

(** The segments of [rest] that survive normalization, when none of
    them is [..]. *)
Definition kept_segments (rest : string) : list string :=
  List.filter (fun s => negb (String.eqb s "" || String.eqb s "."))
              (Js.split "/" rest).

Definition no_dotdot (rest : string) : bool :=
  forallb (fun s => negb (String.eqb s "..")) (Js.split "/" rest).

End Path.

(** ** Node's [fs] module, over a finite map from paths to nodes

    Keys are the absolute paths the program passes to [fs].  A path
    is looked up as written: symbolic links that sit in an intermediate
    component of a key are not followed, only a link that is the
    node itself. [locked] collects the paths this process is refused to
    remove or overwrite (EACCES, EPERM, EBUSY); [foreign] the paths
    whose mode it may not change (EPERM: a file of another owner, which
    can still be writable). *)

Module Fs.

Inductive node : Type :=
| NFile (data : string) (mode : Z)
| NDir
| NLink (target : string).

Record FS : Type := mkFS {
  nodes : gmap string node;
  locked : gset string;
  foreign : gset string
}.

Definition set_nodes (fs : FS) (m : gmap string node) : FS :=
  mkFS m (locked fs) (foreign fs).

(** [p] is [root] or lies below it. *)
Definition under (root p : string) : bool :=
  String.eqb p root || Js.startsWith p (root +:+ "/").

(** Where a link stored at [p] with text [target] points. *)
Definition link_dest (p target : string) : string :=
  if Path.isAbsolute target then Path.normalize target
  else Path.join (Path.dirname p) target.

(** Following links from [p]; [None] after [fuel] hops (ELOOP). *)
Fixpoint realpath_fuel (fuel : nat) (m : gmap string node) (p : string)
  : option string :=
  match m !! p with
  | Some (NLink t) =>
      match fuel with
      | O => None
      | S k => realpath_fuel k m (link_dest p t)
      end
  | _ => Some p
  end.

Definition MAXSYMLINKS : nat := 40.

Definition realpath (fs : FS) (p : string) : option string :=
  realpath_fuel MAXSYMLINKS (nodes fs) p.

(** [fs.lstatSync(p)]: the node itself; [None] stands for ENOENT. *)
Definition lstatSync (fs : FS) (p : string) : option node := nodes fs !! p.

(** [fs.statSync(p)]: the node after following links. *)
Definition statSync (fs : FS) (p : string) : option node :=
  match realpath fs p with
  | Some q => nodes fs !! q
  | None => None
  end.

(** [fs.existsSync(p)] follows links: a dangling link does not exist. *)
Definition existsSync (fs : FS) (p : string) : bool :=
  match statSync fs p with Some _ => true | None => false end.

Definition is_dir (fs : FS) (p : string) : bool :=
  match statSync fs p with Some NDir => true | _ => false end.

(** The proper ancestors of [p], nearest first. *)
Fixpoint parents (fuel : nat) (p : string) : list string :=
  match fuel with
  | O => []
  | S k =>
      let d := Path.dirname p in
      if String.eqb d p then [] else d :: parents k d
  end.

Definition chain (p : string) : list string :=
  p :: parents (String.length p) p.

(** A component of the chain stands in the way of [mkdir -p] when it
    is present and is not (a link to) a directory. *)
Definition blocks_mkdir (fs : FS) (q : string) : bool :=
  match nodes fs !! q with
  | None => false
  | Some _ => negb (is_dir fs q)
  end.

Definition mkdir_missing (m : gmap string node) (q : string) : gmap string node :=
  match m !! q with
  | None => <[q := NDir]> m
  | Some _ => m
  end.

(** [fs.ensureDirSync(p)]; [None] stands for a thrown error. *)
Definition ensureDirSync (p : string) (fs : FS) : option FS :=
  if existsb (blocks_mkdir fs) (chain p) then None
  else Some (set_nodes fs (fold_left mkdir_missing (chain p) (nodes fs))).


(** [fs.unlinkSync(p)]: removes a file or a link, never a directory. *)
Definition unlinkSync (p : string) (fs : FS) : option FS :=
  match nodes fs !! p with
  | None => None
  | Some NDir => None
  | Some _ =>
      if bool_decide (p ∈ locked fs) then None
      else Some (set_nodes fs (delete p (nodes fs)))
  end.

(** [fs.symlinkSync(target, p)]: fails when anything is at [p] (EEXIST)
    or the parent directory is missing. *)
Definition symlinkSync (target p : string) (fs : FS) : option FS :=
  match nodes fs !! p with
  | Some _ => None
  | None =>
      if is_dir fs (Path.dirname p)
      then Some (set_nodes fs (<[p := NLink target]> (nodes fs)))
      else None
  end.

(** [fs.copyFileSync(src, dest)]: both ends are opened through links;
    the bytes of the source replace those of the destination. *)
Definition copyFileSync (src dest : string) (fs : FS) : option FS :=
  match statSync fs src, realpath fs dest with
  | Some (NFile data mode), Some d =>
      if bool_decide (d ∈ locked fs) then None
      else if negb (is_dir fs (Path.dirname d)) then None
      else match nodes fs !! d with
           | Some NDir => None
           | Some (NFile _ mode') =>
               Some (set_nodes fs (<[d := NFile data mode']> (nodes fs)))
           | _ => Some (set_nodes fs (<[d := NFile data mode]> (nodes fs)))
           end
  | _, _ => None
  end.

(** [fs.chmodSync(p, mode)] *)
Definition chmodSync (p : string) (mode : Z) (fs : FS) : option FS :=
  match realpath fs p with
  | Some q =>
      match nodes fs !! q with
      | Some (NFile data _) =>
          if bool_decide (q ∈ locked fs) || bool_decide (q ∈ foreign fs) then None
          else Some (set_nodes fs (<[q := NFile data mode]> (nodes fs)))
      | Some _ => Some fs
      | None => None
      end
  | None => None
  end.

(** [fs.writeFileSync(p, data)], which [fs.writeJsonSync] ends in: the
    file is opened through links and truncated, or made with mode
    [0o644] ([0o666] under the umask [022]). *)
Definition writeFileSync (p data : string) (fs : FS) : option FS :=
  match realpath fs p with
  | Some d =>
      if bool_decide (d ∈ locked fs) then None
      else if negb (is_dir fs (Path.dirname d)) then None
      else match nodes fs !! d with
           | Some NDir => None
           | Some (NFile _ mode') =>
               Some (set_nodes fs (<[d := NFile data mode']> (nodes fs)))
           | _ => Some (set_nodes fs (<[d := NFile data 420]> (nodes fs)))
           end
  | None => None
  end.

(** [fs.removeSync(p)] ([rm -rf]): [p] and everything below it goes;
    an absent [p] is no error; a locked path in the tree makes the call
    throw. *)
Definition removeSync (p : string) (fs : FS) : option FS :=
  if bool_decide (set_Exists (fun q => under p q = true) (locked fs)) then None
  else Some (set_nodes fs (filter (fun kv => under p kv.1 = false) (nodes fs))).

(** *** Relations between file systems *)

(** At [q], [fs'] has what [fs] had, or a directory made where
    nothing was. *)
Definition kept_or_mkdir (fs fs' : FS) (q : string) : Prop :=
  nodes fs' !! q = nodes fs !! q \/
  (nodes fs !! q = None /\ nodes fs' !! q = Some NDir).

(** Only directories were added. *)
Definition grows (fs fs' : FS) : Prop := forall q, kept_or_mkdir fs fs' q.

(** Outside [root], only directories were added. *)
Definition outside (root : string) (fs fs' : FS) : Prop :=
  forall q, under root q = false -> kept_or_mkdir fs fs' q.

(** At [q], [fs'] has what [fs] had, or a directory made where
    nothing was, on the way to one of [dirs]. *)
Definition kept_or_mkdir_to (dirs : list string) (fs fs' : FS) (q : string) : Prop :=
  nodes fs' !! q = nodes fs !! q \/
  (nodes fs !! q = None /\ nodes fs' !! q = Some NDir /\
   exists d, In d dirs /\ In q (chain d)).

(** Outside [root], only directories on the way to [dirs] were added. *)
Definition outside_to (root : string) (dirs : list string) (fs fs' : FS) : Prop :=
  forall q, under root q = false -> kept_or_mkdir_to dirs fs fs' q.

(** A link with text [t] at [d] stays what it is. *)
Definition keeps_link (d t : string) (fs fs' : FS) : Prop :=
  nodes fs !! d = Some (NLink t) -> nodes fs' !! d = Some (NLink t).

End Fs.

(** ** The special-location table and [cleanAndMapPath] *)

Module Resolver.
Import Fs.

Section WithHome.

(** [os.homedir()] *)
Variable USER_HOME : string.

Definition CONFIG_DIR : string := Path.join USER_HOME ".pawkit".

(** [specialPaths], in the insertion order [Object.entries] walks. *)
Definition specialPaths : list (string * string) :=
  [ ("@userhome", USER_HOME);
    ("@documents", Path.join USER_HOME "Documents");
    ("@document", Path.join USER_HOME "Documents");
    ("@docs", Path.join USER_HOME "Documents");
    ("@applicationSupport", Path.joinl [USER_HOME; "Library"; "Application Support"]);
    ("@applicationsupport", Path.joinl [USER_HOME; "Library"; "Application Support"]);
    ("@desktop", Path.join USER_HOME "Desktop");
    ("@downloads", Path.join USER_HOME "Downloads");
    ("@applications", "/Applications");
    ("@userapplications", Path.join USER_HOME "/Applications");
    ("@library", Path.join USER_HOME "Library");
    ("@preferences", Path.joinl [USER_HOME; "Library"; "Preferences"]) ].

(** [path.join(CONFIG_DIR, 'pluginmetadata')] *)
Definition metadataDir : string := Path.join CONFIG_DIR "pluginmetadata".

(** [/^[\/\.]+/]: the leading run of slashes and dots. *)
Fixpoint strip_leading (s : string) : string :=
  match s with
  | String c s' =>
      if Ascii.eqb c "/" || Ascii.eqb c "." then strip_leading s' else s
  | EmptyString => EmptyString
  end.

(** [entryPath.replace(/\\/g, '/').replace(/^[\/\.]+|__MACOSX\//g, '')].
    The first alternative can only match at index 0, where the second
    cannot (it starts with an underscore); from the end of that match
    on, only the second one is tried. *)
Definition clean (entryPath : string) : string :=
  Js.remove_all "__MACOSX/" (strip_leading (Js.replace_char "\" "/" entryPath)).

(** The loop over [Object.entries(specialPaths)]: the first placeholder
    that, followed by a slash, starts [mappedPath]. *)
Fixpoint apply_special (table : list (string * string)) (mappedPath : string)
  : option string :=
  match table with
  | [] => None
  | (placeholder, replacement) :: rest =>
      if Js.startsWith mappedPath (placeholder +:+ "/")
      then Some (Path.join replacement
                   (Js.substring_from (String.length placeholder + 1) mappedPath))
      else apply_special rest mappedPath
  end.

(** The [if (atPrefixMatch)] block: [Some] when it returns. *)
Definition map_marker (cleanPath : string) : option string :=
  match Js.match_at_token cleanPath with
  | Some atPrefix =>
      let atPrefixIndex := default O (Js.indexOf atPrefix cleanPath) in
      let mappedPath := Js.substring_from atPrefixIndex cleanPath in
      let mappedPath :=
        if Js.startsWith mappedPath "@all/"
        then Js.substring_from (String.length "@all/") mappedPath
        else mappedPath in
      apply_special specialPaths mappedPath
  | None => None
  end.

(** The metadata block, after [fs.ensureDirSync(metadataDir)]. *)
Definition map_metadata (cleanPath : string) : string :=
  let metadataIndex := default O (Js.indexOf "metadata/" cleanPath) in
  let metadataPath := Js.substring_from metadataIndex cleanPath in
  Path.join metadataDir (Js.replace_first "metadata/" "" metadataPath).

(** [cleanAndMapPath(entryPath)]: the result ([None] is [null]) and the
    file system it leaves.  A throw of [ensureDirSync] lands in the
    [catch], which returns [null]. *)
Definition cleanAndMapPath (entryPath : string) (fs : FS) : option string * FS :=
  let cleanPath := clean entryPath in
  match map_marker cleanPath with
  | Some mappedPath => (Some mappedPath, fs)
  | None =>
      if Js.includes "metadata/" cleanPath then
        match ensureDirSync metadataDir fs with
        | Some fs' => (Some (map_metadata cleanPath), fs')
        | None => (None, fs)
        end
      else (None, fs)
  end.

End WithHome.
End Resolver.

(** ** The program and its environment *)

Module Pawkit.
Import Fs.

(** An element the loop [for (const deletePath of deletePaths)] meets:
    a string, or any other value, on which [deletePath.replace] is a
    TypeError.  The list is what the loop runs through, whatever
    [deletePaths] is: nothing for a falsy value or a number, the
    characters of a string; a truthy value with a positive [length]
    that cannot be iterated throws at once, like a first element that
    is no string. *)
Inductive DeletePath : Type :=
| Text (s : string)
| NotText.

(** [metadata/data.json] as [JSON.parse] gives it, as far as the
    program looks into it; the descriptor is stored unchecked.
    [d_name] is the property key the value of [name] converts to,
    [d_version] the value of [version] when it is truthy (a value that
    is no string stands as the text it prints as). *)
Record Descriptor : Type := mkDescriptor {
  d_name : option string;
  d_version : option string;
  d_deletePaths : list DeletePath
}.

(** The descriptor stored with an installed paw. *)
Record Metadata : Type := mkMetadata {
  name : string;
  md_version : string;
  deletePaths : list DeletePath
}.

(** A value of [paws.installed]. *)
Record PawInfo : Type := mkPawInfo {
  version : string;
  installDate : string;
  files : list string;
  metadata : Metadata
}.

(** What [fs.readJsonSync(PAWS_FILE)] gives: an object without a
    table [installed] (the property is missing or [null]), or the
    table. *)
Inductive PawsJson : Type :=
| NoTable
| Table (installed : gmap string PawInfo).

#[global] Instance DeletePath_eq_dec : EqDecision DeletePath.
Proof. solve_decision. Defined.

#[global] Instance Metadata_eq_dec : EqDecision Metadata.
Proof. solve_decision. Defined.

#[global] Instance PawInfo_eq_dec : EqDecision PawInfo.
Proof. solve_decision. Defined.

(** What the program reads from outside: the process environment, the
    configuration file, the user's answer at the prompt, and the tools
    it runs as subprocesses or calls in libraries ([unzip] or AdmZip,
    [JSON], [ditto], [rm -rf], the [sudo] command line).  A tool maps
    a file system to the one it leaves; [None] or [false] is a failed
    call.  [paws.json] is an ordinary file: [JSON_parse_paws] reads its
    text, and is [None] when [readJsonSync] throws; a table is taken to
    hold records of the shape the program writes. *)

Record Env : Type := mkEnv {
  USER_HOME : string;                (* os.homedir() *)
  tmpdir : string;                   (* os.tmpdir() *)
  stamp : string;                    (* `pawkit-${Date.now()}-${random}` *)
  now : string;                      (* new Date().toISOString() *)
  darwin : bool;                     (* process.platform === 'darwin' *)
  PAWKIT_FORCE_INSTALL : bool;       (* process.env.PAWKIT_FORCE_INSTALL === 'true' *)
  confirm_installation : bool;       (* config.confirm_installation *)
  answer : string;                   (* the trimmed, lower-cased input line *)
  which_ditto : bool;                (* `which ditto` succeeds *)
  extractAll : string -> string -> FS -> option FS;   (* archive bytes, extractDir *)
  readAsText : string -> string -> option string;
                                     (* archive bytes, entry name: the empty text
                                        when there is no such entry; None when
                                        new AdmZip throws *)
  JSON_parse_descriptor : string -> option Descriptor;   (* None: a SyntaxError *)
  JSON_parse_paws : string -> option PawsJson;
  JSON_stringify_paws : gmap string PawInfo -> string;
  ditto : string -> string -> FS -> bool * FS;        (* source, destination *)
  native_rm : string -> FS -> bool * FS;              (* execSync(`rm -rf "${p}"`) *)
  sudo_rm : string -> FS -> FS                        (* the sudo sh -c '... rm -Rf' line *)
}.

Inductive error : Type :=
| FileNotFound (filePath : string)
| InvalidPaw (filePath : string)
| ExtractFailed
| MustUsePrefixes          (* 'Installation failed: Files must use @* prefixes' *)
| NoValidFiles             (* 'No valid files found to install' *)
| NoValidFilesAllPrefixes  (* '... - all paths must use @* prefixes' *)
| FilesExist (count : nat) (* 'Installation cancelled: n files already exist...' *)
| CancelledByUser
| InstallFailed (target : string)
| IoError (path : string)
| JsonReadError (path : string)    (* readJsonSync throws *)
| JsonWriteError (path : string)   (* writeJsonSync throws *)
| NotInstalled (pawName : string)
| TypeError.

Inductive result (A : Type) : Type :=
| Ok (a : A)
| Throw (e : error).
Arguments Ok {A} a.
Arguments Throw {A} e.

(** Code that works on the file system and may throw: the file system
    at the throw is kept, the [catch] blocks need it. *)
Definition M (A : Type) : Type := FS -> result A * FS.

Definition ret {A} (a : A) : M A := fun fs => (Ok a, fs).
Definition throw {A} (e : error) : M A := fun fs => (Throw e, fs).
Definition bind {A B} (m : M A) (k : A -> M B) : M B :=
  fun fs => match m fs with
            | (Ok a, fs') => k a fs'
            | (Throw e, fs') => (Throw e, fs')
            end.

(** A call of an [fs] function; a failure is thrown as [e]. *)
Definition call (op : FS -> option FS) (e : error) : M unit :=
  fun fs => match op fs with
            | Some fs' => (Ok tt, fs')
            | None => (Throw e, fs)
            end.

(** [try { op } catch { }]: a failure is swallowed. *)
Definition attempt (op : FS -> option FS) : M unit :=
  fun fs => match op fs with
            | Some fs' => (Ok tt, fs')
            | None => (Ok tt, fs)
            end.

Definition get {A} (f : FS -> A) : M A := fun fs => (Ok (f fs), fs).

Declare Scope m_scope.
Delimit Scope m_scope with M.
Notation "x <- m ;; k" := (bind m (fun x => k))
  (at level 100, m at next level, right associativity) : m_scope.
Notation "m ;;; k" := (bind m (fun _ => k))
  (at level 100, right associativity) : m_scope.
Local Open Scope m_scope.

(** Every run of [m] takes the file system along [R]. *)
Definition respects {A} (R : FS -> FS -> Prop) (m : M A) : Prop :=
  forall fs r fs', m fs = (r, fs') -> R fs fs'.

(** *** [isValidZipFile]: the PK signature in the first four bytes *)

Definition byte_at (i : nat) (data : string) : nat :=
  match String.get i data with
  | Some c => nat_of_ascii c
  | None => O          (* Buffer.alloc(4) is zero filled *)
  end.

Definition isValidZipFile (fs : FS) (filePath : string) : bool :=
  match statSync fs filePath with
  | Some (NFile data _) =>
      ((byte_at 0 data =? 80) && (byte_at 1 data =? 75) &&
       ((byte_at 2 data =? 3) || (byte_at 2 data =? 5) || (byte_at 2 data =? 7)) &&
       ((byte_at 3 data =? 4) || (byte_at 3 data =? 6) || (byte_at 3 data =? 8)))%nat
  | _ => false          (* openSync throws: the catch returns false *)
  end.

(** *** The walk over the extraction directory *)

Record Entry : Type := mkEntry {
  entryName : string;
  fullPath : string;
  isSymlink : bool;
  linkTarget : option string;
  resolvedTarget : option string
}.

(** [fs.readdirSync(dir)], as the full paths of the children; the order
    is the enumeration order of the map. *)
Definition readdirSync (fs : FS) (dir : string) : list string :=
  List.filter (fun k => String.eqb (Path.dirname k) dir && negb (String.eqb k dir))
         (map fst (map_to_list (nodes fs))).

(** [path.relative(extractDir, fullPath)] for a path below [extractDir] *)
Definition relative (extractDir fullPath : string) : string :=
  Js.substring_from (String.length extractDir + 1) fullPath.

(** [path.resolve(dir, target)] for an absolute [dir] *)
Definition resolve (dir target : string) : string :=
  if Path.isAbsolute target then Path.normalize target
  else Path.normalize (dir +:+ "/" +:+ target).

(** One item of the loop in [readDir]; [recurse] is the call on a
    sub-directory. *)
Definition readItem (recurse : string -> list Entry) (fs : FS)
    (extractDir fullPath : string) : list Entry :=
  let relativePath := Js.replace_char "\" "/" (relative extractDir fullPath) in
  match lstatSync fs fullPath with
  | Some (NLink target) =>
      let resolved :=
        if negb (Path.isAbsolute target)
        then resolve (Path.dirname fullPath) target
        else target in
      [mkEntry relativePath fullPath true (Some target) (Some resolved)]
  | Some (NFile _ _) => [mkEntry relativePath fullPath false None None]
  | Some NDir => recurse fullPath
  | None => []
  end.

(** [readDir(dir)]; the fuel bounds the depth of the tree. *)
Fixpoint readDir (fuel : nat) (fs : FS) (extractDir dir : string) : list Entry :=
  match fuel with
  | O => []
  | S k =>
      flat_map (readItem (readDir k fs extractDir) fs extractDir)
               (readdirSync fs dir)
  end.

(** *** [installFromFile] *)

Record InstallPath : Type := mkInstallPath {
  source : string;
  target : string;
  ip_isSymlink : bool;
  ip_linkTarget : option string;
  sourceStats : node
}.

Record BundleInfo : Type := mkBundleInfo {
  b_files : list InstallPath;
  sourceDirs : list string
}.

Section WithEnv.

Variable env : Env.

Definition tempInstallDir : string := Path.join (tmpdir env) (stamp env).
Definition tempFile : string := Path.join tempInstallDir "paw.paw".
Definition extractDir : string := Path.join tempInstallDir "extracted".

(** The directories the run passes to [fs.ensureDirSync] before it
    installs anything. *)
Definition ensuredDirs : list string :=
  [tempInstallDir; extractDir; Resolver.metadataDir (USER_HOME env)].

Definition resolvePath (entryPath : string) : M (option string) :=
  fun fs => let '(r, fs') := Resolver.cleanAndMapPath (USER_HOME env) entryPath fs in
            (Ok r, fs').

Definition isSystemFile (entryName : string) : bool :=
  Js.includes "__MACOSX" entryName || Js.endsWith entryName ".DS_Store" ||
  Js.includes "/._" entryName.

(** [osFiles = entries.filter(...)] *)
Fixpoint filterValid (entries : list Entry) : M (list Entry) :=
  match entries with
  | [] => ret []
  | entry :: rest =>
      if isSystemFile (entryName entry) then filterValid rest
      else
        cleanPath <- resolvePath (entryName entry) ;;
        kept <- filterValid rest ;;
        ret (match cleanPath with Some _ => entry :: kept | None => kept end)
  end.

Definition filesWithPotentialPrefixes (entries : list Entry) : list Entry :=
  List.filter (fun entry => negb (isSystemFile (entryName entry)) &&
                       negb (Js.startsWith (entryName entry) "metadata/")) entries.

(** [installPaths = filesToInstall.map(...).filter(file => file.target !== null)] *)
Fixpoint mapInstallPaths (filesToInstall : list Entry) : M (list InstallPath) :=
  match filesToInstall with
  | [] => ret []
  | entry :: rest =>
      mapped <- resolvePath (entryName entry) ;;
      stats <- (fun fs => match lstatSync fs (fullPath entry) with
                          | Some n => (Ok n, fs)
                          | None => (Throw (IoError (fullPath entry)), fs)
                          end) ;;
      more <- mapInstallPaths rest ;;
      ret (match mapped with
           | Some t => mkInstallPath (fullPath entry) t (isSymlink entry)
                                     (linkTarget entry) stats :: more
           | None => more
           end)
  end.

(** The loop that fills [existingFiles]: one test, and one push, per
    element of [installPaths]. *)
Definition existingFiles (fs : FS) (installPaths : list InstallPath) : list string :=
  map target
    (List.filter (fun file =>
               existsSync fs (target file) &&
               negb (Js.includes (Resolver.metadataDir (USER_HOME env)) (target file)))
            installPaths).

(** [uniqueInstallPaths], shown at the confirmation prompt. *)
Fixpoint uniqueInstallPaths_from (uniqueTargetPaths : gset string)
    (installPaths : list InstallPath) : list InstallPath :=
  match installPaths with
  | [] => []
  | file :: rest =>
      if bool_decide (target file ∈ uniqueTargetPaths)
      then uniqueInstallPaths_from uniqueTargetPaths rest
      else file :: uniqueInstallPaths_from ({[target file]} ∪ uniqueTargetPaths) rest
  end.

Definition uniqueInstallPaths (installPaths : list InstallPath) : list InstallPath :=
  uniqueInstallPaths_from ∅ installPaths.

(** [Array.from(new Set(l))]: first occurrences, in order. *)
Fixpoint array_from_set (seen : gset string) (l : list string) : list string :=
  match l with
  | [] => []
  | x :: rest =>
      if bool_decide (x ∈ seen) then array_from_set seen rest
      else x :: array_from_set ({[x]} ∪ seen) rest
  end.

Definition isAppBundlePath (p : string) : bool := Js.includes ".app/Contents/" p.

Definition getAppBundleRoot (filePath : string) : option string :=
  match Js.indexOf ".app" filePath with
  | Some appIndex => Some (Js.substring_to (appIndex + 4) filePath)
  | None => None
  end.

(** [appBundles] is a [Map]: here a list of pairs in insertion order.
    [sourceDirs] is a [Set], kept as a list without repetition. *)
Fixpoint bundle_add (appPath : string) (file : InstallPath)
    (appBundles : list (string * BundleInfo)) : list (string * BundleInfo) :=
  let sourceDir := Path.dirname (source file) in
  match appBundles with
  | [] => [(appPath, mkBundleInfo [file] [sourceDir])]
  | (k, info) :: rest =>
      if String.eqb k appPath
      then (k, mkBundleInfo (b_files info ++ [file])
                 (if bool_decide (sourceDir ∈ sourceDirs info)
                  then sourceDirs info else sourceDirs info ++ [sourceDir])) :: rest
      else (k, info) :: bundle_add appPath file rest
  end.

Definition groupBundles (installPaths : list InstallPath) : list (string * BundleInfo) :=
  fold_left (fun appBundles file =>
               if isAppBundlePath (target file) then
                 match getAppBundleRoot (target file) with
                 | Some appPath => bundle_add appPath file appBundles
                 | None => appBundles
                 end
               else appBundles)
            installPaths [].

Definition MAX_SAFE_INTEGER : Z := 9007199254740991.

(** The loop of [installAppBundle] over [bundleInfo.sourceDirs]. *)
Definition find_sourceAppDir (dirs : list string) : option string :=
  fst (fold_left
         (fun '(sourceAppDir, bestPathDepth) sourceDir =>
            if Js.includes ".app/Contents" sourceDir then
              let stop := match Js.indexOf ".app/" sourceDir with
                          | Some i => i + 4
                          | None => 3
                          end in
              let appRoot := Js.substring_to stop sourceDir in
              let pathDepth := Z.of_nat (length (Js.split "/" appRoot)) in
              if (pathDepth <? bestPathDepth)%Z then (Some appRoot, pathDepth)
              else (sourceAppDir, bestPathDepth)
            else (sourceAppDir, bestPathDepth))
         dirs (None, MAX_SAFE_INTEGER)).

(** [installAppBundle]: every error is caught and answered by [false]. *)
Definition installAppBundle (appPath : string) (bundleInfo : BundleInfo) : M bool :=
  fun fs =>
    match find_sourceAppDir (sourceDirs bundleInfo) with
    | Some sourceAppDir =>
        if negb (String.eqb sourceAppDir "") && existsSync fs sourceAppDir then
          match ditto env sourceAppDir appPath fs with
          | (false, fs1) => (Ok false, fs1)
          | (true, fs1) =>
              let mainExecutable :=
                Path.joinl [appPath; "Contents"; "MacOS"; Path.basename appPath ".app"] in
              if existsSync fs1 mainExecutable then
                match chmodSync mainExecutable 493 fs1 with
                | Some fs2 => (Ok true, fs2)
                | None => (Ok false, fs1)
                end
              else (Ok true, fs1)
          end
        else (Ok false, fs)
    | None => (Ok false, fs)
    end.

(** [if (!createdDirs.has(dir)) { fs.ensureDirSync(dir); createdDirs.add(dir) }] *)
Definition ensureDirOnce (dir : string) (createdDirs : gset string) : M (gset string) :=
  if bool_decide (dir ∈ createdDirs) then ret createdDirs
  else call (ensureDirSync dir) (IoError dir) ;;; ret ({[dir]} ∪ createdDirs).

(** The loop over [appBundles.entries()].  [handled] lists the bundles
    whose files went into [handledByAppBundle]: the files of a bundle
    are the plan entries with that bundle root. *)
Fixpoint installBundles (appBundles : list (string * BundleInfo))
    (createdDirs : gset string) (handled : list string)
  : M (gset string * list string) :=
  match appBundles with
  | [] => ret (createdDirs, handled)
  | (appPath, bundleInfo) :: rest =>
      let dittoAvailable := darwin env && which_ditto env in
      if negb dittoAvailable then installBundles rest createdDirs handled
      else
        createdDirs' <- ensureDirOnce (Path.dirname appPath) createdDirs ;;
        if darwin env then
          succeeded <- installAppBundle appPath bundleInfo ;;
          installBundles rest createdDirs'
            (if succeeded : bool then handled ++ [appPath] else handled)
        else installBundles rest createdDirs' handled
  end.

Definition handledByAppBundle (handled : list string) (file : InstallPath) : bool :=
  isAppBundlePath (target file) &&
  match getAppBundleRoot (target file) with
  | Some appPath => bool_decide (appPath ∈ handled)
  | None => false
  end.

(** [if (fs.existsSync(targetPath)) fs.unlinkSync(targetPath)] and then
    [fs.symlinkSync(linkTarget, targetPath)] *)
Definition replaceBySymlink (linkTarget targetPath : string) (fs : FS) : option FS :=
  match (if existsSync fs targetPath then unlinkSync targetPath fs else Some fs) with
  | Some fs1 => symlinkSync linkTarget targetPath fs1
  | None => None
  end.

Definition mode_of (n : node) : Z :=
  match n with
  | NFile _ mode => mode
  | NDir => 16877        (* 0o40755 *)
  | NLink _ => 41471     (* 0o120777 *)
  end.

(** The body of the [try] of one plan entry; [None] is a throw. *)
Definition installOne (file : InstallPath) (fs : FS) : option FS :=
  let targetPath := target file in
  let sourcePath := source file in
  let fromExtraction :=
    match ip_linkTarget file with
    | Some linkTarget =>
        if ip_isSymlink file && negb (String.eqb linkTarget "")
        then Some linkTarget else None
    | None => None
    end in
  match fromExtraction with
  | Some linkTarget =>
      (* file.resolvedTarget is undefined: plan entries carry no such field *)
      let resolvedTarget := linkTarget in
      let isRelative := negb (Path.isAbsolute linkTarget) in
      replaceBySymlink (if isRelative then linkTarget else resolvedTarget) targetPath fs
  | None =>
      match lstatSync fs sourcePath with
      | None => None
      | Some (NLink linkTarget) =>
          let isRelative := negb (Path.isAbsolute linkTarget) in
          let resolvedTarget := linkTarget in
          replaceBySymlink (if isRelative then linkTarget else resolvedTarget) targetPath fs
      | Some _ =>
          match copyFileSync sourcePath targetPath fs with
          | None => None
          | Some fs1 =>
              let originalMode := mode_of (sourceStats file) in
              let newMode :=
                if darwin env && negb (Z.land originalMode 73 =? 0)%Z
                then Z.lor originalMode 73      (* 0o111 *)
                else originalMode in
              match chmodSync targetPath newMode fs1 with
              | Some fs2 => Some fs2
              | None => Some fs1
              end
          end
      end
  end.

(** The loop "Install remaining individual files". *)
Fixpoint installFiles (installPaths : list InstallPath) (handled : list string)
    (createdDirs : gset string) : M unit :=
  match installPaths with
  | [] => ret tt
  | file :: rest =>
      if handledByAppBundle handled file then installFiles rest handled createdDirs
      else
        createdDirs' <- ensureDirOnce (Path.dirname (target file)) createdDirs ;;
        call (installOne file) (InstallFailed (target file)) ;;;
        installFiles rest handled createdDirs'
  end.

(** [installedFiles]: the third resolution of every kept entry. *)
Fixpoint resolveAll (filesToInstall : list Entry) : M (list string) :=
  match filesToInstall with
  | [] => ret []
  | entry :: rest =>
      mapped <- resolvePath (entryName entry) ;;
      more <- resolveAll rest ;;
      ret (match mapped with Some t => t :: more | None => more end)
  end.

(** [{ ...metadata, ...parsedMetadata }] and the test of the version *)
Definition mergeDescriptor (pawName : string) (d : Descriptor) : Metadata :=
  let name := default pawName (d_name d) in
  let version :=
    match d_version d with
    | Some v => if String.eqb v "" || String.eqb v "0.0.0" then "0.0.0" else v
    | None => "0.0.0"
    end in
  mkMetadata name version (d_deletePaths d).

(** The metadata block: the defaults, then the embedded descriptor.
    The descriptor in the directory named after the paw is read only
    when the one at the root gives no text; a text that does not parse
    leaves the defaults. *)
Definition readMetadata (filePath : string) (bytes : string) : Metadata :=
  let pawName := Path.basename filePath ".paw" in
  let defaults := mkMetadata pawName "0.0.0" [] in
  match readAsText env bytes "metadata/data.json" with
  | None => defaults
  | Some rootContent =>
      let metadataContent :=
        if String.eqb rootContent ""
        then readAsText env bytes (pawName +:+ "/metadata/data.json")
        else Some rootContent in
      match metadataContent with
      | None => defaults
      | Some text =>
          if String.eqb text "" then defaults
          else match JSON_parse_descriptor env text with
               | Some d => mergeDescriptor pawName d
               | None => defaults
               end
      end
  end.

Definition file_bytes (fs : FS) (p : string) : string :=
  match statSync fs p with
  | Some (NFile data _) => data
  | _ => EmptyString
  end.

(** The [try] block of [installFromFile], cut into its stages.  First
    the scratch directory, the extraction and the walk. *)
Definition setupScratch (filePath : string) : M (Metadata * list Entry) :=
  call (ensureDirSync tempInstallDir) (IoError tempInstallDir) ;;;
  call (copyFileSync filePath tempFile) (IoError tempFile) ;;;
  call (ensureDirSync extractDir) (IoError extractDir) ;;;
  bytes <- get (fun fs => file_bytes fs tempFile) ;;
  let metadata := readMetadata filePath bytes in
  call (extractAll env bytes extractDir) ExtractFailed ;;;
  entries <- get (fun fs => readDir (S (size (nodes fs))) fs extractDir extractDir) ;;
  ret (metadata, entries).

(** From the entries to [filesToInstall] and [installPaths]. *)
Definition planInstall (entries : list Entry) : M (list Entry * list InstallPath) :=
  osFiles <- filterValid entries ;;
  match osFiles with
  | [] =>
      match filesWithPotentialPrefixes entries with
      | [] => throw NoValidFiles
      | _ => throw MustUsePrefixes
      end
  | _ =>
      let filesToInstall := osFiles in
      installPaths <- mapInstallPaths filesToInstall ;;
      match installPaths with
      | [] => throw NoValidFilesAllPrefixes
      | _ => ret (filesToInstall, installPaths)
      end
  end.

(** The conflict check and the confirmation prompt. *)
Definition confirmInstall (installPaths : list InstallPath) : M unit :=
  existing <- get (fun fs => existingFiles fs installPaths) ;;
  let forceInstall := PAWKIT_FORCE_INSTALL env in
  if negb (length existing =? 0)%nat && negb forceInstall
  then throw (FilesExist (length existing))
  else
    if confirm_installation env && negb forceInstall &&
       negb (String.eqb (answer env) "y") && negb (String.eqb (answer env) "yes")
    then throw CancelledByUser
    else ret tt.

(** The application bundles, then the remaining files. *)
Definition materialize (installPaths : list InstallPath) : M unit :=
  bundled <- installBundles (groupBundles installPaths) ∅ [] ;;
  installFiles installPaths (snd bundled) (fst bundled).

(** [paws.json] *)
Definition PAWS_FILE : string :=
  Path.join (Resolver.CONFIG_DIR (USER_HOME env)) "paws.json".

(** [fs.readJsonSync(PAWS_FILE)] *)
Definition readJson (fs : FS) : option PawsJson :=
  match statSync fs PAWS_FILE with
  | Some (NFile data _) => JSON_parse_paws env data
  | _ => None
  end.

(** The table [paws.installed], when [paws.json] holds one. *)
Definition readPaws (fs : FS) : option (gmap string PawInfo) :=
  match readJson fs with
  | Some (Table installed) => Some installed
  | _ => None
  end.

(** [fs.writeJsonSync(PAWS_FILE, paws)] *)
Definition writePaws (installed : gmap string PawInfo) (fs : FS) : option FS :=
  writeFileSync PAWS_FILE (JSON_stringify_paws env installed) fs.

(** The record of the paw: [paws.json] is read, the record assigned
    under the name of the descriptor, and the file written back.  The
    assignment is a TypeError where there is no table. *)
Definition recordPaw (metadata : Metadata) (installedFiles : list string) : M unit :=
  fun fs =>
    match readJson fs with
    | None => (Throw (JsonReadError PAWS_FILE), fs)
    | Some NoTable => (Throw TypeError, fs)
    | Some (Table installed) =>
        let pawInfo :=
          mkPawInfo (md_version metadata) (now env) installedFiles metadata in
        match writePaws (JsObject.set (name metadata) pawInfo installed) fs with
        | Some fs' => (Ok tt, fs')
        | None => (Throw (JsonWriteError PAWS_FILE), fs)
        end
    end.

Definition installBody (filePath : string) : M unit :=
  scratch <- setupScratch filePath ;;
  plan <- planInstall (snd scratch) ;;
  confirmInstall (snd plan) ;;;
  materialize (snd plan) ;;;
  resolved <- resolveAll (fst plan) ;;
  recordPaw (fst scratch) (array_from_set ∅ resolved).

(** The [catch] of [installFromFile]: remove the scratch directory,
    swallowing a failure of the removal. *)
Definition cleanup (fs : FS) : FS :=
  if existsSync fs tempInstallDir then
    match removeSync tempInstallDir fs with
    | Some fs' => fs'
    | None => fs
    end
  else fs.

Definition installFromFile (filePath : string) : M unit :=
  fun fs =>
    if negb (existsSync fs filePath) then (Throw (FileNotFound filePath), fs)
    else if negb (isValidZipFile fs filePath) then (Throw (InvalidPaw filePath), fs)
    else
      match installBody filePath fs with
      | (Ok _, fs') => (Ok tt, fs')
      | (Throw e, fs') => (Throw e, cleanup fs')
      end.


(** *** [remove]

    [failedDeletions] is kept as the list of paths; the message that
    goes with each path is the text of the caught exception. *)

(** One round of the loop over [appBundles]. *)
Definition removeBundle (appPath : string) (fs : FS) : list string * FS :=
  if existsSync fs appPath then
    if darwin env then
      match native_rm env appPath fs with
      | (true, fs1) => ([], fs1)
      | (false, fs1) =>
          match removeSync appPath fs1 with
          | Some fs2 => ([], fs2)
          | None => ([appPath], fs1)
          end
      end
    else
      match removeSync appPath fs with
      | Some fs1 => ([], fs1)
      | None => ([appPath], fs)
      end
  else ([], fs).

(** [deletePath.replace(/^~\//, `${os.homedir()}/`)] followed by the
    loop over the special paths, each replacing its first occurrence. *)
Definition resolveDeletePath (deletePath : string) : string :=
  let resolvedPath :=
    if Js.startsWith deletePath "~/"
    then USER_HOME env +:+ "/" +:+ Js.substring_from 2 deletePath
    else deletePath in
  fold_left (fun resolvedPath '(key, value) =>
               if Js.includes key resolvedPath
               then Js.replace_first key value resolvedPath
               else resolvedPath)
            (Resolver.specialPaths (USER_HOME env)) resolvedPath.

(** One round of the loop over [deletePaths]. *)
Definition removeDeletePath (deletePath : string) (fs : FS) : list string * FS :=
  let resolvedPath := resolveDeletePath deletePath in
  if negb (existsSync fs resolvedPath) then ([], fs)
  else if Js.includes "Application Support" resolvedPath then
    let fs1 := sudo_rm env resolvedPath fs in
    if existsSync fs1 resolvedPath then
      if is_dir fs1 resolvedPath
      then (readdirSync fs1 resolvedPath ++ [resolvedPath], fs1)
      else ([resolvedPath], fs1)                 (* readdirSync throws *)
    else ([], fs1)
  else
    match removeSync resolvedPath fs with
    | Some fs1 =>
        if existsSync fs1 resolvedPath then ([resolvedPath], fs1) else ([], fs1)
    | None => ([resolvedPath], fs)
    end.

(** One round of the loop over [pawInfo.files]. *)
Definition removeFile (appBundles : list string) (file : string) (fs : FS)
  : list string * FS :=
  if existsb (fun appPath => Js.startsWith file appPath) appBundles then ([], fs)
  else
    match removeSync file fs with
    | Some fs1 => ([], fs1)
    | None => ([file], fs)
    end.

(** Running a deletion step over a list, collecting the failures. *)
Fixpoint forEach (step : string -> FS -> list string * FS) (l : list string)
    (fs : FS) : list string * FS :=
  match l with
  | [] => ([], fs)
  | x :: rest =>
      let '(failed1, fs1) := step x fs in
      let '(failed2, fs2) := forEach step rest fs1 in
      (failed1 ++ failed2, fs2)
  end.

(** The bundle roots of the recorded files, a [Set] in insertion order. *)
Definition bundleRoots (recorded : list string) : list string :=
  array_from_set ∅
    (omap (fun file => if isAppBundlePath file then getAppBundleRoot file else None)
          recorded).

(** A pass whose failures are all caught. *)
Definition caught (pass : FS -> list string * FS) : M (list string) :=
  fun fs => let '(failed, fs') := pass fs in (Ok failed, fs').

(** The loop over [deletePaths]: [deletePath.replace] stands before
    the [try] of the round, so an element that is no string ends the
    loop, and [remove], with a TypeError. *)
Fixpoint removeDeletePaths (deletePaths : list DeletePath) : M (list string) :=
  match deletePaths with
  | [] => ret []
  | NotText :: _ => throw TypeError
  | Text deletePath :: rest =>
      failed1 <- caught (removeDeletePath deletePath) ;;
      failed2 <- removeDeletePaths rest ;;
      ret (failed1 ++ failed2)
  end.

(** The three deletion passes of [remove]. *)
Definition removeAll (pawInfo : PawInfo) : M (list string) :=
  let appBundles := bundleRoots (files pawInfo) in
  failed1 <- caught (forEach removeBundle appBundles) ;;
  failed2 <- removeDeletePaths (deletePaths (metadata pawInfo)) ;;
  failed3 <- caught (forEach (removeFile appBundles) (files pawInfo)) ;;
  ret (failed1 ++ failed2 ++ failed3).

(** The summary of the failed deletions collects them in the object
    [pathsByDir] under [path.dirname]: a directory name that
    [Object.prototype] has is found there, and is no array to push on. *)
Definition summaryThrows (failedDeletions : list string) : bool :=
  existsb (fun p => JsObject.inherited (Path.dirname p)) failedDeletions.

(** [remove(pawName)]: the failed deletions it reports, or the error
    it throws.  [paws.json] is written from the table read at the
    start. *)
Definition remove (pawName : string) : M (list string) :=
  fun fs =>
    match readJson fs with
    | None => (Throw (JsonReadError PAWS_FILE), fs)
    | Some NoTable => (Throw TypeError, fs)        (* paws.installed[pawName] *)
    | Some (Table installed) =>
        match JsObject.get installed pawName with
        | JsObject.Undefined => (Throw (NotInstalled pawName), fs)
        | JsObject.Inherited => (Throw TypeError, fs)     (* pawInfo.files.length *)
        | JsObject.Own pawInfo =>
            match removeAll pawInfo fs with
            | (Throw e, fs1) => (Throw e, fs1)
            | (Ok failedDeletions, fs1) =>
                match writePaws (delete pawName installed) fs1 with
                | None => (Throw (JsonWriteError PAWS_FILE), fs1)
                | Some fs2 =>
                    if summaryThrows failedDeletions then (Throw TypeError, fs2)
                    else (Ok failedDeletions, fs2)
                end
            end
        end
    end.


End WithEnv.

End Pawkit.

(** ** [compareVersions] *)

Module Version.

(** The value of [Number(s)].  A finite value is [mantissa * 10^exp10];
    values are compared exactly, which is the comparison of the doubles
    as long as both are integers below [2^53] in magnitude. *)
Inductive JsNumber : Type :=
| NaN
| Fin (mantissa exp10 : Z)
| Inf (negative : bool).

Definition is_space (c : ascii) : bool :=
  let n := nat_of_ascii c in
  ((9 <=? n) && (n <=? 13) || (n =? 32) || (n =? 160))%nat.

Fixpoint trim_start (s : string) : string :=
  match s with
  | String c s' => if is_space c then trim_start s' else s
  | EmptyString => EmptyString
  end.

Definition trim (s : string) : string :=
  string_of_list_ascii
    (rev (list_ascii_of_string
            (trim_start (string_of_list_ascii
                           (rev (list_ascii_of_string (trim_start s))))))).

Definition digit_value (c : ascii) : option Z :=
  let n := nat_of_ascii c in
  if ((48 <=? n) && (n <=? 57))%nat then Some (Z.of_nat (n - 48))
  else if ((97 <=? n) && (n <=? 102))%nat then Some (Z.of_nat (n - 87))
  else if ((65 <=? n) && (n <=? 70))%nat then Some (Z.of_nat (n - 55))
  else None.

(** The value of a non-empty run of digits in the given radix. *)
Fixpoint digits_from (radix : Z) (acc : Z) (s : string) : option Z :=
  match s with
  | EmptyString => Some acc
  | String c s' =>
      match digit_value c with
      | Some d => if (d <? radix)%Z then digits_from radix (radix * acc + d) s' else None
      | None => None
      end
  end.

Definition digits (radix : Z) (s : string) : option Z :=
  match s with
  | EmptyString => None
  | _ => digits_from radix 0 s
  end.

Definition is_e (c : ascii) : bool := Ascii.eqb c "e" || Ascii.eqb c "E".

(** Splits at the first [e] or [E]. *)
Fixpoint split_exponent (s : string) : string * option string :=
  match s with
  | EmptyString => (EmptyString, None)
  | String c s' =>
      if is_e c then (EmptyString, Some s')
      else let '(m, e) := split_exponent s' in (String c m, e)
  end.

Definition signed (s : string) : bool * string :=
  match s with
  | String "-" s' => (true, s')
  | String "+" s' => (false, s')
  | _ => (false, s)
  end.

(** [StrUnsignedDecimalLiteral] without a dot: the components come out
    of [split('.')]. *)
Definition unsigned_decimal (negative : bool) (s : string) : JsNumber :=
  if String.eqb s "Infinity" then Inf negative
  else
    let '(m, e) := split_exponent s in
    match digits 10 m with
    | None => NaN
    | Some mv =>
        let mv := if negative then (- mv)%Z else mv in
        match e with
        | None => Fin mv 0
        | Some es =>
            let '(eneg, ed) := signed es in
            match digits 10 ed with
            | Some ev => Fin mv (if eneg then (- ev)%Z else ev)
            | None => NaN
            end
        end
    end.

(** [Number(s)] on a string *)
Definition Number (s : string) : JsNumber :=
  let t := trim s in
  match t with
  | EmptyString => Fin 0 0
  | String "0" (String x r) =>
      if Ascii.eqb x "x" || Ascii.eqb x "X" then
        match digits 16 r with Some v => Fin v 0 | None => NaN end
      else if Ascii.eqb x "o" || Ascii.eqb x "O" then
        match digits 8 r with Some v => Fin v 0 | None => NaN end
      else if Ascii.eqb x "b" || Ascii.eqb x "B" then
        match digits 2 r with Some v => Fin v 0 | None => NaN end
      else unsigned_decimal false t
  | _ => let '(negative, u) := signed t in unsigned_decimal negative u
  end.

(** [a < b] on numbers: false as soon as one side is [NaN]. *)
Definition lt (a b : JsNumber) : bool :=
  match a, b with
  | NaN, _ | _, NaN => false
  | Inf true, Inf true => false
  | Inf true, _ => true
  | _, Inf true => false
  | Inf false, _ => false
  | _, Inf false => true
  | Fin m1 e1, Fin m2 e2 =>
      let e := Z.min e1 e2 in
      (m1 * 10 ^ (e1 - e) <? m2 * 10 ^ (e2 - e))%Z
  end.

Definition gt (a b : JsNumber) : bool := lt b a.

(** The two [while] loops that pad the shorter array with zeros. *)
Definition pad (n : nat) (parts : list JsNumber) : list JsNumber :=
  parts ++ repeat (Fin 0 0) (n - length parts).

(** The [for] loop over two arrays of the same length. *)
Fixpoint compareParts (parts1 parts2 : list JsNumber) : Z :=
  match parts1, parts2 with
  | a :: rest1, b :: rest2 =>
      if gt a b then 1%Z
      else if lt a b then (-1)%Z
      else compareParts rest1 rest2
  | _, _ => 0%Z
  end.

Definition parts (version : string) : list JsNumber :=
  map Number (Js.split "." version).

Definition compareVersions (version1 version2 : string) : Z :=
  let parts1 := parts version1 in
  let parts2 := parts version2 in
  compareParts (pad (length parts2) parts1) (pad (length parts1) parts2).

(** The test of [updatePaw]: [true] makes it report "already at the
    latest version" and return without updating. *)
Definition alreadyLatest (installedVersion latestRepoVersion : string) : bool :=
  (0 <=? compareVersions installedVersion latestRepoVersion)%Z.

(** A decimal numeral, in the words of the specification: a non-empty
    run of the digits 0 to 9. *)
Definition is_decimal_numeral (s : string) : bool :=
  negb (String.eqb s "") &&
  forallb (fun c => (48 <=? nat_of_ascii c)%nat && (nat_of_ascii c <=? 57)%nat)
          (list_ascii_of_string s).

End Version.

(** ** Concrete inputs

    A home directory, a scratch directory and a few small archives, on
    which the definitions above are run. *)

Module Demo.
Import Fs Pawkit.

(** The first bytes of a zip archive: [PK\003\004]. *)
Definition PK : string :=
  String (ascii_of_nat 80) (String (ascii_of_nat 75)
    (String (ascii_of_nat 3) (String (ascii_of_nat 4) "zipdata"))).

(** An extractor that writes the given leaves below the extraction
    directory, creating the directories on the way. *)
Definition write_leaf (dir : string) (fs : FS) (leaf : string * node) : FS :=
  let p := dir +:+ "/" +:+ leaf.1 in
  match ensureDirSync (Path.dirname p) fs with
  | Some fs' => set_nodes fs' (<[p := leaf.2]> (nodes fs'))
  | None => fs
  end.

Definition extract_leaves (leaves : list (string * node))
  : string -> string -> FS -> option FS :=
  fun _ dir fs => Some (fold_left (write_leaf dir) leaves fs).

(** A stand-in for [JSON] on the table of [paws.json]: the text is the
    numeral, in binary digits, that stdpp's enumeration of the tables
    gives; reading it back inverts the writing, and a text that is no
    such numeral is a syntax error. *)
#[local] Instance DeletePath_countable : Countable DeletePath :=
  inj_countable' (fun d => match d with Text s => Some s | NotText => None end)
                 (fun o => match o with Some s => Text s | None => NotText end)
                 (fun d => match d with Text _ => eq_refl | NotText => eq_refl end).

#[local] Instance Metadata_countable : Countable Metadata :=
  inj_countable' (fun m => (name m, md_version m, deletePaths m))
                 (fun t => mkMetadata t.1.1 t.1.2 t.2)
                 (fun m => match m with mkMetadata _ _ _ => eq_refl end).

#[local] Instance PawInfo_countable : Countable PawInfo :=
  inj_countable' (fun i => (version i, installDate i, files i, metadata i))
                 (fun t => mkPawInfo t.1.1.1 t.1.1.2 t.1.2 t.2)
                 (fun i => match i with mkPawInfo _ _ _ _ => eq_refl end).

Fixpoint numeral (p : positive) : string :=
  match p with
  | xH => ""
  | xO q => String "0" (numeral q)
  | xI q => String "1" (numeral q)
  end.

Fixpoint numeral_value (s : string) : option positive :=
  match s with
  | EmptyString => Some xH
  | String c r =>
      if Ascii.eqb c "0" then option_map xO (numeral_value r)
      else if Ascii.eqb c "1" then option_map xI (numeral_value r)
      else None
  end.

Definition stringify_paws (installed : gmap string PawInfo) : string :=
  numeral (encode installed).

Definition parse_paws (text : string) : option PawsJson :=
  match numeral_value text with
  | Some p => option_map Table (decode p)
  | None => None
  end.

(** The text of an entry of the archive that holds the given leaves. *)
Definition read_leaf (leaves : list (string * node)) : string -> string -> option string :=
  fun _ entry =>
    Some (match List.find (fun leaf => String.eqb leaf.1 entry) leaves with
          | Some (_, NFile data _) => data
          | _ => ""
          end).

(** A Linux host without [ditto]; the subprocess tools all fail. *)
Definition env_with (force confirm : bool) (input : string)
    (leaves : list (string * node)) : Env :=
  mkEnv "/Users/u" "/tmp" "pawkit-1-abc" "2025-01-01T00:00:00.000Z"
        false force confirm input false
        (extract_leaves leaves)
        (read_leaf leaves)
        (fun text => if String.eqb text "{}" then Some (mkDescriptor None None [])
                     else None)
        parse_paws stringify_paws
        (fun _ _ fs => (false, fs))
        (fun _ fs => (false, fs))
        (fun _ fs => fs).

(** [paws.json] holding the table [installed]. *)
Definition paws_json (installed : gmap string PawInfo) : string * node :=
  ("/Users/u/.pawkit/paws.json", NFile (stringify_paws installed) 420).

Definition disk_with (installed : gmap string PawInfo) (more : list (string * node))
  : FS :=
  mkFS (list_to_map
          ([ ("/", NDir); ("/tmp", NDir); ("/Users", NDir); ("/Users/u", NDir);
             ("/Users/u/.pawkit", NDir); paws_json installed;
             ("/Users/u/Documents", NDir);
             ("/dl", NDir); ("/dl/pkg.paw", NFile PK 420) ] ++ more))
       ∅ ∅.

(** A disk on which no paw is installed. *)
Definition disk (more : list (string * node)) : FS := disk_with ∅ more.

(** The value of a run that is known to return. *)
Definition ok_or {A} (d : A) (r : result A) : A :=
  match r with
  | Ok a => a
  | Throw _ => d
  end.

(** The scratch stage and the plan of a run of [env] on [/dl/pkg.paw]. *)
Definition scratch_of (env : Env) (fs0 : FS) : (Metadata * list Entry) * FS :=
  let run := setupScratch env "/dl/pkg.paw" fs0 in
  (ok_or (mkMetadata "" "" [], []) run.1, run.2).

Definition plan_of (env : Env) (fs0 : FS) : (list Entry * list InstallPath) * FS :=
  let run := planInstall env (scratch_of env fs0).1.2 (scratch_of env fs0).2 in
  (ok_or ([], []) run.1, run.2).

(** Two entries of one archive that resolve to the same destination,
    which is present on the disk. *)
Definition same_leaves : list (string * node) :=
  [ ("a/@documents/same.txt", NFile "one" 420);
    ("b/@documents/same.txt", NFile "two" 420) ].

Definition same_disk : FS :=
  disk [ ("/Users/u/Documents/same.txt", NFile "old" 420) ].

Definition same_plan : list InstallPath :=
  [ mkInstallPath "/tmp/pawkit-1-abc/extracted/a/@documents/same.txt"
                  "/Users/u/Documents/same.txt" false None (NFile "one" 420);
    mkInstallPath "/tmp/pawkit-1-abc/extracted/b/@documents/same.txt"
                  "/Users/u/Documents/same.txt" false None (NFile "two" 420) ].



(** One relative link, and disks where its destination is taken by a
    link to nothing, or by a directory. *)
Definition one_link : list (string * node) :=
  [ ("@documents/l", NLink "hello.txt") ].

Definition link_entry : InstallPath :=
  mkInstallPath "/tmp/pawkit-1-abc/extracted/@documents/l" "/Users/u/Documents/l"
                true (Some "hello.txt") (NLink "hello.txt").

Definition dangling_disk : FS := disk [ ("/Users/u/Documents/l", NLink "gone") ].
Definition directory_disk : FS := disk [ ("/Users/u/Documents/l", NDir) ].

(** One file, for a disk without conflicts. *)
Definition hello_leaves : list (string * node) :=
  [ ("@documents/hello.txt", NFile "hi" 420) ].







(** A paw whose two recorded files cannot be removed. *)
Definition stuck_info : PawInfo :=
  mkPawInfo "1.0.0" "2025-01-01T00:00:00.000Z"
            ["/Users/u/Documents/a.txt"; "/Users/u/Documents/b.txt"]
            (mkMetadata "stuck" "1.0.0" []).

Definition stuck_disk : FS :=
  mkFS (list_to_map
          [ ("/", NDir); ("/Users", NDir); ("/Users/u", NDir);
            ("/Users/u/.pawkit", NDir); paws_json {[ "stuck" := stuck_info ]};
            ("/Users/u/Documents", NDir);
            ("/Users/u/Documents/a.txt", NFile "a" 420);
            ("/Users/u/Documents/b.txt", NFile "b" 420) ])
       {[ "/Users/u/Documents/a.txt"; "/Users/u/Documents/b.txt" ]} ∅.

End Demo.

(** ** The mode of an installed file

    [newMode] of the copy branch of the install loop, as a function of
    the status recorded in the plan: on macOS the three execute bits
    are set when one of them is. *)

Module Modes.
Import Fs Pawkit.

Definition newMode (env : Env) (sourceStats : node) : Z :=
  let originalMode := mode_of sourceStats in
  if darwin env && negb (Z.land originalMode 73 =? 0)%Z
  then Z.lor originalMode 73
  else originalMode.

(** The mode after the copy and the [chmod] whose failure is
    swallowed: the mode asked for, unless the file at the destination
    [d] is not this user's, and then the mode the copy left: that of
    the file that was there, or of the source. *)
Definition modeAfter (fs : FS) (d : string) (sourceMode mode : Z) : Z :=
  if bool_decide (d ∈ foreign fs) then
    match nodes fs !! d with
    | Some (NFile _ mode0) => mode0
    | _ => sourceMode
    end
  else mode.

End Modes.

(** ** The tree below a directory

    The vocabulary for stating what the walk over the extraction
    directory lists. *)

Module Walk.
Import Fs Pawkit.

(** [p] is an entry of the directory [dir]. *)
Definition child (fs : FS) (dir p : string) : Prop :=
  is_Some (nodes fs !! p) /\ Path.dirname p = dir /\ p <> dir.

(** [p] is reached from [dir] in [n] steps, through directories. *)
Inductive reaches (fs : FS) : nat -> string -> string -> Prop :=
| reaches_here (dir p : string) :
    child fs dir p -> reaches fs 1 dir p
| reaches_down (n : nat) (dir c p : string) :
    child fs dir c -> nodes fs !! c = Some NDir -> reaches fs n c p ->
    reaches fs (S n) dir p.

(** The entry the walk makes for a file or a link at [p]. *)
Definition entryOf (fs : FS) (extractDir p : string) : option Entry :=
  let relativePath := Js.replace_char "\" "/" (relative extractDir p) in
  match lstatSync fs p with
  | Some (NFile _ _) => Some (mkEntry relativePath p false None None)
  | Some (NLink t) =>
      Some (mkEntry relativePath p true (Some t)
              (Some (if negb (Path.isAbsolute t)
                     then resolve (Path.dirname p) t else t)))
  | _ => None
  end.

End Walk.

(** ** The command line: [delete]

    The action of the [delete] command in the entry script: the names
    are removed one after the other, an error of one removal is
    printed and the loop goes on. *)

Module Cli.
Import Fs Pawkit.

(** The loop [for (const paw of paws) try { await remove(paw) } catch ...]:
    the errors it prints, with the name each belongs to. *)
Fixpoint removeEach (env : Env) (paws : list string) (st : FS)
  : list (string * error) * FS :=
  match paws with
  | [] => ([], st)
  | paw :: rest =>
      match remove env paw st with
      | (Ok _, st1) => removeEach env rest st1
      | (Throw e, st1) =>
          let '(errors, st2) := removeEach env rest st1 in
          ((paw, e) :: errors, st2)
      end
  end.

(** The external [rm] commands do what they are run for: they remove
    nodes, and neither add nor change one. *)
Definition rm_only_removes (env : Env) : Prop :=
  (forall p fs, nodes (native_rm env p fs).2 ⊆ nodes fs) /\
  (forall p fs, nodes (sudo_rm env p fs) ⊆ nodes fs).

(** The exit code of the process, the printed errors and the file
    system it leaves. *)
Definition deleteCommand (env : Env) (paws : list string) (st : FS)
  : Z * list (string * error) * FS :=
  match paws with
  | [] => (1%Z, [], st)                      (* process.exit(1) *)
  | _ => let '(errors, st') := removeEach env paws st in (0%Z, errors, st')
  end.

End Cli.

(** ** Repositories

    [repos.json] is kept apart from the other files: the functions
    below take and return [repos.repositories].  A
    repository index is read as far as the program looks into it, and
    the fields it reads are strings or absent. *)

Module Repos.
Import Fs.

Record Repo : Type := mkRepo {
  r_name : string;
  url : string;
  addedDate : string;
  lastUpdated : option string
}.

(** A value of [repoData.paws], or an element of [repoData.apps]. *)
Record PawEntry : Type := mkPawEntry {
  pawName : option string;
  pe_version : option string
}.

Record RepoData : Type := mkRepoData {
  repositoryName : option string;
  rd_name : option string;
  paws : option (gmap string PawEntry);
  apps : option (list PawEntry)
}.

(** A JSON value, as far as the program looks into it: reading a
    property of [null] throws a TypeError, reading one of any other
    value gives the property or [undefined]. *)
Inductive Json : Type :=
| JNull
| JObject (repoData : RepoData).

(** What comes from outside: the answers of the network, the reading of
    a JSON text, and the clock, which is read as one value in a run. *)
Record Net : Type := mkNet {
  axios_get : string -> option Json;   (* None: the request failed *)
  JSON_parse : string -> option Json;  (* None: a SyntaxError *)
  today : string                       (* new Date().toISOString() *)
}.

Inductive error : Type :=
| RepositoryFileNotFound (filePath : string)
| FailedToParse
| RequestFailed
| TypeError                      (* a property of null was read *)
| AlreadyExists                  (* 'Repository already exists' *)
| RepositoryNotFound (name : string)
| FailedToUpdate (name : string) (cause : error)
| VersionNotFound (pawName : string).

Inductive outcome (A : Type) : Type :=
| Done (a : A)
| Failed (e : error).
Arguments Done {A} a.
Arguments Failed {A} e.

(** A string operand of [||] or of [if]: the empty string is falsy. *)
Definition truthy (o : option string) : option string :=
  match o with
  | Some s => if String.eqb s "" then None else Some s
  | None => None
  end.

(** [JSON.parse(fs.readFileSync(filePath, 'utf8'))] *)
Definition readRepoFile (net : Net) (fs : FS) (filePath : string) : option Json :=
  match statSync fs filePath with
  | Some (NFile data _) => JSON_parse net data
  | _ => None            (* readFileSync throws *)
  end.

(** The first block of [addRepo] and of [updateRepo]. *)
Definition fetchRepo (net : Net) (fs : FS) (url : string) : outcome Json :=
  if Js.startsWith url "file://" then
    let filePath := Js.replace_first "file://" "" url in
    if negb (existsSync fs filePath) then Failed (RepositoryFileNotFound filePath)
    else match readRepoFile net fs filePath with
         | Some repoData => Done repoData
         | None => Failed FailedToParse
         end
  else
    match axios_get net url with
    | Some data => Done data
    | None => Failed RequestFailed
    end.

Definition repoNameOf (repoData : RepoData) : string :=
  match truthy (repositoryName repoData) with
  | Some n => n
  | None => match truthy (rd_name repoData) with
            | Some n => n
            | None => "Unknown Repository"
            end
  end.

(** [addRepo(url)] *)
Definition addRepo (net : Net) (fs : FS) (url0 : string) (repositories : list Repo)
  : outcome unit * list Repo :=
  match fetchRepo net fs url0 with
  | Failed e => (Failed e, repositories)
  | Done repoData =>
      if existsb (fun r => String.eqb (url r) url0) repositories
      then (Failed AlreadyExists, repositories)
      else match repoData with
           | JNull => (Failed TypeError, repositories)
           | JObject d =>
               (Done tt,
                repositories ++ [mkRepo (repoNameOf d) url0 (today net) None])
           end
  end.

(** [repositories.findIndex(p)] *)
Fixpoint findIndex (p : Repo -> bool) (l : list Repo) : option nat :=
  match l with
  | [] => None
  | r :: rest => if p r then Some O else option_map S (findIndex p rest)
  end.

(** [repositories.splice(index, 1)] *)
Definition splice1 (index : nat) (l : list Repo) : list Repo :=
  take index l ++ drop (S index) l.

(** [removeRepo(name)] *)
Definition removeRepo (name : string) (repositories : list Repo)
  : outcome unit * list Repo :=
  match findIndex (fun r => String.eqb (r_name r) name) repositories with
  | None => (Failed (RepositoryNotFound name), repositories)
  | Some index => (Done tt, splice1 index repositories)
  end.

(** [repo.lastUpdated = new Date().toISOString()] *)
Definition stamped (net : Net) (repo : Repo) : Repo :=
  mkRepo (r_name repo) (url repo) (addedDate repo) (Some (today net)).

(** [updateRepo(repoName)]: [repo] is the first element with that name,
    and the assignment to [repo.lastUpdated] changes that element of
    the array that is written back. *)
Definition updateRepo (net : Net) (fs : FS) (repoName : string)
    (repositories : list Repo) : outcome unit * list Repo :=
  match findIndex (fun r => String.eqb (r_name r) repoName) repositories with
  | None => (Failed (RepositoryNotFound repoName), repositories)
  | Some index =>
      match repositories !! index with
      | None => (Failed (RepositoryNotFound repoName), repositories)
      | Some repo =>
          match fetchRepo net fs (url repo) with
          | Failed e => (Failed (FailedToUpdate repoName e), repositories)
          | Done _ =>
              (Done tt, <[index := stamped net repo]> repositories)
          end
      end
  end.

(** The loop of [updateAllRepos] over the names read at its start;
    every round reads the file again. *)
Fixpoint updateEach (net : Net) (fs : FS) (names : list string)
    (repositories : list Repo) : outcome unit * list Repo :=
  match names with
  | [] => (Done tt, repositories)
  | repoName :: rest =>
      match updateRepo net fs repoName repositories with
      | (Failed e, repositories') => (Failed e, repositories')
      | (Done _, repositories') => updateEach net fs rest repositories'
      end
  end.

Definition updateAllRepos (net : Net) (fs : FS) (repositories : list Repo)
  : outcome unit * list Repo :=
  updateEach net fs (map r_name repositories) repositories.

(** The entry of a paw in a repository index, as
    [getLatestVersionFromRepo] looks for it.  [repoData.paws[pawName]]
    with a name that [Object.prototype] has is truthy, so the index is
    taken to list the paw, without a version, and [apps] is not
    searched. *)
Definition lookupPaw (name : string) (repoData : RepoData) : option PawEntry :=
  let inPaws :=
    match paws repoData with
    | Some m =>
        match JsObject.get m name with
        | JsObject.Own pawInfo => Some pawInfo
        | JsObject.Inherited => Some (mkPawEntry None None)
        | JsObject.Undefined => None
        end
    | None => None
    end in
  match inPaws with
  | Some pawInfo => Some pawInfo
  | None =>
      match apps repoData with
      | Some l =>
          List.find (fun app => match pawName app with
                                | Some n => String.eqb n name
                                | None => false
                                end) l
      | None => None
      end
  end.

(** The version one repository offers; [None] when the round of the
    loop ends without one: the file is missing ([continue]), the
    reading, the request or the look into the answer throws (caught),
    or the paw or its version is not there. *)
Definition versionIn (net : Net) (fs : FS) (name : string) (repo : Repo)
  : option string :=
  match fetchRepo net fs (url repo) with
  | Done (JObject repoData) =>
      match lookupPaw name repoData with
      | Some pawInfo => truthy (pe_version pawInfo)
      | None => None
      end
  | Done JNull => None
  | Failed _ => None
  end.

(** One round of the loop on [(latestVersion, found)]. *)
Definition latestStep (net : Net) (fs : FS) (name : string)
    (acc : string * bool) (repo : Repo) : string * bool :=
  match versionIn net fs name repo with
  | Some v =>
      (if (0 <? Version.compareVersions v acc.1)%Z then v else acc.1, true)
  | None => acc
  end.

(** [getLatestVersionFromRepo(pawName)] *)
Definition getLatestVersionFromRepo (net : Net) (fs : FS) (name : string)
    (repositories : list Repo) : outcome string :=
  let acc := fold_left (latestStep net fs name) repositories ("0.0.0", false) in
  if acc.2 then Done acc.1 else Failed (VersionNotFound name).

(** [repositories.find(r => r.name === name)], as an index. *)
Definition indexOfName (name : string) (repositories : list Repo) : option nat :=
  findIndex (fun r => String.eqb (r_name r) name) repositories.

(** No two repositories of the list have the same URL. *)
Definition unique_urls (repositories : list Repo) : Prop :=
  NoDup (map url repositories).

End Repos.

(** ** [config]

    [config.json] is kept apart from the other files; it is an object
    whose values the program reads as booleans. *)

Module Config.

Inductive value : Type :=
| VBool (b : bool)
| VString (s : string)
| VNumber (n : Z)
| VNull.

(** What [if (v)] does with a value. *)
Definition truthy (v : value) : bool :=
  match v with
  | VBool b => b
  | VString s => negb (String.eqb s "")
  | VNumber n => negb (n =? 0)%Z
  | VNull => false
  end.

(** "Handle boolean values from string input"; [None] is [undefined],
    the argument that was not given. *)
Definition coerce (input : option string) : option value :=
  match input with
  | Some s =>
      if String.eqb s "true" then Some (VBool true)
      else if String.eqb s "false" then Some (VBool false)
      else Some (VString s)
  | None => None
  end.

(** [configData[key] = value] followed by [writeJsonSync]: the file as
    it is read next time.  [JSON.stringify] leaves a property out
    whose value is [undefined]; and an assignment to [__proto__] on an
    object without an own property of that name goes to the setter
    of [Object.prototype], which ignores a value that is no object. *)
Definition assign (key : string) (v : option value) (configData : gmap string value)
  : gmap string value :=
  if String.eqb key "__proto__" && bool_decide (configData !! key = None)
  then configData
  else match v with
       | Some v' => <[key := v']> configData
       | None => delete key configData
       end.

(** [config('set', key, value)]: [None] for the thrown
    'Key required for setting configuration'. *)
Definition set (key input : option string) (configData : gmap string value)
  : option (gmap string value) :=
  match key with
  | None => None
  | Some k =>
      if String.eqb k "" then None
      else Some (assign k (coerce input) configData)
  end.

(** [config.confirm_installation], as the test of the confirmation
    prompt reads it. *)
Definition confirm_installation (configData : gmap string value) : bool :=
  match configData !! "confirm_installation" with
  | Some v => truthy v
  | None => false
  end.

End Config.

(** * Properties *)

(** ** Version comparison *)

Module VersionFacts.
Import Version.

Lemma lt_NaN_l x : lt NaN x = false.
Proof. reflexivity. Qed.

Lemma lt_NaN_r x : lt x NaN = false.
Proof. destruct x as [| m e | []]; reflexivity. Qed.

Lemma compareParts_NaN_l d r1 r2 :
  compareParts (NaN :: r1) (d :: r2) = compareParts r1 r2.
Proof. cbn [compareParts]. unfold gt. now rewrite lt_NaN_r, lt_NaN_l. Qed.

Lemma compareParts_NaN_r d r1 r2 :
  compareParts (d :: r1) (NaN :: r2) = compareParts r1 r2.
Proof. cbn [compareParts]. unfold gt. now rewrite lt_NaN_l, lt_NaN_r. Qed.

(** An array of [NaN]s compares equal to every array. *)
Lemma compareParts_all_NaN l1 :
  Forall (fun x => x = NaN) l1 -> forall l2, compareParts l1 l2 = 0%Z.
Proof.
  induction 1 as [| x l1 Hx _ IH]; intros [| d l2]; try reflexivity.
  subst x. rewrite compareParts_NaN_l. apply IH.
Qed.

Lemma pad_short n l : (n <= length l)%nat -> pad n l = l.
Proof.
  intros H. unfold pad. replace (n - length l)%nat with O by lia.
  cbn. apply app_nil_r.
Qed.

(** C10, as stated, fails: the component [0x10] is no decimal numeral,
    and yet it compares greater than [5]; so does the empty component
    of [1.] compare less than the [5] of [1.5]. *)
Lemma non_decimal_component_compares :
  ~ (forall c d : string,
        is_decimal_numeral c = false ->
        gt (Number c) (Number d) = false /\ lt (Number c) (Number d) = false)
  /\ compareVersions "0x10" "5" = 1%Z
  /\ compareVersions "1." "1.5" = (-1)%Z.
Proof.
  split; [| split; reflexivity].
  intros H. destruct (H "0x10" "5" eq_refl) as [Hgt _].
  vm_compute in Hgt. discriminate.
Qed.

(** C10, amended: a component that [Number] turns into [NaN] compares
    neither greater nor less than any number, so the loop of
    [compareVersions] passes over it; [compareVersions("abc", "999")]
    is 0; and a recorded version all of whose components are [NaN]
    compares equal to every version with at most as many components,
    which [updatePaw] reports as already at the latest version. *)
Theorem nan_component_is_skipped :
  (forall (c : string) (x : JsNumber),
      Number c = NaN ->
      gt (Number c) x = false /\ lt (Number c) x = false /\
      gt x (Number c) = false /\ lt x (Number c) = false)
  /\ (forall (c : string) (d : JsNumber) (r1 r2 : list JsNumber),
         Number c = NaN ->
         compareParts (Number c :: r1) (d :: r2) = compareParts r1 r2 /\
         compareParts (d :: r1) (Number c :: r2) = compareParts r1 r2)
  /\ compareVersions "abc" "999" = 0%Z
  /\ (forall v1 v2 : string,
         Forall (fun c => Number c = NaN) (Js.split "." v1) ->
         (length (Js.split "." v2) <= length (Js.split "." v1))%nat ->
         compareVersions v1 v2 = 0%Z /\ alreadyLatest v1 v2 = true).
Proof.
  repeat split.
  - rewrite H. unfold gt. apply lt_NaN_r.
  - rewrite H. apply lt_NaN_l.
  - rewrite H. unfold gt. apply lt_NaN_l.
  - rewrite H. apply lt_NaN_r.
  - rewrite H. apply compareParts_NaN_l.
  - rewrite H. apply compareParts_NaN_r.
  - assert (E : compareVersions v1 v2 = 0%Z); [| exact E].
    unfold compareVersions, parts.
    rewrite (pad_short (length (map Number (Js.split "." v2)))).
    + apply compareParts_all_NaN.
      rewrite Forall_map. exact H.
    + rewrite !length_map. exact H0.
  - assert (E : compareVersions v1 v2 = 0%Z).
    { unfold compareVersions, parts.
      rewrite (pad_short (length (map Number (Js.split "." v2)))).
      - apply compareParts_all_NaN. rewrite Forall_map. exact H.
      - rewrite !length_map. exact H0. }
    unfold alreadyLatest. rewrite E. reflexivity.
Qed.

Lemma nan_component_is_skipped_witness :
  Forall (fun c => Number c = NaN) (Js.split "." "abc.def") /\
  (length (Js.split "." "9.9") <= length (Js.split "." "abc.def"))%nat /\
  compareVersions "abc.def" "9.9" = 0%Z /\ alreadyLatest "abc.def" "9.9" = true.
Proof.
  assert (H1 : Forall (fun c => Number c = NaN) (Js.split "." "abc.def")).
  { repeat constructor. }
  assert (H2 : (length (Js.split "." "9.9") <= length (Js.split "." "abc.def"))%nat).
  { vm_compute. lia. }
  split; [exact H1 | split; [exact H2 |]].
  exact (proj2 (proj2 (proj2 nan_component_is_skipped)) "abc.def" "9.9" H1 H2).
Defined.

End VersionFacts.

(** ** The plan: duplicates and the conflict check *)

Module PlanFacts.
Import Fs Pawkit.

Lemma array_from_set_spec (l : list string) :
  forall seen : gset string,
    NoDup (array_from_set seen l) /\
    (forall d, d ∈ array_from_set seen l <-> d ∈ l /\ d ∉ seen).
Proof.
  induction l as [| x l IH]; intros seen; cbn [array_from_set].
  - split; [constructor |]. intros d. rewrite elem_of_nil. tauto.
  - case_bool_decide as Hx.
    + destruct (IH seen) as [Hnd Hin]. split; [exact Hnd |].
      intros d. rewrite Hin, elem_of_cons. split; [tauto |].
      intros [[-> | Hd] Hs]; [contradiction | tauto].
    + destruct (IH ({[x]} ∪ seen)) as [Hnd Hin]. split.
      * constructor; [| exact Hnd]. rewrite Hin. set_solver.
      * intros d. rewrite !elem_of_cons, Hin.
        destruct (decide (d = x)) as [-> | Hne]; set_solver.
Qed.

Lemma uniqueInstallPaths_targets (l : list InstallPath) :
  forall seen : gset string,
    map target (uniqueInstallPaths_from seen l) = array_from_set seen (map target l).
Proof.
  induction l as [| file l IH]; intros seen; cbn; [reflexivity |].
  case_bool_decide; cbn; now rewrite IH.
Qed.

Lemma existingFiles_count (env : Env) (fs : FS) (l : list InstallPath) (d : string) :
  existsSync fs d = true ->
  Js.includes (Resolver.metadataDir (USER_HOME env)) d = false ->
  count_occ string_dec (existingFiles env fs l) d =
  count_occ string_dec (map target l) d.
Proof.
  intros Hex Hmd. unfold existingFiles.
  induction l as [| file l IH]; [reflexivity |].
  cbn [List.filter map count_occ].
  destruct (string_dec (target file) d) as [E | NE].
  - rewrite E, Hex, Hmd. cbn [andb negb map count_occ].
    rewrite E. destruct (string_dec d d) as [_ | N]; [| now elim N].
    f_equal. exact IH.
  - destruct (existsSync fs (target file) &&
              negb (Js.includes (Resolver.metadataDir (USER_HOME env)) (target file)));
      cbn [map count_occ]; [| exact IH].
    destruct (string_dec (target file) d) as [E' | _]; [now elim NE | exact IH].
Qed.

(** C4, amended: the list shown at the confirmation prompt and the list
    of files recorded in the manifest hold every destination once; the
    plan itself keeps every entry, and the conflict check tests, and
    reports, a conflicting destination once for each plan entry that
    resolves to it. *)
Theorem duplicates_collapse_in_display_and_manifest
    (env : Env) (fs : FS) (installPaths : list InstallPath) :
  NoDup (map target (uniqueInstallPaths installPaths))
  /\ (forall d, d ∈ map target (uniqueInstallPaths installPaths) <->
                d ∈ map target installPaths)
  /\ (forall resolved : list string,
         NoDup (array_from_set ∅ resolved) /\
         (forall d, d ∈ array_from_set ∅ resolved <-> d ∈ resolved))
  /\ (forall d,
         existsSync fs d = true ->
         Js.includes (Resolver.metadataDir (USER_HOME env)) d = false ->
         count_occ string_dec (existingFiles env fs installPaths) d =
         count_occ string_dec (map target installPaths) d).
Proof.
  unfold uniqueInstallPaths. rewrite uniqueInstallPaths_targets.
  destruct (array_from_set_spec (map target installPaths) ∅) as [Hnd Hin].
  split; [exact Hnd | split; [| split]].
  - intros d. rewrite Hin. set_solver.
  - intros resolved. destruct (array_from_set_spec resolved ∅) as [Hnd' Hin'].
    split; [exact Hnd' |]. intros d. rewrite Hin'. set_solver.
  - intros d. apply existingFiles_count.
Qed.

End PlanFacts.

Module PlanExamples.
Import Fs Pawkit Demo PlanFacts.

(** C4, as stated, fails on the archive [same_leaves]: the plan keeps
    both entries, the conflict check lists the one destination twice,
    and the error counts two files. *)
Lemma duplicate_destination_is_checked_twice :
  let env := env_with false true "" same_leaves in
  let planned :=
    bind (setupScratch env "/dl/pkg.paw") (fun scratch => planInstall env scratch.2)
         same_disk in
  (exists filesToInstall, planned.1 = Ok (filesToInstall, same_plan))
  /\ map target same_plan =
       ["/Users/u/Documents/same.txt"; "/Users/u/Documents/same.txt"]
  /\ existingFiles env planned.2 same_plan =
       ["/Users/u/Documents/same.txt"; "/Users/u/Documents/same.txt"]
  /\ (installFromFile env "/dl/pkg.paw" same_disk).1 = Throw (FilesExist 2).
Proof.
  cbn zeta. split; [| split; [| split]].
  - eexists. vm_compute. reflexivity.
  - reflexivity.
  - vm_compute. reflexivity.
  - vm_compute. reflexivity.
Qed.

Lemma duplicates_collapse_in_display_and_manifest_witness :
  existsSync same_disk "/Users/u/Documents/same.txt" = true /\
  count_occ string_dec
    (existingFiles (env_with false true "" same_leaves) same_disk same_plan)
    "/Users/u/Documents/same.txt" = 2%nat /\
  map target (uniqueInstallPaths same_plan) = ["/Users/u/Documents/same.txt"].
Proof.
  assert (H1 : existsSync same_disk "/Users/u/Documents/same.txt" = true)
    by (vm_compute; reflexivity).
  assert (H2 : Js.includes (Resolver.metadataDir
                              (USER_HOME (env_with false true "" same_leaves)))
                           "/Users/u/Documents/same.txt" = false)
    by (vm_compute; reflexivity).
  split; [exact H1 | split; [| vm_compute; reflexivity]].
  rewrite (proj2 (proj2 (proj2 (duplicates_collapse_in_display_and_manifest
             (env_with false true "" same_leaves) same_disk same_plan)))
             "/Users/u/Documents/same.txt" H1 H2).
  vm_compute. reflexivity.
Defined.

End PlanExamples.

(** ** Strings *)

Module JsFacts.
Import Js.

Lemma app_cons (a : ascii) (p s : string) : String a p +:+ s = String a (p +:+ s).
Proof. reflexivity. Qed.

Lemma app_nil (s : string) : "" +:+ s = s.
Proof. reflexivity. Qed.

Lemma prefix_nil (s : string) : String.prefix "" s = true.
Proof. now destruct s. Qed.

Lemma prefix_refl_app (p s : string) : String.prefix p (p +:+ s) = true.
Proof.
  induction p as [| a p IH]; [apply prefix_nil |].
  rewrite app_cons. cbn.
  destruct (ascii_dec a a) as [_ | N]; [exact IH | now elim N].
Qed.

Lemma prefix_empty_r (p : string) : String.prefix p "" = true -> p = "".
Proof. destruct p; [reflexivity | discriminate]. Qed.

Lemma prefix_split (p s : string) :
  String.prefix p s = true -> exists r, s = p +:+ r.
Proof.
  revert s. induction p as [| a p IH]; intros s H; [now exists s |].
  destruct s as [| b s]; [discriminate |]. cbn in H.
  destruct (ascii_dec a b) as [-> | _]; [| discriminate].
  destruct (IH s H) as [r ->]. exists r. now rewrite app_cons.
Qed.

Lemma substring_from_app (w x : string) :
  substring_from (String.length w) (w +:+ x) = x.
Proof.
  induction w as [| a w IH]; [now destruct x |].
  rewrite app_cons. exact IH.
Qed.

Lemma substring_from_add (n m : nat) (s : string) :
  substring_from m (substring_from n s) = substring_from (n + m) s.
Proof.
  revert s. induction n as [| n IH]; intros s; [reflexivity |].
  destruct s as [| a s]; cbn; [now destruct m | apply IH].
Qed.

(** What [indexOf] finds is an occurrence. *)
Lemma indexOf_prefix (k s : string) (i : nat) :
  indexOf k s = Some i -> String.prefix k (substring_from i s) = true.
Proof.
  revert i. induction s as [| a s IH]; intros i; cbn [indexOf].
  - destruct (String.prefix k "") eqn:E; [| discriminate].
    intros [= <-]. exact E.
  - destruct (String.prefix k (String a s)) eqn:E.
    + intros [= <-]. exact E.
    + destruct (indexOf k s) as [j |]; [| discriminate].
      intros [= <-]. cbn. now apply IH.
Qed.

(** An occurrence anywhere makes [includes] true. *)
Lemma includes_at (k s : string) (n : nat) :
  startsWith (substring_from n s) k = true -> includes k s = true.
Proof.
  unfold startsWith, includes. revert s.
  induction n as [| n IH]; intros s H.
  - change (substring_from 0 s) with s in H.
    destruct s; cbn [indexOf]; now rewrite H.
  - destruct s as [| a s].
    + change (substring_from (S n) "") with "" in H.
      cbn [indexOf]. now rewrite H.
    + change (substring_from (S n) (String a s)) with (substring_from n s) in H.
      cbn [indexOf]. destruct (String.prefix k (String a s)); [reflexivity |].
      specialize (IH s H). destruct (indexOf k s); [reflexivity | discriminate].
Qed.

Lemma includes_app (k w r : string) : includes k (w +:+ k +:+ r) = true.
Proof.
  apply (includes_at k _ (String.length w)).
  rewrite substring_from_app. apply prefix_refl_app.
Qed.

(** Words without the character [@]. *)
Lemma includes_at_sign_cons (c : ascii) (w : string) :
  includes "@" (String c w) = false -> c <> "@"%char /\ includes "@" w = false.
Proof.
  unfold includes. cbn [indexOf String.prefix].
  destruct (ascii_dec "@" c) as [E | N].
  - rewrite prefix_nil. discriminate.
  - intros H. split; [congruence |].
    destruct (indexOf "@" w); [discriminate | reflexivity].
Qed.

Lemma at_token_here_other (c : ascii) (s : string) :
  c <> "@"%char -> at_token_here (String c s) = None.
Proof.
  intros N. destruct c as [[] [] [] [] [] [] [] []]; try reflexivity.
  now elim N.
Qed.

Lemma match_at_token_skip (w x : string) :
  includes "@" w = false -> match_at_token (w +:+ x) = match_at_token x.
Proof.
  induction w as [| c w IH]; intros H; [reflexivity |].
  apply includes_at_sign_cons in H as [N H].
  rewrite app_cons. cbn [match_at_token]. rewrite (at_token_here_other c _ N).
  now apply IH.
Qed.

Lemma indexOf_skip (w t r : string) :
  includes "@" w = false ->
  indexOf (String "@" t) (w +:+ String "@" t +:+ r) = Some (String.length w).
Proof.
  induction w as [| c w IH]; intros H.
  - rewrite app_nil. cbn [String.length].
    pose proof (prefix_refl_app (String "@" t) r) as P.
    rewrite app_cons in *. cbn [indexOf]. now rewrite P.
  - apply includes_at_sign_cons in H as [N H].
    rewrite app_cons. cbn [indexOf String.prefix String.length].
    destruct (ascii_dec "@" c) as [E | _]; [now elim N |].
    now rewrite (IH H).
Qed.

End JsFacts.

(** ** Paths *)

Module PathFacts.
Import Js Path JsFacts.

Lemma app_assoc (a b c : string) : (a +:+ b) +:+ c = a +:+ b +:+ c.
Proof. induction a as [| x a IH]; [reflexivity |]. rewrite !app_cons. now f_equal. Qed.

Lemma app_nil_r (a : string) : a +:+ "" = a.
Proof. induction a as [| x a IH]; [reflexivity |]. rewrite app_cons. now f_equal. Qed.

Lemma length_app (a b : string) :
  String.length (a +:+ b) = String.length a + String.length b.
Proof. induction a as [| x a IH]; [reflexivity |]. rewrite app_cons. cbn. now f_equal. Qed.

Lemma split_aux_app (a b cur : string) :
  split_aux "/" cur (a +:+ String "/" b) = split_aux "/" cur a ++ split_aux "/" "" b.
Proof.
  revert cur. induction a as [| c a IH]; intros cur.
  - rewrite app_nil. reflexivity.
  - rewrite app_cons. cbn [split_aux]. destruct (Ascii.eqb c "/").
    + cbn [app]. f_equal. apply IH.
    + apply IH.
Qed.

Lemma split_app (a b : string) :
  split "/" (a +:+ "/" +:+ b) = split "/" a ++ split "/" b.
Proof. apply split_aux_app. Qed.

Lemma includes_slash_cons (c : ascii) (x : string) :
  includes "/" (String c x) = false -> Ascii.eqb c "/" = false /\ includes "/" x = false.
Proof.
  unfold includes. cbn [indexOf String.prefix].
  destruct (ascii_dec "/" c) as [E | N].
  - rewrite prefix_nil. discriminate.
  - intros H. split.
    + apply Ascii.eqb_neq. congruence.
    + destruct (indexOf "/" x); [discriminate | reflexivity].
Qed.

Lemma split_aux_segment (x cur : string) :
  includes "/" x = false -> split_aux "/" cur x = [cur +:+ x].
Proof.
  revert cur. induction x as [| c x IH]; intros cur H.
  - now rewrite app_nil_r.
  - apply includes_slash_cons in H as [Hc Hx]. cbn [split_aux]. rewrite Hc.
    rewrite (IH _ Hx), app_assoc. reflexivity.
Qed.

Lemma plain_segment_spec (s : string) :
  plain_segment s = true ->
  s <> "" /\ s <> "." /\ s <> ".." /\ includes "/" s = false.
Proof.
  unfold plain_segment. rewrite !andb_true_iff, !negb_true_iff.
  intros [[[H1 H2] H3] H4]. rewrite !String.eqb_neq in *. auto.
Qed.

Lemma split_join (segs : list string) :
  segs <> [] -> forallb plain_segment segs = true ->
  split "/" (Js.join "/" segs) = segs.
Proof.
  induction segs as [| x [| y rest] IH]; intros Hne Hall; [now elim Hne | |].
  - cbn in Hall. rewrite andb_true_r in Hall.
    apply plain_segment_spec in Hall as (_ & _ & _ & Hs).
    cbn [Js.join]. unfold split. now rewrite (split_aux_segment x "" Hs).
  - cbn [forallb] in Hall. apply andb_true_iff in Hall as [Hx Hrest].
    apply plain_segment_spec in Hx as (_ & _ & _ & Hs).
    change (Js.join "/" (x :: y :: rest)) with (x +:+ "/" +:+ Js.join "/" (y :: rest)).
    rewrite split_app, IH; [| discriminate | exact Hrest].
    unfold split. now rewrite (split_aux_segment x "" Hs).
Qed.

Lemma norm_step_plain (au : bool) (acc : list string) (s : string) :
  plain_segment s = true -> norm_step au acc s = s :: acc.
Proof.
  intros H. apply plain_segment_spec in H as (H1 & H2 & H3 & _).
  unfold norm_step. apply String.eqb_neq in H1, H2, H3. now rewrite H1, H2, H3.
Qed.

Lemma fold_norm_plain (au : bool) (segs acc : list string) :
  forallb plain_segment segs = true ->
  fold_left (norm_step au) segs acc = rev segs ++ acc.
Proof.
  revert acc. induction segs as [| s segs IH]; intros acc H; [reflexivity |].
  cbn [forallb] in H. apply andb_true_iff in H as [Hs Hrest].
  cbn [fold_left rev]. rewrite (norm_step_plain au acc s Hs), (IH _ Hrest).
  now rewrite <- List.app_assoc.
Qed.

Lemma fold_norm_no_dotdot (au : bool) (segs acc : list string) :
  forallb (fun s => negb (String.eqb s "..")) segs = true ->
  fold_left (norm_step au) segs acc =
    rev (List.filter (fun s => negb (String.eqb s "" || String.eqb s ".")) segs) ++ acc.
Proof.
  revert acc. induction segs as [| s segs IH]; intros acc H; [reflexivity |].
  cbn [forallb] in H. apply andb_true_iff in H as [Hs Hrest].
  apply negb_true_iff in Hs.
  cbn [fold_left List.filter]. unfold norm_step at 2.
  destruct (String.eqb s "" || String.eqb s "."); cbn [negb].
  - apply IH, Hrest.
  - rewrite Hs, (IH _ Hrest). cbn [rev]. now rewrite <- List.app_assoc.
Qed.

Lemma join_first_nonempty (x : string) (l : list string) :
  x <> "" -> Js.join "/" (x :: l) <> "".
Proof.
  intros Hx. destruct l; cbn [Js.join]; [exact Hx |].
  destruct x; [now elim Hx | discriminate].
Qed.

Lemma join_cons_glue (more : list string) :
  forall x, Js.join "/" (x :: more) = x +:+ glue more.
Proof.
  induction more as [| m more IH]; intros x.
  - cbn. now rewrite app_nil_r.
  - change (Js.join "/" (x :: m :: more)) with (x +:+ "/" +:+ Js.join "/" (m :: more)).
    rewrite IH. cbn [glue]. reflexivity.
Qed.

Lemma glue_app (l1 l2 : list string) : glue (l1 ++ l2) = glue l1 +:+ glue l2.
Proof.
  induction l1 as [| x l1 IH]; [reflexivity |].
  cbn [app glue]. now rewrite IH, !app_assoc.
Qed.

Lemma join_glue (segs more : list string) :
  segs <> [] -> Js.join "/" (segs ++ more) = Js.join "/" segs +:+ glue more.
Proof.
  destruct segs as [| x segs]; intros Hne; [now elim Hne |].
  change ((x :: segs) ++ more) with (x :: (segs ++ more)).
  now rewrite !join_cons_glue, glue_app, app_assoc.
Qed.

(** The segments of a plain path, and of a plain path with more text
    behind a slash. *)
Lemma normalize_segments_plain (p : string) (segs : list string) (rest : string) :
  plain_path p segs -> no_dotdot rest = true ->
  normalize_segments false (split "/" (p +:+ "/" +:+ rest)) = segs ++ kept_segments rest
  /\ normalize_segments false (split "/" p) = segs.
Proof.
  intros (Hne & Hall & ->) Hnd. unfold normalize_segments.
  assert (Hsplit : split "/" ("/" +:+ Js.join "/" segs) = "" :: segs).
  { change ("/" +:+ Js.join "/" segs) with ("" +:+ "/" +:+ Js.join "/" segs).
    rewrite split_app, (split_join segs Hne Hall). reflexivity. }
  split.
  - rewrite split_app, Hsplit. cbn [app fold_left].
    change (norm_step false [] "") with (@nil string).
    rewrite fold_left_app, (fold_norm_plain false segs [] Hall), List.app_nil_r.
    rewrite (fold_norm_no_dotdot false _ _ Hnd), rev_app_distr, !rev_involutive.
    reflexivity.
  - rewrite Hsplit. cbn [fold_left].
    change (norm_step false [] "") with (@nil string).
    rewrite (fold_norm_plain false segs [] Hall), List.app_nil_r.
    apply rev_involutive.
Qed.

Lemma isAbsolute_slash (s : string) : isAbsolute (String "/" s) = true.
Proof. unfold isAbsolute, startsWith. cbn. apply prefix_nil. Qed.

Lemma normalize_abs (s : string) :
  normalize (String "/" s) =
    match Js.join "/" (normalize_segments false (split "/" (String "/" s))) with
    | "" => "/"
    | String c b =>
        "/" +:+ (if endsWith (String "/" s) "/" then String c b +:+ "/" else String c b)
    end.
Proof.
  unfold normalize. rewrite isAbsolute_slash. cbn [negb].
  destruct (Js.join "/" _); reflexivity.
Qed.

(** [normalize] of a plain path with more text behind a slash: the
    plain path, the kept segments, and maybe a closing slash. *)
Lemma normalize_plain_app (p : string) (segs : list string) (rest : string) :
  plain_path p segs -> no_dotdot rest = true ->
  normalize (p +:+ "/" +:+ rest) =
    p +:+ glue (kept_segments rest) +:+
    (if endsWith (p +:+ "/" +:+ rest) "/" then "/" else "").
Proof.
  intros Hp Hnd.
  destruct (normalize_segments_plain p segs rest Hp Hnd) as [Hseg _].
  destruct Hp as (Hne & Hall & ->).
  change (("/" +:+ Js.join "/" segs) +:+ "/" +:+ rest)
    with (String "/" (Js.join "/" segs +:+ "/" +:+ rest)) in *.
  rewrite normalize_abs, Hseg, (join_glue segs _ Hne).
  destruct segs as [| s0 segs']; [now elim Hne |].
  cbn [forallb] in Hall. apply andb_true_iff in Hall as [Hs0 _].
  apply plain_segment_spec in Hs0 as (Hs0 & _).
  pose proof (join_first_nonempty s0 segs' Hs0) as Hj.
  destruct (Js.join "/" (s0 :: segs')) as [| c j] eqn:Ej; [now elim Hj |].
  rewrite app_cons.
  destruct (endsWith _ "/"); rewrite ?app_cons, ?app_nil, ?app_assoc, ?app_nil_r;
    reflexivity.
Qed.

Lemma normalize_plain (p : string) (segs : list string) :
  plain_path p segs ->
  normalize p = p +:+ (if endsWith p "/" then "/" else "").
Proof.
  intros Hp.
  destruct (normalize_segments_plain p segs "" Hp eq_refl) as [_ Hseg].
  destruct Hp as (Hne & Hall & ->).
  change ("/" +:+ Js.join "/" segs) with (String "/" (Js.join "/" segs)) in *.
  rewrite normalize_abs, Hseg.
  destruct segs as [| s0 segs']; [now elim Hne |].
  cbn [forallb] in Hall. apply andb_true_iff in Hall as [Hs0 _].
  apply plain_segment_spec in Hs0 as (Hs0 & _).
  pose proof (join_first_nonempty s0 segs' Hs0) as Hj.
  destruct (Js.join "/" (s0 :: segs')) as [| c j] eqn:Ej; [now elim Hj |].
  destruct (endsWith _ "/"); rewrite ?app_cons, ?app_nil, ?app_nil_r; reflexivity.
Qed.
Lemma substring_from_app_add (h c : string) (k : nat) :
  substring_from (String.length h + k) (h +:+ c) = substring_from k c.
Proof. now rewrite <- substring_from_add, substring_from_app. Qed.

Lemma endsWith_app (h c : string) :
  c <> "" -> endsWith (h +:+ c) "/" = endsWith c "/".
Proof.
  intros Hc. unfold endsWith. rewrite length_app.
  destruct c as [| x c]; [now elim Hc |].
  cbn [String.length].
  replace (String.length h + S (String.length c) - 1)%nat
    with (String.length h + String.length c)%nat by lia.
  replace (S (String.length c) - 1)%nat with (String.length c) by lia.
  rewrite substring_from_app_add.
  replace (1 <=? String.length h + S (String.length c))%nat with true
    by (symmetry; apply Nat.leb_le; lia).
  reflexivity.
Qed.

(** Joining more text to a plain path, when the text has no [..]
    segment and no closing slash, gives a plain path again. *)
Lemma plain_path_extend (b : string) (segs : list string) (rest : string) :
  plain_path b segs ->
  rest <> "" ->
  no_dotdot rest = true ->
  endsWith rest "/" = false ->
  forallb plain_segment (kept_segments rest) = true ->
  normalize (b +:+ "/" +:+ rest) = b +:+ glue (kept_segments rest) /\
  plain_path (b +:+ glue (kept_segments rest)) (segs ++ kept_segments rest).
Proof.
  intros Hp Hne Hnd Hend Hk. split.
  - rewrite (normalize_plain_app b segs rest Hp Hnd).
    rewrite <- (app_assoc b "/" rest), (endsWith_app (b +:+ "/") rest Hne), Hend.
    now rewrite app_nil_r.
  - destruct Hp as (Hs & Hall & ->). split; [| split].
    + destruct segs; [now elim Hs | discriminate].
    + now rewrite forallb_app, Hall, Hk.
    + now rewrite (join_glue segs _ Hs), app_assoc.
Qed.

Lemma under_self_or_below (b tail : string) :
  tail = "" \/ String.prefix "/" tail = true -> Fs.under b (b +:+ tail) = true.
Proof.
  unfold Fs.under. intros [-> | H].
  - rewrite app_nil_r, String.eqb_refl. reflexivity.
  - apply prefix_split in H as [r ->].
    rewrite <- app_assoc. unfold startsWith.
    now rewrite prefix_refl_app, orb_true_r.
Qed.

(** What [path.join] makes of a plain path and text without [..]
    segment stays at or below the plain path. *)
Lemma join_below (b : string) (segs : list string) (rest : string) :
  plain_path b segs -> no_dotdot rest = true ->
  Fs.under b (Path.join b rest) = true.
Proof.
  intros Hp Hnd. unfold Path.join, joinl.
  assert (Hb : String.eqb b "" = false).
  { destruct Hp as (_ & _ & ->). reflexivity. }
  cbn [List.filter]. rewrite Hb. cbn [negb].
  destruct (String.eqb rest "") eqn:Er; cbn [negb].
  - cbn [Js.join]. rewrite (normalize_plain b segs Hp).
    apply under_self_or_below. destruct (endsWith b "/"); [right | left]; reflexivity.
  - change (Js.join "/" [b; rest]) with (b +:+ "/" +:+ rest).
    rewrite (normalize_plain_app b segs rest Hp Hnd).
    apply under_self_or_below.
    destruct (kept_segments rest) as [| k ks]; cbn [glue].
    + rewrite app_nil. destruct (endsWith _ "/"); [right | left]; reflexivity.
    + right. rewrite !app_cons, app_nil. cbn. apply prefix_nil.
Qed.

Lemma join_plain (b : string) (segs : list string) (rest : string) :
  plain_path b segs ->
  rest <> "" ->
  no_dotdot rest = true ->
  endsWith rest "/" = false ->
  forallb plain_segment (kept_segments rest) = true ->
  plain_path (Path.join b rest) (segs ++ kept_segments rest).
Proof.
  intros Hp Hne Hnd Hend Hk.
  destruct (plain_path_extend b segs rest Hp Hne Hnd Hend Hk) as [Hn Hpl].
  unfold Path.join, joinl.
  assert (Hb : String.eqb b "" = false).
  { destruct Hp as (_ & _ & ->). reflexivity. }
  cbn [List.filter]. rewrite Hb. cbn [negb].
  apply String.eqb_neq in Hne. rewrite Hne. cbn [negb].
  change (Js.join "/" [b; rest]) with (b +:+ "/" +:+ rest).
  now rewrite Hn.
Qed.

End PathFacts.

(** ** The file system *)

Module FsFacts.
Import Fs.

Lemma existsb_false {A} (f : A -> bool) (l : list A) :
  existsb f l = false <-> (forall x, In x l -> f x = false).
Proof.
  induction l as [| a l IH]; cbn; [tauto |].
  rewrite orb_false_iff, IH. split.
  - intros [Ha Hl] x [<- | Hx]; auto.
  - intros H. split; [apply H; now left | intros x Hx; apply H; now right].
Qed.

Lemma fold_mkdir_missing (l : list string) :
  forall m : gmap string node,
    let m' := fold_left mkdir_missing l m in
    m ⊆ m' /\
    (forall q, In q l -> is_Some (m' !! q)) /\
    (forall q, m' !! q = m !! q \/
               (m !! q = None /\ m' !! q = Some NDir /\ In q l)).
Proof.
  induction l as [| x l IH]; intros m; cbn [fold_left].
  - split; [reflexivity | split; [intros q [] | intros q; now left]].
  - destruct (IH (mkdir_missing m x)) as (Hsub & Hin & Hch).
    assert (Hstep : m ⊆ mkdir_missing m x).
    { unfold mkdir_missing. destruct (m !! x) eqn:E; [reflexivity |].
      now apply insert_subseteq. }
    split; [etrans; eassumption | split].
    + intros q [<- | Hq]; [| now apply Hin].
      assert (is_Some (mkdir_missing m x !! x)) as [n Hn].
      { unfold mkdir_missing. destruct (m !! x) eqn:E; [rewrite E; eauto |].
        rewrite lookup_insert_eq. eauto. }
      exists n. eapply lookup_weaken; eassumption.
    + intros q. destruct (Hch q) as [Heq | (Hnone & Hdir & Hq)].
      * rewrite Heq. unfold mkdir_missing.
        destruct (m !! x) eqn:E; [now left |].
        destruct (decide (x = q)) as [-> | Hne].
        -- right. rewrite lookup_insert_eq. split; [exact E | split; [reflexivity | now left]].
        -- left. now rewrite lookup_insert_ne.
      * right. split; [| split; [exact Hdir | now right]].
        destruct (m !! q) eqn:E; [| reflexivity].
        eapply lookup_weaken in E; [| exact Hstep]. congruence.
Qed.

Lemma fold_mkdir_present (l : list string) (m : gmap string node) :
  (forall q, In q l -> is_Some (m !! q)) -> fold_left mkdir_missing l m = m.
Proof.
  induction l as [| x l IH]; intros H; cbn [fold_left]; [reflexivity |].
  assert (E : mkdir_missing m x = m).
  { unfold mkdir_missing. destruct (H x (or_introl eq_refl)) as [n ->]. reflexivity. }
  rewrite E. apply IH. intros q Hq. apply H. now right.
Qed.

(** Following links gives the same end in a larger map, when the end
    is there. *)
Lemma realpath_fuel_mono (m m' : gmap string node) :
  m ⊆ m' ->
  forall fuel p q,
    realpath_fuel fuel m p = Some q -> is_Some (m !! q) ->
    realpath_fuel fuel m' p = Some q.
Proof.
  intros Hsub fuel. induction fuel as [| k IH]; intros p q H [n Hn]; cbn in *.
  - destruct (m !! p) as [[| | t] |] eqn:E; try discriminate.
    + injection H as <-. now rewrite (lookup_weaken _ _ _ _ E Hsub).
    + injection H as <-. now rewrite (lookup_weaken _ _ _ _ E Hsub).
    + injection H as <-. congruence.
  - destruct (m !! p) as [[| | t] |] eqn:E.
    + injection H as <-. now rewrite (lookup_weaken _ _ _ _ E Hsub).
    + injection H as <-. now rewrite (lookup_weaken _ _ _ _ E Hsub).
    + rewrite (lookup_weaken _ _ _ _ E Hsub). apply IH; eauto.
    + injection H as <-. congruence.
Qed.

Lemma statSync_mono (fs fs' : FS) (p : string) (n : node) :
  nodes fs ⊆ nodes fs' -> statSync fs p = Some n -> statSync fs' p = Some n.
Proof.
  intros Hsub. unfold statSync, realpath.
  destruct (realpath_fuel MAXSYMLINKS (nodes fs) p) as [q |] eqn:E; [| discriminate].
  intros Hn. rewrite (realpath_fuel_mono _ _ Hsub _ _ _ E); [| eauto].
  eapply lookup_weaken; eassumption.
Qed.


Lemma is_dir_mono (fs fs' : FS) (p : string) :
  nodes fs ⊆ nodes fs' -> is_dir fs p = true -> is_dir fs' p = true.
Proof.
  intros Hsub. unfold is_dir.
  destruct (statSync fs p) as [[| |] |] eqn:E; try discriminate.
  now rewrite (statSync_mono fs fs' p _ Hsub E).
Qed.

Lemma is_dir_here (fs : FS) (p : string) :
  nodes fs !! p = Some NDir -> is_dir fs p = true.
Proof.
  intros H. unfold is_dir, statSync, realpath, MAXSYMLINKS.
  cbn [realpath_fuel]. now rewrite H, H.
Qed.

(** [ensureDirSync] only adds directories, on the way to its argument. *)
Lemma ensureDirSync_effect (d : string) (fs fs' : FS) :
  ensureDirSync d fs = Some fs' ->
  locked fs' = locked fs /\
  nodes fs ⊆ nodes fs' /\
  (forall q, In q (chain d) -> is_dir fs' q = true) /\
  (forall q, nodes fs' !! q = nodes fs !! q \/
             (nodes fs !! q = None /\ nodes fs' !! q = Some NDir /\ In q (chain d))).
Proof.
  unfold ensureDirSync.
  destruct (existsb (blocks_mkdir fs) (chain d)) eqn:Hb; [discriminate |].
  intros [= <-]. cbn [locked nodes set_nodes].
  destruct (fold_mkdir_missing (chain d) (nodes fs)) as (Hsub & Hin & Hch).
  split; [reflexivity | split; [exact Hsub | split; [| exact Hch]]].
  intros q Hq. rewrite existsb_false in Hb. specialize (Hb q Hq).
  destruct (Hch q) as [Heq | (Hnone & Hdir & _)].
  - unfold blocks_mkdir in Hb. destruct (Hin q Hq) as [n Hn].
    rewrite Heq in Hn. rewrite Hn in Hb. apply negb_false_iff in Hb.
    eapply is_dir_mono; [| exact Hb]. exact Hsub.
  - now apply is_dir_here.
Qed.

(** A second [ensureDirSync] of the same directory changes nothing. *)
Lemma ensureDirSync_twice (d : string) (fs fs' : FS) :
  ensureDirSync d fs = Some fs' -> ensureDirSync d fs' = Some fs'.
Proof.
  intros H. destruct (ensureDirSync_effect d fs fs' H) as (_ & _ & Hdir & _).
  unfold ensureDirSync.
  assert (Hb : existsb (blocks_mkdir fs') (chain d) = false).
  { rewrite existsb_false. intros q Hq. unfold blocks_mkdir.
    rewrite (Hdir q Hq). now destruct (nodes fs' !! q). }
  rewrite Hb. f_equal. destruct fs' as [m lk]. unfold set_nodes. cbn [nodes locked].
  f_equal. apply fold_mkdir_present. intros q Hq.
  specialize (Hdir q Hq). unfold is_dir, statSync, realpath in Hdir.
  cbn [nodes] in Hdir.
  destruct (m !! q) eqn:E; [eauto |].
  unfold MAXSYMLINKS in Hdir. cbn [realpath_fuel] in Hdir.
  rewrite E in Hdir. rewrite E in Hdir. discriminate.
Qed.

(** *** What each call changes *)



Lemma realpath_here (fs : FS) (p : string) :
  (forall t, nodes fs !! p <> Some (NLink t)) -> realpath fs p = Some p.
Proof.
  intros H. unfold realpath, MAXSYMLINKS. cbn [realpath_fuel].
  destruct (nodes fs !! p) as [[| | t] |] eqn:E; try reflexivity.
  now elim (H t).
Qed.

(** Putting a file or a directory where following links ends does not
    change where it ends. *)
Lemma realpath_fuel_insert (m : gmap string node) (d : string) (n : node) :
  (forall t, n <> NLink t) ->
  forall fuel p,
    realpath_fuel fuel m p = Some d ->
    realpath_fuel fuel (<[d := n]> m) p = Some d.
Proof.
  intros Hn. induction fuel as [| k IH]; intros p; cbn [realpath_fuel].
  - destruct (decide (p = d)) as [-> | Hne].
    + rewrite lookup_insert_eq. intros _. destruct n as [data mode | | t]; try reflexivity.
      now elim (Hn t).
    + rewrite lookup_insert_ne by congruence. auto.
  - destruct (decide (p = d)) as [-> | Hne].
    + rewrite lookup_insert_eq. intros _. destruct n as [data mode | | t]; try reflexivity.
      now elim (Hn t).
    + rewrite lookup_insert_ne by congruence.
      destruct (m !! p) as [[| | t] |]; auto.
Qed.





(** What a write of a file leaves, and what is read back. *)
Lemma writeFileSync_effect (p data : string) (fs fs' : FS) :
  writeFileSync p data fs = Some fs' ->
  locked fs' = locked fs /\
  exists d mode,
    realpath fs p = Some d /\ nodes fs' = <[d := NFile data mode]> (nodes fs).
Proof.
  unfold writeFileSync.
  destruct (realpath fs p) as [d |]; [| intros X; discriminate X].
  case_bool_decide; [intros X; discriminate X |].
  destruct (negb (is_dir fs (Path.dirname d))); [intros X; discriminate X |].
  destruct (nodes fs !! d) as [[data' mode' | |] |];
    try (intros X; discriminate X);
    intros [= <-]; (split; [reflexivity |]); eauto.
Qed.

Lemma writeFileSync_read (p data : string) (fs fs' : FS) :
  writeFileSync p data fs = Some fs' ->
  exists mode, statSync fs' p = Some (NFile data mode).
Proof.
  intros H. destruct (writeFileSync_effect _ _ _ _ H) as (_ & d & mode & Hd & Hn).
  exists mode. unfold statSync, realpath. rewrite Hn.
  rewrite (realpath_fuel_insert _ d (NFile data mode)); [| discriminate | exact Hd].
  apply lookup_insert_eq.
Qed.

Lemma removeSync_effect (p : string) (fs fs' : FS) :
  removeSync p fs = Some fs' ->
  locked fs' = locked fs /\
  (forall q, under p q = false -> nodes fs' !! q = nodes fs !! q) /\
  (forall q, under p q = true -> nodes fs' !! q = None).
Proof.
  unfold removeSync. case_bool_decide; [discriminate |]. intros [= <-].
  cbn [locked nodes set_nodes]. split; [reflexivity | split].
  - intros q Hq. destruct (nodes fs !! q) as [n |] eqn:E.
    + apply map_lookup_filter_Some. auto.
    + apply map_lookup_filter_None. auto.
  - intros q Hq. apply map_lookup_filter_None. right.
    intros n _. cbn. congruence.
Qed.

(** *** Relations between file systems *)

Lemma kept_or_mkdir_trans (fs1 fs2 fs3 : FS) (q : string) :
  kept_or_mkdir fs1 fs2 q -> kept_or_mkdir fs2 fs3 q -> kept_or_mkdir fs1 fs3 q.
Proof.
  unfold kept_or_mkdir. intros [E1 | [N1 D1]] [E2 | [N2 D2]].
  - left. congruence.
  - right. split; congruence.
  - right. split; congruence.
  - congruence.
Qed.

#[export] Instance grows_preorder : PreOrder grows.
Proof.
  split.
  - intros fs q. now left.
  - intros fs1 fs2 fs3 H1 H2 q. eapply kept_or_mkdir_trans; eauto.
Qed.

#[export] Instance outside_preorder (root : string) : PreOrder (outside root).
Proof.
  split.
  - intros fs q _. now left.
  - intros fs1 fs2 fs3 H1 H2 q Hq. eapply kept_or_mkdir_trans; eauto.
Qed.

Lemma grows_outside (root : string) (fs fs' : FS) : grows fs fs' -> outside root fs fs'.
Proof. intros H q _. apply H. Qed.

Lemma ensureDirSync_grows (d : string) (fs fs' : FS) :
  ensureDirSync d fs = Some fs' -> grows fs fs'.
Proof.
  intros H q. destruct (ensureDirSync_effect d fs fs' H) as (_ & _ & _ & Hch).
  destruct (Hch q) as [E | (N & D & _)]; [now left | now right].
Qed.

End FsFacts.

(** ** Path resolution *)

Module ResolverFacts.
Import Js Path Fs Resolver JsFacts FsFacts PathFacts.

#[local] Arguments String.append : simpl nomatch.

Lemma word_run_stop (t r : string) :
  forallb is_word (list_ascii_of_string t) = true ->
  word_run (t +:+ String "/" r) = (t, String "/" r).
Proof.
  induction t as [| c t IH]; intros H; [reflexivity |].
  cbn in H. apply andb_prop in H as [Hc Ht].
  rewrite app_cons. cbn [word_run]. rewrite Hc, (IH Ht). reflexivity.
Qed.

(** [/(@\w+)\//] matches at a word that a slash follows. *)
Lemma at_token_here_word (t r : string) :
  t <> "" ->
  forallb is_word (list_ascii_of_string t) = true ->
  at_token_here (String "@" t +:+ String "/" r) = Some (String "@" t).
Proof.
  intros Hne Hw. rewrite app_cons. cbn [at_token_here].
  rewrite (word_run_stop t r Hw).
  destruct t; [now elim Hne |].
  unfold startsWith. cbn. now rewrite prefix_nil.
Qed.

Lemma match_at_token_word (t r : string) :
  t <> "" ->
  forallb is_word (list_ascii_of_string t) = true ->
  match_at_token (String "@" t +:+ String "/" r) = Some (String "@" t).
Proof.
  intros Hne Hw. pose proof (at_token_here_word t r Hne Hw) as H.
  rewrite app_cons in *. cbn [match_at_token]. now rewrite H.
Qed.

(** The table on a path that starts with one of its markers. *)
Lemma apply_special_at (home marker base rest : string) :
  In (marker, base) (specialPaths home) ->
  apply_special (specialPaths home) (marker +:+ "/" +:+ rest) =
    Some (Path.join base rest)
  /\ startsWith (marker +:+ "/" +:+ rest) "@all/" = false
  /\ exists t, marker = String "@" t /\ t <> "" /\
               forallb is_word (list_ascii_of_string t) = true.
Proof.
  intros Hin. unfold specialPaths in Hin. cbn [In] in Hin.
  repeat (destruct Hin as [Hin | Hin];
          [ injection Hin as <- <-;
            split; [| split; [reflexivity | eexists; split; [reflexivity | split; [discriminate | reflexivity]]]]
          | ]); [.. | contradiction].
  all: unfold specialPaths, startsWith; cbn -[Path.join Path.joinl];
       rewrite prefix_nil; reflexivity.
Qed.

(** The marker block on a path whose first [@] starts a marker of the
    table. *)
Lemma map_marker_at (home w marker base rest : string) :
  In (marker, base) (specialPaths home) ->
  includes "@" w = false ->
  map_marker home (w +:+ marker +:+ "/" +:+ rest) = Some (Path.join base rest).
Proof.
  intros Hin Hw.
  destruct (apply_special_at home marker base rest Hin) as (Happ & Hall & t & -> & Hne & Hword).
  unfold map_marker.
  rewrite (match_at_token_skip w _ Hw).
  change ("/" +:+ rest) with (String "/" rest) in *.
  rewrite (match_at_token_word t rest Hne Hword).
  rewrite (indexOf_skip w t _ Hw). cbn [from_option id].
  rewrite substring_from_app, Hall. exact Happ.
Qed.

(** The same behind an [@all/] segment. *)
Lemma map_marker_at_all (home w marker base rest : string) :
  In (marker, base) (specialPaths home) ->
  includes "@" w = false ->
  map_marker home (w +:+ "@all/" +:+ marker +:+ "/" +:+ rest) =
    Some (Path.join base rest).
Proof.
  intros Hin Hw.
  destruct (apply_special_at home marker base rest Hin) as (Happ & _).
  unfold map_marker.
  rewrite (match_at_token_skip w _ Hw).
  change ("@all/" +:+ marker +:+ "/" +:+ rest)
    with (String "@" "all" +:+ String "/" (marker +:+ "/" +:+ rest)).
  rewrite (match_at_token_word "all" _ ltac:(discriminate) eq_refl).
  rewrite (indexOf_skip w "all" _ Hw). cbn [from_option id].
  rewrite substring_from_app.
  change (String "@" "all" +:+ String "/" (marker +:+ "/" +:+ rest))
    with ("@all/" +:+ marker +:+ "/" +:+ rest).
  unfold startsWith at 1. rewrite (prefix_refl_app "@all/").
  change (String.length "@all/") with (String.length "@all/").
  rewrite (substring_from_app "@all/"). exact Happ.
Qed.

Lemma apply_special_Some (table : list (string * string)) (m d : string) :
  apply_special table m = Some d ->
  exists key base, In (key, base) table /\ startsWith m (key +:+ "/") = true.
Proof.
  induction table as [| [k b] table IH]; cbn [apply_special]; [discriminate |].
  destruct (startsWith m (k +:+ "/")) eqn:E.
  - intros _. exists k, b. split; [now left | exact E].
  - intros H. destruct (IH H) as (key & base & Hin & Hs).
    exists key, base. split; [now right | exact Hs].
Qed.

(** When the marker block returns, a marker of the table, followed by
    a slash, occurs in the path. *)
Lemma map_marker_Some_includes (home c d : string) :
  map_marker home c = Some d ->
  exists key base,
    In (key, base) (specialPaths home) /\ includes (key +:+ "/") c = true.
Proof.
  unfold map_marker. destruct (match_at_token c) as [atPrefix |]; [| discriminate].
  set (i := default 0 (indexOf atPrefix c)).
  destruct (startsWith (substring_from i c) "@all/"); intros H;
    apply apply_special_Some in H as (key & base & Hin & Hs);
    exists key, base; (split; [exact Hin |]).
  - rewrite substring_from_add in Hs. eapply includes_at. exact Hs.
  - eapply includes_at. exact Hs.
Qed.

Lemma map_marker_None (home c : string) :
  (forall marker base,
      In (marker, base) (specialPaths home) -> includes (marker +:+ "/") c = false) ->
  map_marker home c = None.
Proof.
  intros H. destruct (map_marker home c) as [d |] eqn:E; [| reflexivity].
  apply map_marker_Some_includes in E as (key & base & Hin & Hinc).
  rewrite (H key base Hin) in Hinc. discriminate.
Qed.

(** The text that the metadata block appends to the directory. *)
Lemma map_metadata_at (home c : string) (i : nat) :
  indexOf "metadata/" c = Some i ->
  map_metadata home c =
    Path.join (metadataDir home) (substring_from (i + 9) c).
Proof.
  intros H. unfold map_metadata. rewrite H. cbn [from_option id].
  f_equal. unfold replace_first.
  pose proof (indexOf_prefix _ _ _ H) as P.
  assert (E : indexOf "metadata/" (substring_from i c) = Some O).
  { destruct (substring_from i c); cbn [indexOf]; now rewrite P. }
  rewrite E. cbn [substring_to]. rewrite !app_nil.
  apply substring_from_add.
Qed.

(** For a plain home directory, the base directories of the table
    and the [pluginmetadata] directory are plain paths. *)
Lemma joinl3_as_join (home a b : string) :
  String.eqb home "" = false -> String.eqb a "" = false -> String.eqb b "" = false ->
  Path.joinl [home; a; b] = Path.join home (a +:+ "/" +:+ b).
Proof.
  intros Hh Ha Hb. unfold Path.join, Path.joinl. cbn [List.filter].
  rewrite Hh, Ha, Hb. cbn [negb].
  destruct (String.eqb (a +:+ "/" +:+ b) "") eqn:E.
  - apply String.eqb_eq in E. destruct a; discriminate.
  - reflexivity.
Qed.

Lemma specialPaths_plain (home : string) (hs : list string) :
  plain_path home hs ->
  forall marker base,
    In (marker, base) (specialPaths home) -> exists segs, plain_path base segs.
Proof.
  intros Hp marker base Hin.
  assert (Hh : String.eqb home "" = false).
  { destruct Hp as (_ & _ & ->). reflexivity. }
  assert (J : forall rest,
             rest <> "" -> no_dotdot rest = true -> endsWith rest "/" = false ->
             forallb plain_segment (kept_segments rest) = true ->
             exists segs, plain_path (Path.join home rest) segs).
  { intros rest H1 H2 H3 H4. eexists. eapply join_plain; eassumption. }
  unfold specialPaths in Hin. cbn [In] in Hin.
  repeat (destruct Hin as [Hin | Hin]; [injection Hin as <- <- |]);
    try contradiction.
  all: first
    [ now exists hs
    | exists ["Applications"]; split; [discriminate | split; reflexivity]
    | apply J; [discriminate | reflexivity | reflexivity | reflexivity]
    | rewrite (joinl3_as_join home "Library" "Application Support" Hh eq_refl eq_refl);
      apply J; [discriminate | reflexivity | reflexivity | reflexivity]
    | rewrite (joinl3_as_join home "Library" "Preferences" Hh eq_refl eq_refl);
      apply J; [discriminate | reflexivity | reflexivity | reflexivity] ].
Qed.

Lemma metadataDir_plain (home : string) (hs : list string) :
  plain_path home hs -> exists segs, plain_path (metadataDir home) segs.
Proof.
  intros Hp. unfold metadataDir, CONFIG_DIR. eexists.
  eapply join_plain; [eapply join_plain; [exact Hp | ..] | ..];
    first [discriminate | reflexivity].
Qed.

(** Resolution adds directories, and nothing else. *)
Lemma cleanAndMapPath_grows (home p : string) (fs fs' : FS) (r : option string) :
  cleanAndMapPath home p fs = (r, fs') -> grows fs fs'.
Proof.
  unfold cleanAndMapPath.
  destruct (map_marker home (clean p)); [intros [= _ <-]; reflexivity |].
  destruct (includes "metadata/" (clean p)); [| intros [= _ <-]; reflexivity].
  destruct (ensureDirSync (metadataDir home) fs) as [fs1 |] eqn:He;
    intros [= _ <-]; [| reflexivity].
  eapply FsFacts.ensureDirSync_grows. exact He.
Qed.

(** C1, amended: when the first [@] of the cleaned path starts a marker
    of the table, directly or behind [@all/], the result is
    [path.join] of the marker's base directory and what follows the
    marker, and the file system is left as it was; that result lies at
    or below the base directory when the home directory is a plain
    absolute path and what follows the marker has no [..] segment.
    When the cleaned path holds no marker of the table followed by a
    slash and no [metadata/], the result is [null]. *)
Theorem resolve_by_marker_or_reject (home p : string) (fs : FS) :
  (forall w marker base rest : string,
      In (marker, base) (specialPaths home) ->
      includes "@" w = false ->
      clean p = w +:+ marker +:+ "/" +:+ rest \/
      clean p = w +:+ "@all/" +:+ marker +:+ "/" +:+ rest ->
      cleanAndMapPath home p fs = (Some (Path.join base rest), fs) /\
      (forall hs, plain_path home hs -> no_dotdot rest = true ->
                  under base (Path.join base rest) = true))
  /\ ((forall marker base : string,
          In (marker, base) (specialPaths home) ->
          includes (marker +:+ "/") (clean p) = false) ->
      includes "metadata/" (clean p) = false ->
      cleanAndMapPath home p fs = (None, fs)).
Proof.
  split.
  - intros w marker base rest Hin Hw HE. split.
    + destruct HE as [E | E]; unfold cleanAndMapPath; rewrite E.
      * now rewrite (map_marker_at home w marker base rest Hin Hw).
      * now rewrite (map_marker_at_all home w marker base rest Hin Hw).
    + intros hs Hp Hnd.
      destruct (specialPaths_plain home hs Hp marker base Hin) as [segs Hb].
      eapply join_below; eassumption.
  - intros Hno Hmd. unfold cleanAndMapPath.
    now rewrite (map_marker_None home (clean p) Hno), Hmd.
Qed.

(** C5, amended: a cleaned path with [metadata/] in it that the marker
    block does not resolve goes to the [pluginmetadata] directory,
    which is created on the way: the result is [path.join] of that
    directory and what follows the first [metadata/]; it lies at or
    below that directory when the home directory is a plain absolute
    path and what follows has no [..] segment. *)
Theorem metadata_path_when_no_marker_resolves
    (home p : string) (fs fs' : FS) (i : nat) :
  map_marker home (clean p) = None ->
  indexOf "metadata/" (clean p) = Some i ->
  ensureDirSync (metadataDir home) fs = Some fs' ->
  cleanAndMapPath home p fs =
    (Some (Path.join (metadataDir home) (substring_from (i + 9) (clean p))), fs')
  /\ (forall hs, plain_path home hs ->
                 no_dotdot (substring_from (i + 9) (clean p)) = true ->
                 under (metadataDir home)
                       (Path.join (metadataDir home)
                                  (substring_from (i + 9) (clean p))) = true).
Proof.
  intros Hm Hi He. split.
  - unfold cleanAndMapPath, includes.
    rewrite Hm, Hi, He. now rewrite (map_metadata_at home (clean p) i Hi).
  - intros hs Hp Hnd. destruct (metadataDir_plain home hs Hp) as [segs Hb].
    eapply join_below; eassumption.
Qed.

(** C6, amended: path resolution leaves every existing node as it is
    and adds nothing but directories on the way to [pluginmetadata];
    it adds none when the marker block resolves the path or the path
    has no [metadata/]; and resolving the same path again gives the
    same result and changes nothing more. *)
Theorem resolution_only_ensures_metadata_dir (home p : string) (fs : FS) :
  let r := (cleanAndMapPath home p fs).1 in
  let fs1 := (cleanAndMapPath home p fs).2 in
  locked fs1 = locked fs
  /\ (forall q, nodes fs1 !! q = nodes fs !! q \/
                (nodes fs !! q = None /\ nodes fs1 !! q = Some NDir /\
                 In q (chain (metadataDir home))))
  /\ (map_marker home (clean p) <> None \/ includes "metadata/" (clean p) = false ->
      fs1 = fs)
  /\ cleanAndMapPath home p fs1 = (r, fs1).
Proof.
  cbn zeta. unfold cleanAndMapPath.
  destruct (map_marker home (clean p)) as [d |] eqn:Hm.
  { cbn [fst snd]. repeat split; auto. }
  destruct (includes "metadata/" (clean p)) eqn:Hi.
  2: { cbn [fst snd]. repeat split; auto. }
  destruct (ensureDirSync (metadataDir home) fs) as [fs' |] eqn:He.
  2: { cbn [fst snd]. rewrite He. repeat split; auto. }
  cbn [fst snd].
  destruct (FsFacts.ensureDirSync_effect _ _ _ He) as (Hl & _ & _ & Hch).
  rewrite (FsFacts.ensureDirSync_twice _ _ _ He).
  repeat split; auto. intros [H | H]; congruence.
Qed.

End ResolverFacts.

Module ResolverExamples.
Import Js Path Fs Resolver ResolverFacts.

(** C1, as stated, fails: [metadata/data.json] holds no marker and is
    resolved; [@foo/@documents/x.txt] holds the marker [@documents] and
    is rejected; and [@documents/../../etc/x] is resolved to a path
    that is not below the Documents directory. *)
Lemma marker_claim_fails :
  forallb (fun kv => negb (includes kv.1 "metadata/data.json"))
          (specialPaths "/Users/u") = true
  /\ (cleanAndMapPath "/Users/u" "metadata/data.json" (Demo.disk [])).1 =
       Some "/Users/u/.pawkit/pluginmetadata/data.json"
  /\ In ("@documents", "/Users/u/Documents") (specialPaths "/Users/u")
  /\ includes "@documents/" "@foo/@documents/x.txt" = true
  /\ (cleanAndMapPath "/Users/u" "@foo/@documents/x.txt" (Demo.disk [])).1 = None
  /\ (cleanAndMapPath "/Users/u" "@documents/../../etc/x" (Demo.disk [])).1 =
       Some "/Users/etc/x"
  /\ under "/Users/u/Documents" "/Users/etc/x" = false.
Proof.
  split; [vm_compute; reflexivity |].
  split; [vm_compute; reflexivity |].
  split; [right; left; vm_compute; reflexivity |].
  repeat split; vm_compute; reflexivity.
Qed.

Lemma resolve_by_marker_or_reject_witness :
  cleanAndMapPath "/Users/u" "./Pkg/@all/@docs/notes/a.txt" (Demo.disk []) =
    (Some "/Users/u/Documents/notes/a.txt", Demo.disk [])
  /\ under "/Users/u/Documents" "/Users/u/Documents/notes/a.txt" = true
  /\ cleanAndMapPath "/Users/u" "Pkg/readme.txt" (Demo.disk []) = (None, Demo.disk []).
Proof.
  assert (Hin : In ("@docs", "/Users/u/Documents") (specialPaths "/Users/u")).
  { do 3 right. left. vm_compute. reflexivity. }
  assert (Hw : includes "@" "Pkg/" = false) by (vm_compute; reflexivity).
  assert (Hc : clean "./Pkg/@all/@docs/notes/a.txt" =
               "Pkg/" +:+ "@docs" +:+ "/" +:+ "notes/a.txt" \/
               clean "./Pkg/@all/@docs/notes/a.txt" =
               "Pkg/" +:+ "@all/" +:+ "@docs" +:+ "/" +:+ "notes/a.txt").
  { right. vm_compute. reflexivity. }
  destruct (proj1 (resolve_by_marker_or_reject "/Users/u" "./Pkg/@all/@docs/notes/a.txt"
                     (Demo.disk []))
                  "Pkg/" "@docs" "/Users/u/Documents" "notes/a.txt" Hin Hw Hc)
    as [Hres Hunder].
  split; [exact Hres | split].
  - apply (Hunder ["Users"; "u"]); [| reflexivity].
    split; [discriminate | split; reflexivity].
  - refine (proj2 (resolve_by_marker_or_reject "/Users/u" "Pkg/readme.txt"
                     (Demo.disk [])) _ _).
    + intros marker base Hin'. unfold specialPaths in Hin'. cbn [In] in Hin'.
      repeat (destruct Hin' as [Hin' | Hin'];
              [injection Hin' as <- <-; vm_compute; reflexivity |]).
      contradiction.
    + vm_compute. reflexivity.
Defined.

(** C5, as stated, fails: behind a marker, [metadata/] goes where the
    marker says. *)
Lemma metadata_behind_marker_follows_marker :
  includes "metadata/" (clean "@documents/metadata/data.json") = true
  /\ (cleanAndMapPath "/Users/u" "@documents/metadata/data.json" (Demo.disk [])).1 =
       Some "/Users/u/Documents/metadata/data.json"
  /\ metadataDir "/Users/u" = "/Users/u/.pawkit/pluginmetadata".
Proof. repeat split; vm_compute; reflexivity. Qed.

Lemma metadata_path_when_no_marker_resolves_witness :
  cleanAndMapPath "/Users/u" "Pkg/metadata/data.json" (Demo.disk []) =
    (Some "/Users/u/.pawkit/pluginmetadata/data.json",
     set_nodes (Demo.disk [])
       (<["/Users/u/.pawkit/pluginmetadata" := NDir]> (nodes (Demo.disk []))))
  /\ under "/Users/u/.pawkit/pluginmetadata"
           "/Users/u/.pawkit/pluginmetadata/data.json" = true.
Proof.
  assert (Hm : map_marker "/Users/u" (clean "Pkg/metadata/data.json") = None)
    by (vm_compute; reflexivity).
  assert (Hi : indexOf "metadata/" (clean "Pkg/metadata/data.json") = Some 4)
    by (vm_compute; reflexivity).
  assert (He : ensureDirSync (metadataDir "/Users/u") (Demo.disk []) =
               Some (set_nodes (Demo.disk [])
                       (<["/Users/u/.pawkit/pluginmetadata" := NDir]>
                          (nodes (Demo.disk [])))))
    by (vm_compute; reflexivity).
  destruct (metadata_path_when_no_marker_resolves "/Users/u" "Pkg/metadata/data.json"
              (Demo.disk []) _ 4 Hm Hi He) as [Hres Hunder].
  split.
  - rewrite Hres. vm_compute. reflexivity.
  - apply (Hunder ["Users"; "u"]); [| vm_compute; reflexivity].
    split; [discriminate | split; reflexivity].
Defined.

(** C6, as stated, fails: resolving [metadata/data.json] creates the
    [pluginmetadata] directory. *)
Lemma resolution_creates_metadata_dir :
  nodes (Demo.disk []) !! "/Users/u/.pawkit/pluginmetadata" = None
  /\ nodes (cleanAndMapPath "/Users/u" "metadata/data.json" (Demo.disk [])).2
       !! "/Users/u/.pawkit/pluginmetadata" = Some NDir.
Proof. split; vm_compute; reflexivity. Qed.

Lemma resolution_only_ensures_metadata_dir_witness :
  (cleanAndMapPath "/Users/u" "@documents/a.txt" (Demo.disk [])).2 = Demo.disk []
  /\ (cleanAndMapPath "/Users/u" "Pkg/readme.txt" (Demo.disk [])).2 = Demo.disk [].
Proof.
  pose proof (resolution_only_ensures_metadata_dir "/Users/u" "@documents/a.txt"
                (Demo.disk [])) as H1.
  pose proof (resolution_only_ensures_metadata_dir "/Users/u" "Pkg/readme.txt"
                (Demo.disk [])) as H2.
  cbn zeta in H1, H2.
  destruct H1 as (_ & _ & H1 & _). destruct H2 as (_ & _ & H2 & _).
  split.
  - apply H1. left. vm_compute. intros E. discriminate E.
  - apply H2. right. vm_compute. reflexivity.
Defined.

End ResolverExamples.

(** ** Sequencing *)

Module MFacts.
Import Fs Pawkit.
Local Open Scope m_scope.

Lemma bind_Ok {A B} (m : M A) (k : A -> M B) (fs fs' : FS) (b : B) :
  bind m k fs = (Ok b, fs') ->
  exists a fs1, m fs = (Ok a, fs1) /\ k a fs1 = (Ok b, fs').
Proof.
  unfold bind. destruct (m fs) as [[a | e] fs1]; [eauto | discriminate].
Qed.

Lemma bind_cases {A B} (m : M A) (k : A -> M B) (fs fs' : FS) (r : result B) :
  bind m k fs = (r, fs') ->
  (exists e, r = Throw e /\ m fs = (Throw e, fs')) \/
  (exists a fs1, m fs = (Ok a, fs1) /\ k a fs1 = (r, fs')).
Proof.
  unfold bind. destruct (m fs) as [[a | e] fs1].
  - right. eauto.
  - intros [= <- <-]. left. eauto.
Qed.

Section Respects.
Context (R : FS -> FS -> Prop) `{!PreOrder R}.

Lemma respects_ret {A} (a : A) : respects R (ret a).
Proof. intros fs r fs' [= _ <-]. reflexivity. Qed.


Lemma respects_get {A} (f : FS -> A) : respects R (get f).
Proof. intros fs r fs' [= _ <-]. reflexivity. Qed.

Lemma respects_bind {A B} (m : M A) (k : A -> M B) :
  respects R m -> (forall a, respects R (k a)) -> respects R (bind m k).
Proof.
  intros Hm Hk fs r fs' H.
  apply bind_cases in H as [(e & _ & H) | (a & fs1 & H1 & H2)].
  - eapply Hm; eassumption.
  - etrans; [eapply Hm | eapply Hk]; eassumption.
Qed.


End Respects.

End MFacts.

(** ** Materialization: links and the scratch directory *)

Module MaterializeFacts.
Import Fs Pawkit.

(** The link branch of [installOne] on a destination that is taken by
    a link to nothing, or by a directory: the call throws. *)
Lemma installOne_symlink_over_dangling_or_directory
    (env : Env) (file : InstallPath) (fs : FS) (linkTarget : string) :
  ip_isSymlink file = true ->
  ip_linkTarget file = Some linkTarget ->
  linkTarget <> "" ->
  (exists old, nodes fs !! target file = Some (NLink old)) /\
    existsSync fs (target file) = false
  \/ nodes fs !! target file = Some NDir ->
  installOne env file fs = None.
Proof.
  intros Hs Ht Hne Hcase. unfold installOne. rewrite Hs, Ht.
  destruct (String.eqb linkTarget "") eqn:E.
  { apply String.eqb_eq in E. now elim Hne. }
  cbn [andb negb]. unfold replaceBySymlink.
  assert (Hsame : (if negb (Path.isAbsolute linkTarget) then linkTarget else linkTarget)
                  = linkTarget) by now destruct (negb (Path.isAbsolute linkTarget)).
  rewrite Hsame.
  destruct Hcase as [[[old Hold] Hex] | Hdir].
  - rewrite Hex. unfold symlinkSync. now rewrite Hold.
  - assert (Hex : existsSync fs (target file) = true).
    { unfold existsSync, statSync, realpath, MAXSYMLINKS. cbn [realpath_fuel].
      now rewrite Hdir, Hdir. }
    rewrite Hex. unfold unlinkSync. now rewrite Hdir.
Qed.

End MaterializeFacts.

Module MaterializeExamples.
Import Fs Pawkit Demo MaterializeFacts.

Lemma installOne_symlink_over_dangling_or_directory_witness :
  installOne (env_with true false "" one_link) link_entry dangling_disk = None
  /\ installOne (env_with true false "" one_link) link_entry directory_disk = None.
Proof.
  split.
  - apply (installOne_symlink_over_dangling_or_directory _ link_entry dangling_disk
             "hello.txt" eq_refl eq_refl).
    + discriminate.
    + left. split; [exists "gone"; reflexivity | vm_compute; reflexivity].
  - apply (installOne_symlink_over_dangling_or_directory _ link_entry directory_disk
             "hello.txt" eq_refl eq_refl).
    + discriminate.
    + right. reflexivity.
Defined.

(** C8 on an archive with one relative link: where the destination is
    a link to nothing, or a directory, the forced install throws and
    the old object stays. *)
Lemma symlink_install_fails_on_dangling_link :
  let env := env_with true false "" one_link in
  let run := installFromFile env "/dl/pkg.paw" dangling_disk in
  existsSync dangling_disk "/Users/u/Documents/l" = false
  /\ run.1 = Throw (InstallFailed "/Users/u/Documents/l")
  /\ nodes run.2 !! "/Users/u/Documents/l" = Some (NLink "gone")
  /\ (installFromFile env "/dl/pkg.paw" directory_disk).1 =
       Throw (InstallFailed "/Users/u/Documents/l").
Proof. cbn zeta. repeat split; vm_compute; reflexivity. Qed.

(** C9 on an archive with one file: the install succeeds and the
    scratch directory, with the copy of the archive and the extracted
    tree, is still there; after a failed install it is gone. *)
Lemma scratch_directory_survives_success :
  let env := env_with true false "" hello_leaves in
  let run := installFromFile env "/dl/pkg.paw" (disk []) in
  tempInstallDir env = "/tmp/pawkit-1-abc"
  /\ run.1 = Ok tt
  /\ nodes run.2 !! "/Users/u/Documents/hello.txt" = Some (NFile "hi" 420)
  /\ existsSync run.2 (tempInstallDir env) = true
  /\ nodes run.2 !! "/tmp/pawkit-1-abc/paw.paw" = Some (NFile PK 420)
  /\ nodes run.2 !! "/tmp/pawkit-1-abc/extracted/@documents/hello.txt" =
       Some (NFile "hi" 420)
  /\ existsSync
       (installFromFile (env_with true false "" one_link) "/dl/pkg.paw"
          dangling_disk).2
       (tempInstallDir env) = false.
Proof. cbn zeta. repeat split; vm_compute; reflexivity. Qed.



End MaterializeExamples.

(** ** The install run *)

Module InstallFacts.
Import Fs Pawkit FsFacts MFacts.
Local Open Scope m_scope.

Section WithEnv.
Variable env : Env.

(** The stages that change the file system through path resolution
    only: they take it along every preorder that resolution respects. *)
Section Resolving.
Context (R : FS -> FS -> Prop) `{!PreOrder R}.
Hypothesis resolvePath_respects : forall p, respects R (resolvePath env p).

Lemma filterValid_respects (entries : list Entry) : respects R (filterValid env entries).
Proof.
  induction entries as [| entry rest IH]; cbn [filterValid].
  - apply respects_ret; apply _.
  - destruct (isSystemFile (entryName entry)); [exact IH |].
    apply respects_bind; [apply _ | apply resolvePath_respects |]. intros cleanPath.
    apply respects_bind; [apply _ | exact IH |]. intros kept.
    apply respects_ret; apply _.
Qed.

Lemma mapInstallPaths_respects (l : list Entry) : respects R (mapInstallPaths env l).
Proof.
  induction l as [| entry rest IH]; cbn [mapInstallPaths].
  - apply respects_ret; apply _.
  - apply respects_bind; [apply _ | apply resolvePath_respects |]. intros mapped.
    apply respects_bind; [apply _ | |].
    { intros fs r fs'. destruct (lstatSync fs (fullPath entry));
        intros [= _ <-]; reflexivity. }
    intros stats. apply respects_bind; [apply _ | exact IH |]. intros more.
    apply respects_ret; apply _.
Qed.

Lemma resolveAll_respects (l : list Entry) : respects R (resolveAll env l).
Proof.
  induction l as [| entry rest IH]; cbn [resolveAll].
  - apply respects_ret; apply _.
  - apply respects_bind; [apply _ | apply resolvePath_respects |]. intros mapped.
    apply respects_bind; [apply _ | exact IH |]. intros more.
    apply respects_ret; apply _.
Qed.


End Resolving.

Lemma resolvePath_grows (p : string) : respects grows (resolvePath env p).
Proof.
  intros fs r fs'. unfold resolvePath.
  destruct (Resolver.cleanAndMapPath (USER_HOME env) p fs) as [o fs1] eqn:E.
  intros [= _ <-]. eapply ResolverFacts.cleanAndMapPath_grows. exact E.
Qed.

Lemma filterValid_grows (entries : list Entry) : respects grows (filterValid env entries).
Proof. apply filterValid_respects; [apply _ | exact resolvePath_grows]. Qed.

Lemma mapInstallPaths_grows (l : list Entry) : respects grows (mapInstallPaths env l).
Proof. apply mapInstallPaths_respects; [apply _ | exact resolvePath_grows]. Qed.

Lemma resolveAll_grows (l : list Entry) : respects grows (resolveAll env l).
Proof. apply resolveAll_respects; [apply _ | exact resolvePath_grows]. Qed.



(** *** The frame of the stages before the materialization

    Outside the scratch directory these stages leave every path as it
    was, or make a directory where nothing was, on the way to one of
    [ensuredDirs]. *)

Definition frame : FS -> FS -> Prop :=
  outside_to (tempInstallDir env) (ensuredDirs env).

#[export] Instance frame_preorder : PreOrder frame.
Proof.
  split.
  - intros fs q _. now left.
  - intros fs1 fs2 fs3 H1 H2 q Hq.
    destruct (H1 q Hq) as [E1 | (N1 & D1 & X1)], (H2 q Hq) as [E2 | (N2 & D2 & X2)].
    + left. congruence.
    + right. split; [congruence | split; [exact D2 | exact X2]].
    + right. split; [exact N1 | split; [congruence | exact X1]].
    + congruence.
Qed.





(** The clean-up touches nothing outside the scratch directory. *)
Lemma cleanup_unchanged (fs : FS) (q : string) :
  under (tempInstallDir env) q = false ->
  nodes (cleanup env fs) !! q = nodes fs !! q.
Proof.
  intros Hq. unfold cleanup.
  destruct (existsSync fs (tempInstallDir env)); [| reflexivity].
  destruct (removeSync (tempInstallDir env) fs) as [fs' |] eqn:E; [| reflexivity].
  destruct (removeSync_effect _ _ _ E) as (_ & Hout & _). now apply Hout.
Qed.

Lemma cleanup_outside (fs : FS) : outside (tempInstallDir env) fs (cleanup env fs).
Proof. intros q Hq. left. now apply cleanup_unchanged. Qed.






(** *** Links through the materialization *)

#[local] Instance keeps_link_preorder (d t : string) : PreOrder (keeps_link d t).
Proof.
  split.
  - intros fs H. exact H.
  - intros fs1 fs2 fs3 H1 H2 H. apply H2, H1, H.
Qed.









(** *** From the extracted tree to the plan *)


Lemma filterValid_subset (entries : list Entry) :
  forall fs fs' kept,
    filterValid env entries fs = (Ok kept, fs') ->
    forall e, In e kept -> In e entries.
Proof.
  induction entries as [| entry rest IH]; intros fs fs' kept H e He;
    cbn [filterValid] in H.
  - injection H as <- _. destruct He.
  - destruct (isSystemFile (entryName entry)).
    + right. eapply IH; eassumption.
    + apply bind_Ok in H as (cleanPath & fs1 & _ & H).
      apply bind_Ok in H as (kept' & fs2 & H2 & H).
      injection H as <- _.
      destruct cleanPath; [destruct He as [<- | He]; [now left |] |];
        right; eapply IH; eassumption.
Qed.




End WithEnv.


(** A run that returns normally ends with the file system of its
    [try] block: the clean-up of the [catch] has not run. *)
Lemma installFromFile_success (env : Env) (filePath : string) (fs fs' : FS) :
  installFromFile env filePath fs = (Ok tt, fs') ->
  existsSync fs filePath = true /\ isValidZipFile fs filePath = true /\
  installBody env filePath fs = (Ok tt, fs').
Proof.
  unfold installFromFile.
  destruct (existsSync fs filePath); [| intros H; discriminate H].
  destruct (isValidZipFile fs filePath); [| intros H; discriminate H].
  cbn [negb].
  destruct (installBody env filePath fs) as [[[] | e] fs1];
    [| intros H; discriminate H].
  intros [= <-]. auto.
Qed.

(** A run that throws from its [try] block ends with the clean-up. *)
Lemma installFromFile_failure (env : Env) (filePath : string) (fs fs' : FS)
    (e : error) :
  existsSync fs filePath = true ->
  isValidZipFile fs filePath = true ->
  installFromFile env filePath fs = (Throw e, fs') ->
  exists fs1, installBody env filePath fs = (Throw e, fs1) /\
              fs' = cleanup env fs1.
Proof.
  unfold installFromFile. intros -> ->. cbn [negb].
  destruct (installBody env filePath fs) as [[[] | e'] fs1];
    [intros H; discriminate H |].
  intros [= <- <-]. eauto.
Qed.


(** The stages of a successful [recordPaw]. *)
Lemma recordPaw_Ok (env : Env) (metadata : Metadata) (installedFiles : list string)
    (fs fs' : FS) :
  recordPaw env metadata installedFiles fs = (Ok tt, fs') ->
  exists installed,
    readPaws env fs = Some installed /\
    writePaws env
      (JsObject.set (name metadata)
         (mkPawInfo (md_version metadata) (now env) installedFiles metadata)
         installed) fs = Some fs'.
Proof.
  unfold recordPaw, readPaws.
  destruct (readJson env fs) as [[| installed] |]; try (intros H; discriminate H).
  destruct (writePaws env _ fs) as [fs1 |] eqn:E; [| intros H; discriminate H].
  intros [= <-]. eauto.
Qed.


End InstallFacts.

(** ** The manifest [paws.json] *)

Module ManifestFacts.
Import Fs Pawkit FsFacts.

(** What was written is read back, when [JSON.parse] inverts
    [JSON.stringify] on it. *)
Lemma readPaws_writePaws (env : Env) (installed : gmap string PawInfo) (fs fs' : FS) :
  JSON_parse_paws env (JSON_stringify_paws env installed) = Some (Table installed) ->
  writePaws env installed fs = Some fs' ->
  readPaws env fs' = Some installed.
Proof.
  intros Hcodec Hw. unfold writePaws in Hw.
  destruct (writeFileSync_read _ _ _ _ Hw) as [mode Hr].
  unfold readPaws, readJson. now rewrite Hr, Hcodec.
Qed.

Lemma readPaws_Some (env : Env) (fs : FS) (installed : gmap string PawInfo) :
  readPaws env fs = Some installed -> readJson env fs = Some (Table installed).
Proof.
  unfold readPaws. destruct (readJson env fs) as [[| m] |];
    try (intros X; discriminate X).
  now intros [= ->].
Qed.



Lemma removeDeletePaths_total (env : Env) (l : list DeletePath) :
  ~ In NotText l ->
  forall fs, exists failed fs', removeDeletePaths env l fs = (Ok failed, fs').
Proof.
  induction l as [| [p |] rest IH]; intros Hl fs; cbn [removeDeletePaths].
  - eexists _, _. reflexivity.
  - unfold bind, caught, ret.
    destruct (removeDeletePath env p fs) as [failed1 fs1].
    destruct (IH (fun H => Hl (or_intror H)) fs1) as (failed2 & fs2 & E).
    rewrite E. eexists _, _. reflexivity.
  - elim Hl. now left.
Qed.

Lemma removeDeletePaths_throws (env : Env) (l : list DeletePath) :
  In NotText l ->
  forall fs, exists fs', removeDeletePaths env l fs = (Throw TypeError, fs').
Proof.
  induction l as [| [p |] rest IH]; intros Hl fs; cbn [removeDeletePaths].
  - destruct Hl.
  - destruct Hl as [Hl | Hl]; [discriminate Hl |].
    unfold bind, caught.
    destruct (removeDeletePath env p fs) as [failed1 fs1].
    destruct (IH Hl fs1) as (fs2 & E). rewrite E. eauto.
  - eexists. reflexivity.
Qed.

Lemma removeAll_total (env : Env) (info : PawInfo) (fs : FS) :
  ~ In NotText (deletePaths (metadata info)) ->
  exists failed fs', removeAll env info fs = (Ok failed, fs').
Proof.
  intros Hl. unfold removeAll, bind, caught, ret.
  destruct (forEach (removeBundle env) _ fs) as [failed1 fs1].
  destruct (removeDeletePaths_total env _ Hl fs1) as (failed2 & fs2 & E).
  rewrite E.
  destruct (forEach (removeFile _) _ fs2) as [failed3 fs3].
  eexists _, _. reflexivity.
Qed.

Lemma removeAll_throws (env : Env) (info : PawInfo) (fs : FS) :
  In NotText (deletePaths (metadata info)) ->
  exists fs', removeAll env info fs = (Throw TypeError, fs').
Proof.
  intros Hl. unfold removeAll, bind, caught.
  destruct (forEach (removeBundle env) _ fs) as [failed1 fs1].
  destruct (removeDeletePaths_throws env _ Hl fs1) as (fs2 & E).
  rewrite E. eauto.
Qed.

(** [remove] on a name that has a record. *)
Lemma remove_own (env : Env) (pawName : string) (fs : FS)
    (installed : gmap string PawInfo) (info : PawInfo) :
  readPaws env fs = Some installed ->
  installed !! pawName = Some info ->
  remove env pawName fs =
    match removeAll env info fs with
    | (Throw e, fs1) => (Throw e, fs1)
    | (Ok failedDeletions, fs1) =>
        match writePaws env (delete pawName installed) fs1 with
        | None => (Throw (JsonWriteError (PAWS_FILE env)), fs1)
        | Some fs2 =>
            if summaryThrows failedDeletions then (Throw TypeError, fs2)
            else (Ok failedDeletions, fs2)
        end
    end.
Proof.
  intros Hr Hi. unfold remove, JsObject.get.
  now rewrite (readPaws_Some _ _ _ Hr), Hi.
Qed.


End ManifestFacts.

(** ** Uninstalling *)

Module RemoveFacts.
Import Fs Pawkit FsFacts ManifestFacts.


End RemoveFacts.

Module RemoveExamples.
Import Fs Pawkit Demo RemoveFacts.



End RemoveExamples.

Module InstallExamples.
Import Fs Pawkit FsFacts Demo InstallFacts.

Lemma pair_from_fst {A B} (x : A * B) (a : A) : x.1 = a -> x = (a, x.2).
Proof. destruct x. cbn. now intros ->. Qed.

Lemma scratch_of_ok (env : Env) (fs0 : FS) :
  (exists s, (setupScratch env "/dl/pkg.paw" fs0).1 = Ok s) ->
  setupScratch env "/dl/pkg.paw" fs0 = (Ok (scratch_of env fs0).1, (scratch_of env fs0).2).
Proof.
  unfold scratch_of. cbn zeta.
  destruct (setupScratch env "/dl/pkg.paw" fs0) as [[s | e] f1]; cbn.
  - reflexivity.
  - intros [s H]. discriminate.
Qed.

Lemma plan_of_ok (env : Env) (fs0 : FS) :
  (exists p, (planInstall env (scratch_of env fs0).1.2 (scratch_of env fs0).2).1 = Ok p) ->
  planInstall env (scratch_of env fs0).1.2 (scratch_of env fs0).2 =
    (Ok (plan_of env fs0).1, (plan_of env fs0).2).
Proof.
  unfold plan_of. cbn zeta.
  destruct (planInstall env (scratch_of env fs0).1.2 (scratch_of env fs0).2)
    as [[p | e] f1]; cbn.
  - reflexivity.
  - intros [p H]. discriminate.
Qed.







End InstallExamples.

(** ** More on version comparison *)

Module VersionOrder.
Import Version.

Lemma lt_asym (a b : JsNumber) : lt a b = true -> lt b a = false.
Proof.
  destruct a as [| m1 e1 | []], b as [| m2 e2 | []]; cbn; try congruence.
  rewrite (Z.min_comm e2 e1). intros H. apply Z.ltb_lt in H. apply Z.ltb_ge. lia.
Qed.

Lemma lt_irrefl (a : JsNumber) : lt a a = false.
Proof.
  destruct (lt a a) eqn:E; [| reflexivity]. now rewrite (lt_asym a a E) in E.
Qed.

Lemma compareParts_swap (l1 : list JsNumber) :
  forall l2, compareParts l2 l1 = (- compareParts l1 l2)%Z.
Proof.
  induction l1 as [| a r1 IH]; intros [| b r2]; try reflexivity.
  cbn [compareParts]. unfold gt.
  destruct (lt a b) eqn:Hab.
  - now rewrite (lt_asym a b Hab).
  - destruct (lt b a); [reflexivity | apply IH].
Qed.

Lemma compareParts_range (l1 : list JsNumber) :
  forall l2, compareParts l1 l2 = (-1)%Z \/ compareParts l1 l2 = 0%Z \/
             compareParts l1 l2 = 1%Z.
Proof.
  induction l1 as [| a r1 IH]; intros [| b r2]; cbn [compareParts]; auto.
  destruct (gt a b); [auto |]. destruct (lt a b); [auto | apply IH].
Qed.

Lemma compareParts_same (l : list JsNumber) : compareParts l l = 0%Z.
Proof.
  induction l as [| a r IH]; [reflexivity |].
  cbn [compareParts]. unfold gt. now rewrite lt_irrefl.
Qed.

(** X1: The order of the arguments only decides the sign: the result is
    one of -1, 0 and 1, it is negated when the two versions change
    places, and a version compares equal to itself, whatever its
    components are. *)
Theorem compareVersions_sign (version1 version2 : string) :
  compareVersions version2 version1 = (- compareVersions version1 version2)%Z
  /\ (compareVersions version1 version2 = (-1)%Z \/
      compareVersions version1 version2 = 0%Z \/
      compareVersions version1 version2 = 1%Z)
  /\ compareVersions version1 version1 = 0%Z.
Proof.
  unfold compareVersions. split; [apply compareParts_swap | split].
  - apply compareParts_range.
  - apply compareParts_same.
Qed.

(** *** Padding *)

Lemma split_aux_dot_app (a b cur : string) :
  Js.split_aux "." cur (a +:+ String "." b) =
    Js.split_aux "." cur a ++ Js.split_aux "." "" b.
Proof.
  revert cur. induction a as [| c a IH]; intros cur.
  - rewrite JsFacts.app_nil. reflexivity.
  - rewrite JsFacts.app_cons. cbn [Js.split_aux]. destruct (Ascii.eqb c ".").
    + cbn [app]. f_equal. apply IH.
    + apply IH.
Qed.

Lemma parts_dot_zero (version : string) :
  parts (version +:+ ".0") = parts version ++ [Fin 0 0].
Proof.
  unfold parts, Js.split. change ".0" with (String "." "0").
  rewrite split_aux_dot_app, map_app. reflexivity.
Qed.

Lemma pad_cons (n : nat) (a : JsNumber) (l : list JsNumber) :
  pad (S n) (a :: l) = a :: pad n l.
Proof. reflexivity. Qed.

Lemma pad_nil (n : nat) : pad n [] = repeat (Fin 0 0) n.
Proof. unfold pad. cbn. now rewrite Nat.sub_0_r. Qed.

Lemma pad_zero (l : list JsNumber) : pad 0 l = l.
Proof. unfold pad. cbn. apply app_nil_r. Qed.

(** Two arrays, each padded to the length of the other: a zero at the
    end of one of them is a zero the padding would have put there. *)
Lemma compareParts_padded_zero (l2 : list JsNumber) :
  forall l1,
    compareParts (pad (length (l2 ++ [Fin 0 0])) l1)
                 (pad (length l1) (l2 ++ [Fin 0 0])) =
    compareParts (pad (length l2) l1) (pad (length l1) l2).
Proof.
  induction l2 as [| b r2 IH]; intros [| a r1].
  - reflexivity.
  - cbn [app length]. rewrite !pad_cons, !pad_zero, !pad_nil. reflexivity.
  - cbn [app length]. rewrite !pad_nil, !pad_zero. cbn [repeat compareParts].
    specialize (IH []). cbn [length] in IH. rewrite !pad_nil, !pad_zero in IH.
    now rewrite IH.
  - cbn [app length]. rewrite !pad_cons. cbn [compareParts]. now rewrite IH.
Qed.

(** X2: A closing [.0] changes nothing: [compareVersions] pads the shorter
    array with zeros, so [1.2] and [1.2.0] are the same version to it,
    on either side of the comparison. *)
Theorem compareVersions_trailing_zero (version1 version2 : string) :
  compareVersions version1 (version2 +:+ ".0") = compareVersions version1 version2
  /\ compareVersions (version1 +:+ ".0") version2 = compareVersions version1 version2
  /\ compareVersions version1 (version1 +:+ ".0") = 0%Z.
Proof.
  assert (R : forall v1 v2,
             compareVersions v1 (v2 +:+ ".0") = compareVersions v1 v2).
  { intros v1 v2. unfold compareVersions. rewrite parts_dot_zero.
    apply (compareParts_padded_zero (parts v2) (parts v1)). }
  split; [apply R | split].
  - assert (S1 : forall a b, compareVersions a b = (- compareVersions b a)%Z).
    { intros a b. unfold compareVersions. apply compareParts_swap. }
    rewrite (S1 (version1 +:+ ".0") version2), R, <- S1. reflexivity.
  - rewrite R. unfold compareVersions. apply compareParts_same.
Qed.

End VersionOrder.

(** ** More on path resolution *)

Module ResolverMore.
Import Js Path Fs Resolver JsFacts FsFacts PathFacts ResolverFacts.

Lemma isAbsolute_spec (p : string) :
  isAbsolute p = true -> exists r, p = String "/" r.
Proof.
  unfold isAbsolute, startsWith. intros H.
  apply prefix_split in H as [r ->]. now exists r.
Qed.

Lemma isAbsolute_normalize (p : string) :
  isAbsolute p = true -> isAbsolute (normalize p) = true.
Proof.
  intros H. apply isAbsolute_spec in H as [r ->]. rewrite normalize_abs.
  destruct (Js.join "/" _); apply isAbsolute_slash.
Qed.

Lemma isAbsolute_joinl (a : string) (l : list string) :
  isAbsolute a = true -> isAbsolute (joinl (a :: l)) = true.
Proof.
  intros H. destruct (isAbsolute_spec a H) as [r ->].
  unfold joinl. cbn [List.filter String.eqb negb].
  apply isAbsolute_normalize.
  destruct (List.filter _ l); cbn [Js.join]; apply isAbsolute_slash.
Qed.

Lemma isAbsolute_join (a b : string) :
  isAbsolute a = true -> isAbsolute (Path.join a b) = true.
Proof. apply isAbsolute_joinl. Qed.

Lemma specialPaths_absolute (home : string) :
  isAbsolute home = true ->
  forall marker base, In (marker, base) (specialPaths home) -> isAbsolute base = true.
Proof.
  intros Hh marker base Hin. unfold specialPaths in Hin. cbn [In] in Hin.
  repeat (destruct Hin as [Hin | Hin]; [injection Hin as <- <- |]);
    try contradiction;
    first [exact Hh | now apply isAbsolute_joinl | reflexivity].
Qed.

Lemma apply_special_value (table : list (string * string)) (m d : string) :
  apply_special table m = Some d ->
  exists key base, In (key, base) table /\
                   d = Path.join base (substring_from (String.length key + 1) m).
Proof.
  induction table as [| [k b] table IH]; cbn [apply_special]; [discriminate |].
  destruct (startsWith m (k +:+ "/")).
  - intros [= <-]. exists k, b. split; [now left | reflexivity].
  - intros H. destruct (IH H) as (key & base & Hin & Hd).
    exists key, base. split; [now right | exact Hd].
Qed.

Lemma map_marker_absolute (home s d : string) :
  isAbsolute home = true -> map_marker home s = Some d -> isAbsolute d = true.
Proof.
  intros Hh Hm. unfold map_marker in Hm.
  destruct (match_at_token s); [| discriminate].
  apply apply_special_value in Hm as (key & base & Hin & ->).
  apply isAbsolute_join. eapply specialPaths_absolute; eassumption.
Qed.

Lemma map_metadata_absolute (home s : string) :
  isAbsolute home = true -> isAbsolute (map_metadata home s) = true.
Proof.
  intros Hh. unfold map_metadata, metadataDir, CONFIG_DIR.
  now repeat apply isAbsolute_join.
Qed.

(** X4: Every destination that path resolution returns is an absolute
    path, when the home directory is one: the base directories of the
    table and the [pluginmetadata] directory are absolute, and
    [path.join] keeps the leading slash whatever is joined to them. *)
Theorem resolved_destination_is_absolute
    (home p : string) (fs fs' : FS) (d : string) :
  isAbsolute home = true ->
  cleanAndMapPath home p fs = (Some d, fs') ->
  isAbsolute d = true.
Proof.
  intros Hh. unfold cleanAndMapPath.
  destruct (map_marker home (clean p)) as [m |] eqn:Hm.
  - intros [= <- _]. eapply map_marker_absolute; eassumption.
  - destruct (includes "metadata/" (clean p)); [| discriminate].
    destruct (ensureDirSync (metadataDir home) fs); [| discriminate].
    intros [= <- _]. now apply map_metadata_absolute.
Qed.

End ResolverMore.

Module ResolverMoreExamples.
Import Js Path Fs Resolver ResolverMore.

Lemma resolved_destination_is_absolute_witness :
  isAbsolute "/Users/u" = true
  /\ (cleanAndMapPath "/Users/u" "@documents/../../etc/x" (Demo.disk [])).1 =
       Some "/Users/etc/x"
  /\ isAbsolute "/Users/etc/x" = true.
Proof.
  assert (Hh : isAbsolute "/Users/u" = true) by reflexivity.
  assert (Hr : cleanAndMapPath "/Users/u" "@documents/../../etc/x" (Demo.disk []) =
               (Some "/Users/etc/x", Demo.disk [])) by (vm_compute; reflexivity).
  split; [exact Hh | split; [now rewrite Hr |]].
  exact (resolved_destination_is_absolute "/Users/u" "@documents/../../etc/x"
           (Demo.disk []) (Demo.disk []) "/Users/etc/x" Hh Hr).
Defined.

End ResolverMoreExamples.

(** ** More on the install run: early failures, copied files *)

Module InstallMore.
Import Fs Pawkit FsFacts MFacts InstallFacts.
Local Open Scope m_scope.

Section WithEnv.
Variable env : Env.

Lemma mergeDescriptor_version (pawName : string) (d : Descriptor) :
  md_version (mergeDescriptor pawName d) <> "".
Proof.
  unfold mergeDescriptor. cbn [md_version].
  destruct (d_version d) as [v |]; [| discriminate].
  destruct (String.eqb v "") eqn:E; cbn [orb]; [discriminate |].
  destruct (String.eqb v "0.0.0"); [discriminate |].
  intros ->. discriminate E.
Qed.

Lemma readMetadata_version (filePath bytes : string) :
  md_version (readMetadata env filePath bytes) <> "".
Proof.
  unfold readMetadata.
  destruct (readAsText env bytes "metadata/data.json") as [rootContent |];
    [| discriminate].
  destruct (if String.eqb rootContent "" then _ else _) as [text |]; [| discriminate].
  destruct (String.eqb text ""); [discriminate |].
  destruct (JSON_parse_descriptor env text) as [d |]; [| discriminate].
  apply mergeDescriptor_version.
Qed.

Lemma setupScratch_metadata (filePath : string) (fs fs1 : FS)
    (scratch : Metadata * list Entry) :
  setupScratch env filePath fs = (Ok scratch, fs1) ->
  exists bytes, scratch.1 = readMetadata env filePath bytes.
Proof.
  unfold setupScratch. intros H.
  apply bind_Ok in H as ([] & fsa & _ & H).
  apply bind_Ok in H as ([] & fsb & _ & H).
  apply bind_Ok in H as ([] & fsc & _ & H).
  apply bind_Ok in H as (bytes & fsd & _ & H).
  apply bind_Ok in H as ([] & fse & _ & H).
  apply bind_Ok in H as (entries & fsf & _ & H).
  injection H as <- _. now exists bytes.
Qed.

Lemma resolveAll_absolute (l : list Entry) :
  Path.isAbsolute (USER_HOME env) = true ->
  forall fs fs' resolved,
    resolveAll env l fs = (Ok resolved, fs') ->
    forall d, In d resolved -> Path.isAbsolute d = true.
Proof.
  intros Hh. induction l as [| entry rest IH]; intros fs fs' resolved H d Hd;
    cbn [resolveAll] in H.
  - injection H as <- _. destruct Hd.
  - apply bind_Ok in H as (mapped & fs1 & H1 & H).
    apply bind_Ok in H as (more & fs2 & H2 & H).
    injection H as <- _. unfold resolvePath in H1.
    destruct (Resolver.cleanAndMapPath (USER_HOME env) (entryName entry) fs)
      as [o fsx] eqn:E.
    injection H1 as -> ->.
    destruct mapped as [t |]; [destruct Hd as [<- | Hd] |];
      try (eapply IH; eassumption).
    unfold Resolver.cleanAndMapPath in E.
    destruct (Resolver.map_marker (USER_HOME env) (Resolver.clean (entryName entry)))
      as [m |] eqn:Hm.
    + injection E as <- _. eapply ResolverMore.map_marker_absolute; eassumption.
    + destruct (Js.includes "metadata/" (Resolver.clean (entryName entry)));
        [| discriminate E].
      destruct (ensureDirSync (Resolver.metadataDir (USER_HOME env)) fs);
        [| discriminate E].
      injection E as <- _. now apply ResolverMore.map_metadata_absolute.
Qed.

End WithEnv.

Section Throws.
Variable env : Env.












Lemma confirmInstall_reads (installPaths : list InstallPath) (fs fs' : FS)
    (r : result unit) :
  confirmInstall env installPaths fs = (r, fs') -> fs' = fs.
Proof.
  unfold confirmInstall, bind, get, throw, ret. cbv beta iota zeta.
  destruct (negb (length (existingFiles env fs installPaths) =? 0)%nat &&
            negb (PAWKIT_FORCE_INSTALL env)); [now intros [= _ <-] |].
  destruct (confirm_installation env && negb (PAWKIT_FORCE_INSTALL env) &&
            negb (String.eqb (answer env) "y") && negb (String.eqb (answer env) "yes"));
    now intros [= _ <-].
Qed.

End Throws.


(** *** A regular file of the plan *)

(** The copy of a file, followed by a [chmod] whose failure is
    swallowed. *)
Lemma copy_then_chmod (src dst : string) (mode : Z) (fs fs' : FS)
    (data : string) (m : Z) :
  statSync fs src = Some (NFile data m) ->
  match copyFileSync src dst fs with
  | Some fs1 =>
      match chmodSync dst mode fs1 with
      | Some fs2 => Some fs2
      | None => Some fs1
      end
  | None => None
  end = Some fs' ->
  exists d,
    realpath fs dst = Some d
    /\ nodes fs' !! d = Some (NFile data (Modes.modeAfter fs d m mode))
    /\ (forall q, q <> d -> nodes fs' !! q = nodes fs !! q)
    /\ locked fs' = locked fs /\ foreign fs' = foreign fs.
Proof.
  intros Hstat. unfold copyFileSync. rewrite Hstat.
  destruct (realpath fs dst) as [d |] eqn:Hd; [| intros X; discriminate X].
  case_bool_decide as Hlock; [intros X; discriminate X |].
  destruct (negb (is_dir fs (Path.dirname d))); [intros X; discriminate X |].
  assert (Hstep : forall mode1,
    match chmodSync dst mode (set_nodes fs (<[d := NFile data mode1]> (nodes fs))) with
    | Some fs2 => Some fs2
    | None => Some (set_nodes fs (<[d := NFile data mode1]> (nodes fs)))
    end = Some fs' ->
    nodes fs' !! d =
      Some (NFile data (if bool_decide (d ∈ foreign fs) then mode1 else mode))
    /\ (forall q, q <> d -> nodes fs' !! q = nodes fs !! q)
    /\ locked fs' = locked fs /\ foreign fs' = foreign fs).
  { intros mode1. unfold chmodSync, realpath. cbn [nodes set_nodes locked foreign].
    unfold realpath in Hd.
    rewrite (realpath_fuel_insert _ d (NFile data mode1)) by (discriminate || exact Hd).
    rewrite lookup_insert_eq. rewrite (bool_decide_eq_false_2 _ Hlock). cbn [orb].
    destruct (bool_decide (d ∈ foreign fs)); intros [= <-];
      unfold set_nodes; cbn [nodes locked foreign].
    - split; [apply lookup_insert_eq |]. split; [| auto].
      intros q Hq. now rewrite lookup_insert_ne by congruence.
    - split; [apply lookup_insert_eq |]. split; [| auto].
      intros q Hq. now rewrite !lookup_insert_ne by congruence. }
  unfold Modes.modeAfter.
  destruct (nodes fs !! d) as [[data0 mode0 | | t] |] eqn:En;
    try (intros X; discriminate X);
    intros H; exists d; (split; [reflexivity |]); apply Hstep in H;
    destruct (bool_decide (d ∈ foreign fs)); try exact H;
    unfold lookup in En |- *; rewrite En; exact H.
Qed.

Lemma statSync_file (fs : FS) (p data : string) (m : Z) :
  lstatSync fs p = Some (NFile data m) -> statSync fs p = Some (NFile data m).
Proof.
  intros Hl. unfold statSync. rewrite realpath_here; [exact Hl |].
  intros t. unfold lstatSync in Hl. rewrite Hl. discriminate.
Qed.

(** X10: An entry that is a regular file in the extracted tree: when its
    installation returns, the file the destination leads to (through
    links, if the destination is one) has the bytes of the source; no
    other path has changed.  Its mode is the one recorded in the plan,
    with the three execute bits set on macOS when one of them was; but
    where the [chmod] is refused because the file at the destination
    is not this user's, the failure is swallowed and the mode is the
    one the copy left: that of the file that was there, or of the
    source. *)
Theorem installed_file_has_bytes_and_mode
    (env : Env) (file : InstallPath) (fs fs' : FS) (data : string) (m : Z) :
  ip_isSymlink file = false ->
  lstatSync fs (source file) = Some (NFile data m) ->
  installOne env file fs = Some fs' ->
  exists d,
    realpath fs (target file) = Some d
    /\ nodes fs' !! d =
         Some (NFile data
                 (Modes.modeAfter fs d m (Modes.newMode env (sourceStats file))))
    /\ (forall q, q <> d -> nodes fs' !! q = nodes fs !! q).
Proof.
  intros Hsym Hl. unfold installOne. rewrite Hsym, Hl.
  assert (Hnone : match ip_linkTarget file with
                  | Some linkTarget =>
                      if false && negb (String.eqb linkTarget "")
                      then Some linkTarget else None
                  | None => None
                  end = None) by (destruct (ip_linkTarget file); reflexivity).
  rewrite Hnone. clear Hnone. intros H.
  destruct (copy_then_chmod (source file) (target file)
              (Modes.newMode env (sourceStats file)) fs fs' data m
              (statSync_file _ _ _ _ Hl) H) as (d & Hd & Hn & Hq & _).
  exists d. split; [exact Hd | split; [exact Hn | exact Hq]].
Qed.

(** *** The loop over the plan, for regular files *)

Section Loop.
Variable env : Env.









End Loop.

Section PlanStatus.
Variable env : Env.




End PlanStatus.


(** *** Application bundles need [ditto] *)

Lemma installBundles_without_ditto (env : Env) (appBundles : list (string * BundleInfo)) :
  darwin env && which_ditto env = false ->
  forall createdDirs handled fs,
    installBundles env appBundles createdDirs handled fs =
      (Ok (createdDirs, handled), fs).
Proof.
  intros H. induction appBundles as [| [appPath bundleInfo] rest IH];
    intros createdDirs handled fs; cbn [installBundles]; [reflexivity |].
  rewrite H. cbn [negb]. apply IH.
Qed.

(** X9: Off macOS, or where [ditto] is not found, an application bundle is
    nothing special: no bundle is copied as a whole, no directory is
    made for one, and every entry of the plan, those inside bundles
    included, goes through the loop that installs single files. *)
Theorem without_ditto_every_entry_is_installed_singly
    (env : Env) (installPaths : list InstallPath) (fs : FS) :
  darwin env && which_ditto env = false ->
  materialize env installPaths fs = installFiles env installPaths [] ∅ fs
  /\ forall file, handledByAppBundle [] file = false.
Proof.
  intros H. split.
  - unfold materialize, bind.
    now rewrite (installBundles_without_ditto env _ H).
  - intros file. unfold handledByAppBundle.
    destruct (isAppBundlePath (target file)); [| reflexivity].
    destruct (getAppBundleRoot (target file)) as [root |]; [| reflexivity].
    cbn [andb]. apply bool_decide_eq_false_2. intros Hin.
    now apply elem_of_nil in Hin.
Qed.

(** *** The signature test *)

Lemma byte_at_short (data : string) :
  String.length data < 4 -> byte_at 3 data = 0.
Proof.
  unfold byte_at.
  destruct data as [| a [| b [| c [| d r]]]]; cbn; intros H; try reflexivity; lia.
Qed.

(** X14: An archive that is cut off before its fourth byte, or a directory
    in the place of the archive, is refused as no valid paw, and
    nothing is touched: not the manifest, not the file system, and no
    scratch directory is made. *)
Theorem truncated_archive_is_rejected
    (env : Env) (filePath : string) (st : FS) :
  statSync st filePath = Some NDir \/
  (exists data m, statSync st filePath = Some (NFile data m) /\
                  String.length data < 4) ->
  installFromFile env filePath st = (Throw (InvalidPaw filePath), st).
Proof.
  intros H. unfold installFromFile, existsSync, isValidZipFile.
  destruct H as [-> | (data & m & -> & Hlen)]; cbn [negb]; [reflexivity |].
  rewrite (byte_at_short data Hlen). cbn [Nat.eqb orb].
  now rewrite andb_false_r.
Qed.

End InstallMore.

Module InstallMoreExamples.
Import Fs Pawkit FsFacts Demo InstallFacts InstallExamples InstallMore.


(** A file of another owner at the destination: the bytes are
    replaced, and the mode stays. *)
Definition foreign_disk : FS :=
  mkFS (nodes (disk [("/Users/u/Documents/copy", NFile "old" 384)])) ∅
       {[ "/Users/u/Documents/copy" ]}.

Lemma installed_file_has_bytes_and_mode_witness :
  (exists fs' d,
     installOne (env_with false false "" [])
       (mkInstallPath "/dl/pkg.paw" "/Users/u/Documents/copy" false None (NFile PK 493))
       (disk []) = Some fs'
     /\ realpath (disk []) "/Users/u/Documents/copy" = Some d
     /\ nodes fs' !! d = Some (NFile PK 493)
     /\ (forall q, q <> d -> nodes fs' !! q = nodes (disk []) !! q))
  /\ (exists fs' d,
       installOne (env_with false false "" [])
         (mkInstallPath "/dl/pkg.paw" "/Users/u/Documents/copy" false None
            (NFile PK 493))
         foreign_disk = Some fs'
       /\ realpath foreign_disk "/Users/u/Documents/copy" = Some d
       /\ nodes fs' !! d = Some (NFile PK 384)).
Proof.
  assert (Hl : lstatSync (disk []) "/dl/pkg.paw" = Some (NFile PK 420))
    by (vm_compute; reflexivity).
  assert (Hl' : lstatSync foreign_disk "/dl/pkg.paw" = Some (NFile PK 420))
    by (vm_compute; reflexivity).
  split.
  - destruct (installOne (env_with false false "" [])
                (mkInstallPath "/dl/pkg.paw" "/Users/u/Documents/copy" false None
                   (NFile PK 493)) (disk [])) as [fs' |] eqn:E.
    + destruct (installed_file_has_bytes_and_mode (env_with false false "" [])
                  (mkInstallPath "/dl/pkg.paw" "/Users/u/Documents/copy" false None
                     (NFile PK 493)) (disk []) fs' PK 420 eq_refl Hl E)
        as (d & Hd & Hn & Hq).
      exists fs', d. split; [reflexivity |]. split; [exact Hd |].
      split; [| exact Hq].
      assert (d = "/Users/u/Documents/copy") as ->.
      { vm_compute in Hd. now injection Hd as <-. }
      rewrite Hn. vm_compute. reflexivity.
    + vm_compute in E. discriminate E.
  - destruct (installOne (env_with false false "" [])
                (mkInstallPath "/dl/pkg.paw" "/Users/u/Documents/copy" false None
                   (NFile PK 493)) foreign_disk) as [fs' |] eqn:E.
    + destruct (installed_file_has_bytes_and_mode (env_with false false "" [])
                  (mkInstallPath "/dl/pkg.paw" "/Users/u/Documents/copy" false None
                     (NFile PK 493)) foreign_disk fs' PK 420 eq_refl Hl' E)
        as (d & Hd & Hn & Hq).
      exists fs', d. split; [reflexivity |]. split; [exact Hd |].
      assert (d = "/Users/u/Documents/copy") as ->.
      { vm_compute in Hd. now injection Hd as <-. }
      rewrite Hn. vm_compute. reflexivity.
    + vm_compute in E. discriminate E.
Defined.


Lemma truncated_archive_is_rejected_witness :
  installFromFile (env_with false false "" []) "/dl/cut.paw"
    (disk [("/dl/cut.paw", NFile "PK" 420)])
  = (Throw (InvalidPaw "/dl/cut.paw"), disk [("/dl/cut.paw", NFile "PK" 420)]).
Proof.
  apply (truncated_archive_is_rejected (env_with false false "" []) "/dl/cut.paw"
           (disk [("/dl/cut.paw", NFile "PK" 420)])).
  right. exists "PK", 420%Z. split; [vm_compute; reflexivity | cbn; lia].
Defined.

Lemma without_ditto_every_entry_is_installed_singly_witness :
  materialize (env_with false false "" [])
    [mkInstallPath "/dl/pkg.paw" "/Applications/A.app/Contents/Info.plist" false None
       (NFile PK 420)] (disk [])
  = installFiles (env_with false false "" [])
      [mkInstallPath "/dl/pkg.paw" "/Applications/A.app/Contents/Info.plist" false None
         (NFile PK 420)] [] ∅ (disk [])
  /\ forall file, handledByAppBundle [] file = false.
Proof.
  apply (without_ditto_every_entry_is_installed_singly (env_with false false "" [])).
  reflexivity.
Defined.

End InstallMoreExamples.

(** ** Application bundles and the plan *)

Module BundleFacts.
Import Js Fs Pawkit JsFacts PathFacts MFacts InstallFacts.
Local Open Scope m_scope.

Lemma substring_split (i : nat) (s : string) :
  s = substring_to i s +:+ substring_from i s.
Proof.
  revert s. induction i as [| i IH]; intros s; [reflexivity |].
  destruct s as [| c s]; [reflexivity |].
  cbn [substring_to substring_from]. rewrite app_cons. f_equal. apply IH.
Qed.

Lemma substring_to_app (k r : string) : substring_to (String.length k) (k +:+ r) = k.
Proof.
  induction k as [| c k IH]; [reflexivity |].
  rewrite app_cons. cbn [String.length substring_to]. now rewrite IH.
Qed.

Lemma substring_to_occurrence (k : string) (i : nat) (s : string) :
  String.prefix k (substring_from i s) = true ->
  substring_to (i + String.length k) s = substring_to i s +:+ k.
Proof.
  revert s. induction i as [| i IH]; intros s H.
  - change (substring_from 0 s) with s in H.
    apply prefix_split in H as [r ->]. cbn [Nat.add substring_to].
    now rewrite substring_to_app.
  - destruct s as [| c s].
    + change (substring_from (S i) "") with "" in H.
      apply prefix_empty_r in H as ->. cbn. reflexivity.
    + change (substring_from (S i) (String c s)) with (substring_from i s) in H.
      cbn [Nat.add substring_to]. rewrite app_cons. f_equal. now apply IH.
Qed.

Lemma endsWith_suffix (a b : string) : endsWith (a +:+ b) b = true.
Proof.
  unfold endsWith. rewrite length_app.
  replace (String.length a + String.length b - String.length b)
    with (String.length a) by lia.
  rewrite substring_from_app, String.eqb_refl.
  rewrite andb_true_r. apply Nat.leb_le. lia.
Qed.

Lemma prefix_app_l (k k' t : string) :
  String.prefix (k +:+ k') t = true -> String.prefix k t = true.
Proof.
  intros H. apply prefix_split in H as [r ->]. rewrite app_assoc.
  apply prefix_refl_app.
Qed.

(** The root of a bundle path is the path up to the end of its first
    [.app]. *)
Lemma getAppBundleRoot_spec (p root : string) :
  getAppBundleRoot p = Some root ->
  exists before rest,
    p = before +:+ ".app" +:+ rest /\ root = before +:+ ".app"
    /\ indexOf ".app" p = Some (String.length before).
Proof.
  unfold getAppBundleRoot. destruct (indexOf ".app" p) as [i |] eqn:E; [| discriminate].
  intros [= <-]. pose proof (indexOf_prefix _ _ _ E) as Hp.
  pose proof (substring_to_occurrence ".app" i p Hp) as Hto.
  change (String.length ".app") with 4 in Hto.
  apply prefix_split in Hp as [rest Hrest].
  assert (Hlen : String.length (substring_to i p) = i).
  { clear -E. revert i E. induction p as [| c p IH]; intros i; cbn [indexOf].
    - destruct (String.prefix ".app" ""); [| discriminate]. now intros [= <-].
    - destruct (String.prefix ".app" (String c p)); [now intros [= <-] |].
      destruct (indexOf ".app" p) as [j |]; [| discriminate].
      intros [= <-]. cbn [substring_to String.length]. f_equal. now apply IH. }
  exists (substring_to i p), rest. rewrite Hlen. split; [| split; auto].
  rewrite <- Hrest. apply substring_split.
Qed.

Lemma isAppBundlePath_root (p : string) :
  isAppBundlePath p = true -> exists root, getAppBundleRoot p = Some root.
Proof.
  unfold isAppBundlePath, getAppBundleRoot, includes. intros H.
  destruct (indexOf ".app/Contents/" p) as [i |] eqn:E; [| discriminate].
  apply indexOf_prefix in E.
  change ".app/Contents/" with (".app" +:+ "/Contents/") in E.
  apply prefix_app_l in E.
  pose proof (includes_at ".app" p i E) as Hi. unfold includes in Hi.
  destruct (indexOf ".app" p); [eauto | discriminate].
Qed.

(** *** [bundle_add] *)

Lemma bundle_add_keys (k : string) (f : InstallPath) (G : list (string * BundleInfo)) :
  forall k', k' ∈ map fst (bundle_add k f G) <-> k' = k \/ k' ∈ map fst G.
Proof.
  induction G as [| [k0 info] rest IH]; intros k'; cbn [bundle_add map fst].
  - rewrite elem_of_cons. reflexivity.
  - destruct (String.eqb k0 k) eqn:E.
    + apply String.eqb_eq in E as ->. cbn [map fst]. rewrite elem_of_cons. tauto.
    + cbn [map fst]. rewrite !elem_of_cons, IH. tauto.
Qed.

Lemma bundle_add_NoDup (k : string) (f : InstallPath) (G : list (string * BundleInfo)) :
  NoDup (map fst G) -> NoDup (map fst (bundle_add k f G)).
Proof.
  induction G as [| [k0 info] rest IH]; cbn [bundle_add map fst]; intros H.
  - apply NoDup_singleton.
  - apply NoDup_cons in H as [Hk0 Hrest].
    destruct (String.eqb k0 k) eqn:E; cbn [map fst].
    + apply NoDup_cons. auto.
    + apply NoDup_cons. split; [| now apply IH].
      rewrite bundle_add_keys. intros [-> | Hin]; [| contradiction].
      now rewrite String.eqb_refl in E.
Qed.

Lemma bundle_add_members (k : string) (f : InstallPath)
    (G : list (string * BundleInfo)) :
  forall k' info' g,
    In (k', info') (bundle_add k f G) -> In g (b_files info') ->
    (g = f /\ k' = k) \/ exists info, In (k', info) G /\ In g (b_files info).
Proof.
  induction G as [| [k0 info0] rest IH]; intros k' info' g; cbn [bundle_add].
  - intros [[= <- <-] | []] Hg. cbn [b_files] in Hg.
    destruct Hg as [<- | []]. now left.
  - destruct (String.eqb k0 k) eqn:E.
    + apply String.eqb_eq in E as ->. intros [[= <- <-] | Hin] Hg.
      * cbn [b_files] in Hg. apply in_app_iff in Hg as [Hg | [<- | []]].
        -- right. exists info0. split; [now left | exact Hg].
        -- now left.
      * right. exists info'. split; [now right | exact Hg].
    + intros [[= <- <-] | Hin] Hg.
      * right. exists info0. split; [now left | exact Hg].
      * destruct (IH _ _ _ Hin Hg) as [? | (info & Hi & Hgi)]; [now left |].
        right. exists info. split; [now right | exact Hgi].
Qed.

Lemma bundle_add_new (k : string) (f : InstallPath) (G : list (string * BundleInfo)) :
  exists info', In (k, info') (bundle_add k f G) /\ In f (b_files info').
Proof.
  induction G as [| [k0 info0] rest IH]; cbn [bundle_add].
  - eexists. split; [now left |]. now left.
  - destruct (String.eqb k0 k) eqn:E.
    + apply String.eqb_eq in E as ->. eexists. split; [now left |].
      cbn [b_files]. apply in_app_iff. right. now left.
    + destruct IH as (info' & Hin & Hf). exists info'. split; [now right | exact Hf].
Qed.

Lemma bundle_add_keeps (k : string) (f : InstallPath) (G : list (string * BundleInfo)) :
  forall k' info g,
    In (k', info) G -> In g (b_files info) ->
    exists info', In (k', info') (bundle_add k f G) /\ In g (b_files info').
Proof.
  induction G as [| [k0 info0] rest IH]; intros k' info g; cbn [bundle_add];
    [intros [] |].
  destruct (String.eqb k0 k) eqn:E.
  - intros [[= <- <-] | Hin] Hg.
    + eexists. split; [now left |]. cbn [b_files]. apply in_app_iff. now left.
    + exists info. split; [now right | exact Hg].
  - intros [[= <- <-] | Hin] Hg.
    + exists info0. split; [now left | exact Hg].
    + destruct (IH _ _ _ Hin Hg) as (info' & Hi & Hgi).
      exists info'. split; [now right | exact Hgi].
Qed.

Lemma groupBundles_from (l : list InstallPath) :
  forall (G : list (string * BundleInfo)) (seen : list InstallPath),
    NoDup (map fst G) ->
    (forall k info g, In (k, info) G -> In g (b_files info) ->
                      In g seen /\ isAppBundlePath (target g) = true /\
                      getAppBundleRoot (target g) = Some k) ->
    (forall g, In g seen -> isAppBundlePath (target g) = true ->
               exists k info, In (k, info) G /\ In g (b_files info)) ->
    let G' := fold_left (fun appBundles file =>
                           if isAppBundlePath (target file) then
                             match getAppBundleRoot (target file) with
                             | Some appPath => bundle_add appPath file appBundles
                             | None => appBundles
                             end
                           else appBundles) l G in
    NoDup (map fst G')
    /\ (forall k info g, In (k, info) G' -> In g (b_files info) ->
                         In g (seen ++ l) /\ isAppBundlePath (target g) = true /\
                         getAppBundleRoot (target g) = Some k)
    /\ (forall g, In g (seen ++ l) -> isAppBundlePath (target g) = true ->
                  exists k info, In (k, info) G' /\ In g (b_files info)).
Proof.
  induction l as [| f rest IH]; intros G seen Hnd Hs Hc; cbn zeta; cbn [fold_left].
  - rewrite List.app_nil_r. auto.
  - replace (seen ++ f :: rest) with ((seen ++ [f]) ++ rest)
      by (now rewrite <- List.app_assoc).
    destruct (isAppBundlePath (target f)) eqn:Hb.
    + destruct (isAppBundlePath_root _ Hb) as [root Hroot]. rewrite Hroot.
      apply IH.
      * now apply bundle_add_NoDup.
      * intros k info g Hin Hg.
        destruct (bundle_add_members _ _ _ _ _ _ Hin Hg)
          as [[-> ->] | (info0 & Hi & Hgi)].
        -- split; [apply in_app_iff; right; now left | auto].
        -- destruct (Hs _ _ _ Hi Hgi) as (H1 & H2 & H3).
           split; [apply in_app_iff; now left | auto].
      * intros g Hg Hgb. apply in_app_iff in Hg as [Hg | [<- | []]].
        -- destruct (Hc g Hg Hgb) as (k & info & Hi & Hgi).
           destruct (bundle_add_keeps root f G _ _ _ Hi Hgi) as (info' & H1 & H2).
           eauto.
        -- destruct (bundle_add_new root f G) as (info' & H1 & H2). eauto.
    + apply IH.
      * exact Hnd.
      * intros k info g Hin Hg. destruct (Hs _ _ _ Hin Hg) as (H1 & H2 & H3).
        split; [apply in_app_iff; now left | auto].
      * intros g Hg Hgb. apply in_app_iff in Hg as [Hg | [<- | []]].
        -- now apply Hc.
        -- congruence.
Qed.

(** X8: The grouping of the plan by application bundle: the bundle roots
    are distinct; a bundle holds plan entries only, each with
    [.app/Contents/] in its destination, and the root of the bundle is
    that destination up to the end of its first [.app]; and every plan
    entry with [.app/Contents/] in its destination is in a bundle. *)
Theorem bundles_partition_the_bundle_entries (installPaths : list InstallPath) :
  NoDup (map fst (groupBundles installPaths))
  /\ (forall appPath info file,
        In (appPath, info) (groupBundles installPaths) -> In file (b_files info) ->
        In file installPaths
        /\ isAppBundlePath (target file) = true
        /\ exists before rest,
             target file = before +:+ ".app" +:+ rest
             /\ appPath = before +:+ ".app"
             /\ indexOf ".app" (target file) = Some (String.length before))
  /\ (forall file,
        In file installPaths -> isAppBundlePath (target file) = true ->
        exists appPath info,
          In (appPath, info) (groupBundles installPaths) /\ In file (b_files info)).
Proof.
  destruct (groupBundles_from installPaths [] []) as (H1 & H2 & H3).
  - apply NoDup_nil_2.
  - intros k info g [].
  - intros g [].
  - cbn [app] in H2, H3. split; [exact H1 |]. split; [| exact H3].
    intros appPath info file Hin Hf.
    destruct (H2 _ _ _ Hin Hf) as (Ha & Hb & Hc).
    split; [exact Ha |]. split; [exact Hb |]. now apply getAppBundleRoot_spec.
Qed.

(** *** What reaches the plan *)

Section WithEnv.
Variable env : Env.

Lemma filterValid_kept (entries : list Entry) :
  forall fs fs' kept,
    filterValid env entries fs = (Ok kept, fs') ->
    forall e, In e kept -> isSystemFile (entryName e) = false.
Proof.
  induction entries as [| entry rest IH]; intros fs fs' kept H e He;
    cbn [filterValid] in H.
  - injection H as <- _. destruct He.
  - destruct (isSystemFile (entryName entry)) eqn:Hs.
    + eapply IH; eassumption.
    + apply bind_Ok in H as (cleanPath & fs1 & _ & H).
      apply bind_Ok in H as (kept' & fs2 & H2 & H).
      injection H as <- _.
      destruct cleanPath; [destruct He as [<- | He]; [exact Hs |] |];
        eapply IH; eassumption.
Qed.

End WithEnv.

End BundleFacts.

(** ** More on uninstalling *)

Module RemoveMore.
Import Fs Pawkit FsFacts.

Section WithEnv.
Variable env : Env.

(** The errors [remove] throws. *)
Lemma remove_throws (pawName : string) (fs fs' : FS) (e : error) :
  remove env pawName fs = (Throw e, fs') ->
  e = JsonReadError (PAWS_FILE env) \/ e = NotInstalled pawName \/
  e = TypeError \/ e = JsonWriteError (PAWS_FILE env).
Proof.
  unfold remove. destruct (readJson env fs) as [[| installed] |];
    [intros [= <- _]; auto | | intros [= <- _]; now left].
  destruct (JsObject.get installed pawName) as [info | |];
    [| intros [= <- _]; auto | intros [= <- _]; auto].
  destruct (removeAll env info fs) as [[failed | e'] fs1] eqn:E.
  - destruct (writePaws env _ fs1) as [fs2 |]; [| intros [= <- _]; auto].
    destruct (summaryThrows failed); [intros [= <- _]; auto | intros X; discriminate X].
  - intros [= <- _]. right. right. left.
    destruct (in_dec DeletePath_eq_dec NotText (deletePaths (metadata info)))
      as [Hin | Hnot].
    + destruct (ManifestFacts.removeAll_throws env info fs Hin) as [fsx Ex].
      congruence.
    + destruct (ManifestFacts.removeAll_total env info fs Hnot) as (f & fsx & Ex).
      congruence.
Qed.

Lemma removeEach_errors (paws : list string) :
  forall fs paw e,
    In (paw, e) (Cli.removeEach env paws fs).1 ->
    In paw paws /\
    (e = JsonReadError (PAWS_FILE env) \/ e = NotInstalled paw \/
     e = TypeError \/ e = JsonWriteError (PAWS_FILE env)).
Proof.
  induction paws as [| p rest IH]; intros fs paw e; cbn [Cli.removeEach];
    [intros [] |].
  destruct (remove env p fs) as [[failed | e'] fs1] eqn:E.
  - intros H. destruct (IH _ _ _ H). split; [now right | assumption].
  - specialize (IH fs1 paw e).
    destruct (Cli.removeEach env rest fs1) as [errors fs2]. cbn [fst] in IH |- *.
    intros [[= <- <-] | H].
    + split; [now left | eapply remove_throws; exact E].
    + destruct (IH H). split; [now right | assumption].
Qed.

(** *** Removals only remove *)

Lemma removeSync_shrinks (p : string) (fs fs' : FS) :
  removeSync p fs = Some fs' -> nodes fs' ⊆ nodes fs.
Proof.
  unfold removeSync. case_bool_decide; [intros X; discriminate X |].
  intros [= <-]. cbn [nodes set_nodes]. apply map_filter_subseteq.
Qed.

Hypothesis tools : Cli.rm_only_removes env.

Lemma removeBundle_shrinks (appPath : string) (fs : FS) :
  nodes (removeBundle env appPath fs).2 ⊆ nodes fs.
Proof.
  unfold removeBundle. destruct (existsSync fs appPath); [| reflexivity].
  destruct (darwin env).
  - pose proof (proj1 tools appPath fs) as Hn.
    destruct (native_rm env appPath fs) as [[|] fs1]; cbn [snd] in Hn |- *;
      [exact Hn |].
    destruct (removeSync appPath fs1) as [fs2 |] eqn:E; cbn [snd]; [| exact Hn].
    etrans; [eapply removeSync_shrinks; exact E | exact Hn].
  - destruct (removeSync appPath fs) as [fs1 |] eqn:E; cbn [snd]; [| reflexivity].
    eapply removeSync_shrinks; exact E.
Qed.

Lemma removeDeletePath_shrinks (deletePath : string) (fs : FS) :
  nodes (removeDeletePath env deletePath fs).2 ⊆ nodes fs.
Proof.
  unfold removeDeletePath.
  destruct (negb (existsSync fs (resolveDeletePath env deletePath))); [reflexivity |].
  destruct (Js.includes "Application Support" (resolveDeletePath env deletePath)).
  - pose proof (proj2 tools (resolveDeletePath env deletePath) fs) as Hn.
    destruct (existsSync (sudo_rm env _ fs) _); [| exact Hn].
    destruct (is_dir (sudo_rm env _ fs) _); exact Hn.
  - destruct (removeSync (resolveDeletePath env deletePath) fs) as [fs1 |] eqn:E;
      [| reflexivity].
    pose proof (removeSync_shrinks _ _ _ E) as Hn.
    destruct (existsSync fs1 _); exact Hn.
Qed.

Lemma removeFile_shrinks (appBundles : list string) (file : string) (fs : FS) :
  nodes (removeFile appBundles file fs).2 ⊆ nodes fs.
Proof.
  unfold removeFile.
  destruct (existsb (fun appPath => Js.startsWith file appPath) appBundles);
    [reflexivity |].
  destruct (removeSync file fs) as [fs1 |] eqn:E; [| reflexivity].
  eapply removeSync_shrinks; exact E.
Qed.

Lemma forEach_shrinks (step : string -> FS -> list string * FS) (l : list string) :
  (forall x fs, nodes (step x fs).2 ⊆ nodes fs) ->
  forall fs, nodes (forEach step l fs).2 ⊆ nodes fs.
Proof.
  intros Hstep. induction l as [| x rest IH]; intros fs; cbn [forEach];
    [reflexivity |].
  pose proof (Hstep x fs) as H1. destruct (step x fs) as [failed1 fs1].
  pose proof (IH fs1) as H2. destruct (forEach step rest fs1) as [failed2 fs2].
  cbn [snd] in *. etrans; [exact H2 | exact H1].
Qed.

Lemma removeDeletePaths_shrinks (l : list DeletePath) :
  forall fs, nodes (removeDeletePaths env l fs).2 ⊆ nodes fs.
Proof.
  induction l as [| [p |] rest IH]; intros fs; cbn [removeDeletePaths];
    [reflexivity | | reflexivity].
  unfold bind, caught, ret.
  pose proof (removeDeletePath_shrinks p fs) as H1.
  destruct (removeDeletePath env p fs) as [failed1 fs1].
  pose proof (IH fs1) as H2.
  destruct (removeDeletePaths env rest fs1) as [[failed2 | e] fs2];
    cbn [snd] in *; (etrans; [exact H2 | exact H1]).
Qed.

Lemma removeAll_shrinks (info : PawInfo) (fs : FS) :
  nodes (removeAll env info fs).2 ⊆ nodes fs.
Proof.
  unfold removeAll, bind, caught, ret.
  pose proof (forEach_shrinks (removeBundle env) (bundleRoots (files info))
                removeBundle_shrinks fs) as H1.
  destruct (forEach (removeBundle env) _ fs) as [failed1 fs1].
  pose proof (removeDeletePaths_shrinks (deletePaths (metadata info)) fs1) as H2.
  destruct (removeDeletePaths env _ fs1) as [[failed2 | e] fs2]; cbn [snd] in *;
    [| etrans; [exact H2 | exact H1]].
  pose proof (forEach_shrinks (removeFile (bundleRoots (files info))) (files info)
                (removeFile_shrinks _) fs2) as H3.
  destruct (forEach (removeFile _) _ fs2) as [failed3 fs3]. cbn [snd] in *.
  etrans; [exact H3 |]. etrans; [exact H2 | exact H1].
Qed.

(** What is read from [paws.json] after nodes were removed was there
    to be read before. *)
Lemma readPaws_shrinks (fs fs' : FS) (installed : gmap string PawInfo) :
  nodes fs' ⊆ nodes fs ->
  readPaws env fs' = Some installed -> readPaws env fs = Some installed.
Proof.
  intros Hsub. unfold readPaws, readJson.
  destruct (statSync fs' (PAWS_FILE env)) as [[data mode | |] |] eqn:E;
    try (intros X; discriminate X).
  now rewrite (statSync_mono fs' fs _ _ Hsub E).
Qed.

Hypothesis codec :
  forall installed,
    JSON_parse_paws env (JSON_stringify_paws env installed) = Some (Table installed).

(** No record of [gone] is read from [fs]. *)
Definition cleared (gone : list string) (fs : FS) : Prop :=
  forall installed,
    readPaws env fs = Some installed ->
    forall paw, In paw gone -> installed !! paw = None.

Lemma remove_cleared (pawName : string) (gone : list string) (fs : FS) :
  cleared gone fs ->
  cleared gone (remove env pawName fs).2
  /\ (forall failed, (remove env pawName fs).1 = Ok failed ->
                     cleared (pawName :: gone) (remove env pawName fs).2).
Proof.
  intros Hc. unfold remove.
  destruct (readJson env fs) as [[| installed] |] eqn:Hj;
    [split; [exact Hc | intros failed X; discriminate X] |
     | split; [exact Hc | intros failed X; discriminate X]].
  assert (Hr : readPaws env fs = Some installed) by (unfold readPaws; now rewrite Hj).
  destruct (JsObject.get installed pawName) as [info | |];
    [| split; [exact Hc | intros failed X; discriminate X]
     | split; [exact Hc | intros failed X; discriminate X]].
  pose proof (removeAll_shrinks info fs) as Hs.
  destruct (removeAll env info fs) as [[failed | e] fs1]; cbn [snd] in Hs.
  - assert (Hc1 : cleared gone fs1).
    { intros m Hm. apply (Hc m). eapply readPaws_shrinks; eassumption. }
    destruct (writePaws env (delete pawName installed) fs1) as [fs2 |] eqn:Hw;
      [| split; [exact Hc1 | intros f X; discriminate X]].
    assert (Hc2 : cleared (pawName :: gone) fs2).
    { intros m Hm.
      rewrite (ManifestFacts.readPaws_writePaws env _ fs1 fs2 (codec _) Hw) in Hm.
      injection Hm as <-. intros paw [<- | Hin].
      - apply lookup_delete_eq.
      - destruct (decide (paw = pawName)) as [-> | Hne];
          [apply lookup_delete_eq |].
        rewrite lookup_delete_ne by congruence. now apply (Hc installed Hr). }
    assert (Hc2' : cleared gone fs2).
    { intros m Hm paw Hin. apply (Hc2 m Hm). now right. }
    destruct (summaryThrows failed); cbn [fst snd];
      (split; [exact Hc2' |]); [intros f X; discriminate X | intros f _; exact Hc2].
  - split; [| intros f X; discriminate X]. cbn [snd].
    intros m Hm. apply (Hc m). eapply readPaws_shrinks; eassumption.
Qed.

Lemma removeEach_cleared (paws : list string) :
  forall (gone : list string) (fs : FS),
    cleared gone fs ->
    forall paw,
      In paw gone \/
      (In paw paws /\ forall e, ~ In (paw, e) (Cli.removeEach env paws fs).1) ->
      forall installed,
        readPaws env (Cli.removeEach env paws fs).2 = Some installed ->
        installed !! paw = None.
Proof.
  induction paws as [| p rest IH]; intros gone fs Hc paw;
    cbn [Cli.removeEach].
  - cbn [snd]. intros Hpaw installed Hr.
    destruct Hpaw as [Hin | [[] _]]. now apply (Hc installed Hr).
  - destruct (remove_cleared p gone fs Hc) as [Hkeep Hadd].
    destruct (remove env p fs) as [[failed | e] fs1] eqn:E; cbn [fst snd] in *.
    + intros Hpaw installed.
      apply (IH (p :: gone) fs1 (Hadd failed eq_refl) paw).
      destruct Hpaw as [Hin | [[<- | Hin] Hno]].
      * left. now right.
      * left. now left.
      * right. split; [exact Hin | exact Hno].
    + specialize (IH gone fs1 Hkeep paw).
      destruct (Cli.removeEach env rest fs1) as [errors fs2]. cbn [fst snd] in *.
      intros Hpaw installed.
      apply IH. destruct Hpaw as [Hin | [[<- | Hin] Hno]].
      * now left.
      * elim (Hno e). now left.
      * right. split; [exact Hin |]. intros e' He'. apply (Hno e'). now right.
Qed.

End WithEnv.

(** X15: The [delete] command on a list of names that is not empty: the
    process ends normally, whatever the removals did.  Every error
    that is printed belongs to a name of the list and is one of those
    [remove] throws: [paws.json] could not be read or written, the
    name has no record, or a TypeError.  And when [JSON] reads back
    what it wrote and the external [rm] commands only remove, a name of
    the list for which no error is printed has no record in the
    [paws.json] the command leaves. *)
Theorem delete_command_clears_every_name
    (env : Env) (paws : list string) (fs : FS) :
  paws <> [] ->
  (Cli.deleteCommand env paws fs).1.1 = 0%Z
  /\ (forall paw e, In (paw, e) (Cli.deleteCommand env paws fs).1.2 ->
        In paw paws /\
        (e = JsonReadError (PAWS_FILE env) \/ e = NotInstalled paw \/
         e = TypeError \/ e = JsonWriteError (PAWS_FILE env)))
  /\ (Cli.rm_only_removes env ->
      (forall installed,
          JSON_parse_paws env (JSON_stringify_paws env installed)
          = Some (Table installed)) ->
      forall paw,
        In paw paws ->
        (forall e, ~ In (paw, e) (Cli.deleteCommand env paws fs).1.2) ->
        forall installed,
          readPaws env (Cli.deleteCommand env paws fs).2 = Some installed ->
          installed !! paw = None).
Proof.
  intros Hne. unfold Cli.deleteCommand.
  destruct paws as [| p rest]; [now elim Hne |].
  pose proof (removeEach_errors env (p :: rest) fs) as He.
  split; [| split].
  - now destruct (Cli.removeEach env (p :: rest) fs).
  - destruct (Cli.removeEach env (p :: rest) fs) as [errors fs']. exact He.
  - intros Htools Hcodec paw Hin Hno installed Hr.
    pose proof (removeEach_cleared env Htools Hcodec (p :: rest) [] fs) as Hc.
    destruct (Cli.removeEach env (p :: rest) fs) as [errors fs'].
    cbn [fst snd] in *.
    apply (Hc (fun m _ q (X : In q []) => match X with end) paw); [| exact Hr].
    right. split; [exact Hin | exact Hno].
Qed.

(** *** The deletion passes *)




Lemma removeSync_locked (p : string) (fs : FS) :
  removeSync p fs = None -> exists q, q ∈ locked fs /\ under p q = true.
Proof.
  unfold removeSync. case_bool_decide as H; [| discriminate].
  intros _. destruct H as (q & Hq & Hu). eauto.
Qed.


Lemma bundleRoots_plain (recorded : list string) :
  (forall f, In f recorded -> isAppBundlePath f = false) -> bundleRoots recorded = [].
Proof.
  intros H. unfold bundleRoots.
  assert (E : omap (fun file => if isAppBundlePath file
                                then getAppBundleRoot file else None) recorded = []).
  { induction recorded as [| f rest IH]; [reflexivity |]. cbn [omap list_omap].
    rewrite (H f) by now left. apply IH. intros g Hg. apply H. now right. }
  now rewrite E.
Qed.

Lemma forEach_removeFile (l : list string) :
  forall fs,
    let run := forEach (removeFile []) l fs in
    locked run.2 = locked fs
    /\ (forall q, nodes run.2 !! q = nodes fs !! q \/ nodes run.2 !! q = None)
    /\ (forall q, (forall f, In f l -> under f q = false) ->
                  nodes run.2 !! q = nodes fs !! q)
    /\ (forall f, In f l -> ~ In f run.1 ->
                  forall q, under f q = true -> nodes run.2 !! q = None)
    /\ (forall f, In f run.1 ->
                  In f l /\ exists q, q ∈ locked fs /\ under f q = true).
Proof.
  induction l as [| x rest IH]; intros fs; cbn zeta; cbn [forEach].
  - cbn [fst snd]. split; [reflexivity |]. split; [intros q; now left |].
    split; [reflexivity |]. split; [intros f [] | intros f []].
  - assert (Hstep : removeFile [] x fs =
                    match removeSync x fs with
                    | Some fs1 => ([], fs1)
                    | None => ([x], fs)
                    end) by reflexivity.
    rewrite Hstep. clear Hstep.
    destruct (removeSync x fs) as [fs1 |] eqn:E.
    + destruct (removeSync_effect _ _ _ E) as (Hl & Hout & Hin).
      specialize (IH fs1). cbn zeta in IH.
      destruct (forEach (removeFile []) rest fs1) as [failed2 fs2].
      cbn [fst snd app] in IH |- *.
      destruct IH as (IHl & IHs & IHo & IHg & IHf).
      split; [congruence |]. split; [| split; [| split]].
      * intros q. destruct (IHs q) as [Hq | Hq]; [| now right].
        rewrite Hq. destruct (under x q) eqn:U; [right; now apply Hin |].
        left. now apply Hout.
      * intros q Hq. rewrite IHo by (intros f Hf; apply Hq; now right).
        apply Hout. apply Hq. now left.
      * intros f [<- | Hf] Hnf q Hu.
        -- destruct (IHs q) as [Hq | Hq]; [| exact Hq]. rewrite Hq. now apply Hin.
        -- now apply (IHg f Hf Hnf).
      * intros f Hf. destruct (IHf f Hf) as (Hin' & q & Hq & Hu).
        split; [now right |]. exists q. split; [congruence | exact Hu].
    + apply removeSync_locked in E as (ql & Hql & Hul).
      specialize (IH fs). cbn zeta in IH.
      destruct (forEach (removeFile []) rest fs) as [failed2 fs2].
      cbn [fst snd app] in IH |- *.
      destruct IH as (IHl & IHs & IHo & IHg & IHf).
      split; [exact IHl |]. split; [exact IHs |]. split; [| split].
      * intros q Hq. apply IHo. intros f Hf. apply Hq. now right.
      * intros f [<- | Hf] Hnf q Hu.
        -- elim Hnf. now left.
        -- apply (IHg f Hf); [| exact Hu]. intros Hin'. apply Hnf. now right.
      * intros f [<- | Hf].
        -- split; [now left | eauto].
        -- destruct (IHf f Hf) as (Hin' & Hq). split; [now right | exact Hq].
Qed.

Section Passes.
Variable env : Env.


End Passes.


(** X17: The removal of a paw that recorded no application bundle and has
    no delete paths: the deletion passes return; every recorded path
    that is not reported as failed is gone, with everything below it;
    a path that is reported is a recorded one with a locked path at or
    below it; and what is not at or below a recorded path is
    untouched. *)
Theorem remove_deletes_recorded_files (env : Env) (info : PawInfo) (fs : FS) :
  deletePaths (metadata info) = [] ->
  (forall f, In f (files info) -> isAppBundlePath f = false) ->
  exists failed fs',
    removeAll env info fs = (Ok failed, fs')
    /\ (forall f, In f (files info) -> ~ In f failed ->
                  forall q, under f q = true -> nodes fs' !! q = None)
    /\ (forall f, In f failed ->
                  In f (files info) /\ exists q, q ∈ locked fs /\ under f q = true)
    /\ (forall q, (forall f, In f (files info) -> under f q = false) ->
                  nodes fs' !! q = nodes fs !! q)
    /\ locked fs' = locked fs.
Proof.
  intros Hd Hb. unfold removeAll. rewrite Hd, (bundleRoots_plain _ Hb).
  cbn [forEach removeDeletePaths]. unfold bind, caught, ret. cbv beta iota zeta.
  pose proof (forEach_removeFile (files info) fs) as H.
  cbn zeta in H. destruct (forEach (removeFile []) (files info) fs) as [failed fs'].
  cbn [fst snd app] in *. exists failed, fs'. split; [reflexivity | tauto].
Qed.

End RemoveMore.

Module RemoveMoreExamples.
Import Fs Pawkit Demo InstallExamples RemoveMore.

(** The stand-in for [JSON] reads back what it wrote. *)
Lemma numeral_value_numeral (p : positive) : numeral_value (numeral p) = Some p.
Proof. induction p as [q IH | q IH |]; cbn; now rewrite ?IH. Qed.

Lemma parse_stringify_paws (installed : gmap string PawInfo) :
  parse_paws (stringify_paws installed) = Some (Table installed).
Proof.
  unfold parse_paws, stringify_paws. rewrite numeral_value_numeral.
  now rewrite decode_encode.
Qed.

Lemma delete_command_clears_every_name_witness :
  (Cli.deleteCommand (env_with false false "" []) ["stuck"; "ghost"] stuck_disk).1.1
    = 0%Z
  /\ (Cli.deleteCommand (env_with false false "" []) ["stuck"; "ghost"] stuck_disk).1.2
       = [("ghost", NotInstalled "ghost")]
  /\ (forall installed,
        readPaws (env_with false false "" [])
          (Cli.deleteCommand (env_with false false "" []) ["stuck"; "ghost"]
             stuck_disk).2 = Some installed ->
        installed !! "stuck" = None).
Proof.
  assert (Herr : (Cli.deleteCommand (env_with false false "" []) ["stuck"; "ghost"]
                    stuck_disk).1.2 = [("ghost", NotInstalled "ghost")])
    by (vm_compute; reflexivity).
  destruct (delete_command_clears_every_name (env_with false false "" [])
              ["stuck"; "ghost"] stuck_disk) as (Hcode & _ & Hgone).
  { intros E. discriminate E. }
  split; [exact Hcode | split; [exact Herr |]].
  apply Hgone.
  - split; intros p fs; reflexivity.
  - exact parse_stringify_paws.
  - now left.
  - rewrite Herr. intros e [E | []]. discriminate E.
Defined.


Lemma remove_deletes_recorded_files_witness :
  exists failed fs',
    removeAll (env_with false false "" []) stuck_info stuck_disk = (Ok failed, fs')
    /\ (forall f, In f (files stuck_info) -> ~ In f failed ->
                  forall q, under f q = true -> nodes fs' !! q = None)
    /\ (forall f, In f failed ->
                  In f (files stuck_info) /\
                  exists q, q ∈ locked stuck_disk /\ under f q = true)
    /\ (forall q, (forall f, In f (files stuck_info) -> under f q = false) ->
                  nodes fs' !! q = nodes stuck_disk !! q)
    /\ locked fs' = locked stuck_disk.
Proof.
  apply (remove_deletes_recorded_files (env_with false false "" []) stuck_info
           stuck_disk).
  - reflexivity.
  - intros f Hf. cbn [files stuck_info In] in Hf.
    destruct Hf as [<- | [<- | []]]; vm_compute; reflexivity.
Defined.

End RemoveMoreExamples.

(** ** Repositories *)

Module ReposFacts.
Import Fs Repos.

Lemma findIndex_Some (p : Repo -> bool) (l : list Repo) :
  forall i, findIndex p l = Some i ->
    exists l1 x l2, l = l1 ++ x :: l2 /\ length l1 = i /\ p x = true /\
                    (forall y, In y l1 -> p y = false).
Proof.
  induction l as [| r rest IH]; intros i; cbn [findIndex]; [discriminate |].
  destruct (p r) eqn:E.
  - intros [= <-]. exists [], r, rest. repeat split; auto. intros y [].
  - destruct (findIndex p rest) as [j |]; [| discriminate]. intros [= <-].
    destruct (IH j eq_refl) as (l1 & x & l2 & -> & Hlen & Hx & Hl1).
    exists (r :: l1), x, l2. cbn [length app]. repeat split; auto.
    intros y [<- | Hy]; auto.
Qed.

Lemma findIndex_None (p : Repo -> bool) (l : list Repo) :
  findIndex p l = None -> forall y, In y l -> p y = false.
Proof.
  induction l as [| r rest IH]; cbn [findIndex]; [intros _ y [] |].
  destruct (p r) eqn:E; [discriminate |].
  destruct (findIndex p rest); [discriminate |].
  intros _ y [<- | Hy]; auto.
Qed.

Lemma splice1_middle (l1 l2 : list Repo) (x : Repo) :
  splice1 (length l1) (l1 ++ x :: l2) = l1 ++ l2.
Proof.
  unfold splice1. induction l1 as [| a l1 IH]; [reflexivity |].
  cbn [length app take drop]. cbn [app]. f_equal. exact IH.
Qed.

(** X19: [removeRepo] takes out one repository, the first of that name: the
    repositories before it have other names, and those after it stay,
    also the ones of the same name, [addRepo] not caring for names.
    It throws when no repository has the name, and changes nothing
    then. *)
Theorem removeRepo_takes_first_of_name (name : string) (repositories : list Repo) :
  match removeRepo name repositories with
  | (Done _, repositories') =>
      exists before repo after,
        repositories = before ++ repo :: after
        /\ r_name repo = name
        /\ (forall r, In r before -> r_name r <> name)
        /\ repositories' = before ++ after
  | (Failed e, repositories') =>
      e = RepositoryNotFound name
      /\ repositories' = repositories
      /\ (forall r, In r repositories -> r_name r <> name)
  end.
Proof.
  unfold removeRepo.
  destruct (findIndex (fun r => String.eqb (r_name r) name) repositories)
    as [i |] eqn:E.
  - destruct (findIndex_Some _ _ _ E) as (l1 & x & l2 & -> & <- & Hx & Hl1).
    exists l1, x, l2. rewrite splice1_middle. repeat split.
    + now apply String.eqb_eq.
    + intros r Hr. apply String.eqb_neq. now apply Hl1.
  - repeat split. intros r Hr. apply String.eqb_neq.
    now apply (findIndex_None _ _ E).
Qed.

Lemma existsb_url (u : string) (repositories : list Repo) :
  existsb (fun r => String.eqb (url r) u) repositories = false ->
  u ∉ map url repositories.
Proof.
  intros H Hin. apply list_elem_of_In, in_map_iff in Hin as (r & Hr & Hin).
  rewrite FsFacts.existsb_false in H. specialize (H r Hin). cbn in H.
  apply String.eqb_neq in H. congruence.
Qed.

(** X20: [addRepo] keeps the URLs of the list distinct.  A call that
    returns has appended one repository, with the URL it was given,
    the time of the call and no update time, and that URL was not in
    the list; from then on every call with that URL throws, whatever
    the network answers.  A call that throws leaves the list as it
    was. *)
Theorem addRepo_keeps_urls_unique
    (net : Net) (fs : FS) (url0 : string) (repositories : list Repo) :
  (unique_urls repositories -> unique_urls (addRepo net fs url0 repositories).2)
  /\ match (addRepo net fs url0 repositories).1 with
     | Done _ =>
         exists repo,
           (addRepo net fs url0 repositories).2 = repositories ++ [repo]
           /\ url repo = url0 /\ addedDate repo = today net
           /\ lastUpdated repo = None
           /\ (forall r, In r repositories -> url r <> url0)
           /\ (forall net' fs',
                 addRepo net' fs' url0 (repositories ++ [repo]) =
                   (Failed AlreadyExists, repositories ++ [repo]) \/
                 exists e, fetchRepo net' fs' url0 = Failed e /\
                           addRepo net' fs' url0 (repositories ++ [repo]) =
                             (Failed e, repositories ++ [repo]))
     | Failed _ => (addRepo net fs url0 repositories).2 = repositories
     end.
Proof.
  unfold addRepo. destruct (fetchRepo net fs url0) as [repoData | e];
    [| cbn [fst snd]; auto].
  destruct (existsb (fun r => String.eqb (url r) url0) repositories) eqn:E;
    cbn [fst snd]; [auto |].
  destruct repoData as [| d]; cbn [fst snd]; [auto |].
  split.
  - unfold unique_urls. intros Hnd. rewrite map_app. cbn [map url].
    apply NoDup_app. split; [exact Hnd |]. split.
    + intros x Hx Hx'. apply list_elem_of_singleton in Hx'. subst x.
      now apply (existsb_url _ _ E).
    + apply NoDup_singleton.
  - eexists. split; [reflexivity |]. cbn [url addedDate lastUpdated].
    repeat split.
    + intros r Hr. rewrite FsFacts.existsb_false in E. specialize (E r Hr).
      cbn in E. now apply String.eqb_neq.
    + intros net' fs'. destruct (fetchRepo net' fs' url0) as [d' | e']; [| eauto].
      left. rewrite existsb_app. cbn [existsb url]. rewrite String.eqb_refl.
      now rewrite orb_true_r.
Qed.

(** *** Updating *)

Lemma findIndex_lookup (p : Repo -> bool) (l : list Repo) (i : nat) :
  findIndex p l = Some i -> exists r, l !! i = Some r /\ p r = true.
Proof.
  revert i. induction l as [| x rest IH]; intros i; cbn [findIndex]; [discriminate |].
  destruct (p x) eqn:E.
  - intros [= <-]. exists x. auto.
  - destruct (findIndex p rest) as [j |]; [| discriminate]. intros [= <-].
    destruct (IH j eq_refl) as (r & Hr & Hp). exists r. auto.
Qed.

Lemma findIndex_names (name : string) (l l' : list Repo) :
  map r_name l = map r_name l' ->
  indexOfName name l = indexOfName name l'.
Proof.
  unfold indexOfName. revert l'.
  induction l as [| x rest IH]; intros [| y rest']; cbn [map findIndex];
    try discriminate; [reflexivity |].
  intros [= Hn Hrest]. rewrite Hn. destruct (String.eqb (r_name y) name);
    [reflexivity |]. now rewrite (IH rest' Hrest).
Qed.

Lemma names_insert_stamped (net : Net) (l : list Repo) (i : nat) (r : Repo) :
  l !! i = Some r -> map r_name (<[i := stamped net r]> l) = map r_name l.
Proof.
  revert i. induction l as [| x rest IH]; intros [| i]; cbn; try discriminate.
  - now intros [= ->].
  - intros H. f_equal. now apply IH.
Qed.

Lemma updateRepo_effect (net : Net) (fs : FS) (name : string)
    (repositories repositories' : list Repo) (o : outcome unit) :
  updateRepo net fs name repositories = (o, repositories') ->
  match o with
  | Done _ =>
      exists i r, indexOfName name repositories = Some i
                  /\ repositories !! i = Some r /\ r_name r = name
                  /\ repositories' = <[i := stamped net r]> repositories
  | Failed e =>
      repositories' = repositories /\
      (e = RepositoryNotFound name /\ indexOfName name repositories = None \/
       exists cause, e = FailedToUpdate name cause)
  end.
Proof.
  unfold updateRepo, indexOfName.
  destruct (findIndex (fun r => String.eqb (r_name r) name) repositories)
    as [i |] eqn:E.
  - destruct (findIndex_lookup _ _ _ E) as (r & Hr & Hp). rewrite Hr.
    destruct (fetchRepo net fs (url r)) as [d | e] eqn:F.
    + intros [= <- <-]. exists i, r. repeat split; auto.
      now apply String.eqb_eq.
    + intros [= <- <-]. split; [reflexivity |]. right. eauto.
  - intros [= <- <-]. auto.
Qed.

Lemma stamped_twice (net : Net) (r : Repo) : stamped net (stamped net r) = stamped net r.
Proof. reflexivity. Qed.

Lemma updateEach_effect (net : Net) (fs : FS) (names : list string) :
  forall cur repositories',
    updateEach net fs names cur = (Done tt, repositories') ->
    forall i r, cur !! i = Some r ->
      repositories' !! i =
        Some (if bool_decide (indexOfName (r_name r) cur = Some i /\ r_name r ∈ names)
              then stamped net r else r).
Proof.
  induction names as [| n rest IH]; intros cur repositories' H i r Hi;
    cbn [updateEach] in H.
  - injection H as <-. rewrite Hi. f_equal.
    rewrite bool_decide_eq_false_2; [reflexivity |].
    intros [_ Hin]. now apply elem_of_nil in Hin.
  - destruct (updateRepo net fs n cur) as [[[] | e] cur1] eqn:U; [| discriminate H].
    apply updateRepo_effect in U as (j & rj & Hj & Hrj & Hnj & ->).
    pose proof (names_insert_stamped net cur j rj Hrj) as Hnames.
    destruct (decide (i = j)) as [-> | Hne].
    + assert (r = rj) as -> by congruence.
      assert (Hcur1 : <[j := stamped net rj]> cur !! j = Some (stamped net rj)).
      { apply list_lookup_insert_eq. now apply lookup_lt_Some in Hrj. }
      rewrite (IH _ _ H j _ Hcur1). f_equal.
      rewrite (bool_decide_eq_true_2
                 (indexOfName (r_name rj) cur = Some j /\ r_name rj ∈ n :: rest)).
      * now case_bool_decide.
      * split; [congruence |]. rewrite Hnj. apply elem_of_cons. now left.
    + assert (Hcur1 : <[j := stamped net rj]> cur !! i = Some r).
      { rewrite list_lookup_insert_ne by congruence. exact Hi. }
      rewrite (IH _ _ H i _ Hcur1). f_equal.
      rewrite (findIndex_names (r_name r) _ _ Hnames).
      case_bool_decide as H1; case_bool_decide as H2; try reflexivity.
      * elim H2. destruct H1 as [H1 H1']. split; [exact H1 |].
        apply elem_of_cons. now right.
      * elim H1. destruct H2 as [H2 H2']. split; [exact H2 |].
        apply elem_of_cons in H2' as [H2' | H2']; [| exact H2'].
        rewrite H2' in H2. congruence.
Qed.

Lemma updateEach_failure (net : Net) (fs : FS) (names : list string) :
  forall cur repositories' e,
    updateEach net fs names cur = (Failed e, repositories') ->
    (forall n, n ∈ names -> indexOfName n cur <> None) ->
    exists n cause, n ∈ names /\ e = FailedToUpdate n cause.
Proof.
  induction names as [| n rest IH]; intros cur repositories' e H Hall;
    cbn [updateEach] in H; [discriminate H |].
  destruct (updateRepo net fs n cur) as [[[] | e'] cur1] eqn:U.
  - apply updateRepo_effect in U as (j & rj & Hj & Hrj & Hnj & ->).
    destruct (IH _ _ _ H) as (m & cause & Hm & ->).
    + intros m Hm. rewrite (findIndex_names m _ cur).
      * apply Hall. apply elem_of_cons. now right.
      * now apply names_insert_stamped.
    + exists m, cause. split; [apply elem_of_cons; now right | reflexivity].
  - injection H as <- <-.
    apply updateRepo_effect in U as (_ & [[_ Hnone] | [cause ->]]).
    + elim (Hall n); [apply elem_of_cons; now left | exact Hnone].
    + exists n, cause. split; [apply elem_of_cons; now left | reflexivity].
Qed.

Lemma indexOfName_present (l : list Repo) (r : Repo) :
  In r l -> indexOfName (r_name r) l <> None.
Proof.
  intros Hin E. pose proof (findIndex_None _ _ E r Hin) as H. cbn in H.
  now rewrite String.eqb_refl in H.
Qed.

(** X21: [updateAllRepos] that returns has put the time of the run on the
    first repository of every name and left every other field, and
    every repository that comes after one of the same name, as it
    was: [updateRepo] finds a repository by its name.  When it throws,
    it is because a repository could not be read, never because a
    name was not found. *)
Theorem updateAllRepos_stamps_first_of_each_name
    (net : Net) (fs : FS) (repositories : list Repo) :
  match updateAllRepos net fs repositories with
  | (Done _, repositories') =>
      forall i r, repositories !! i = Some r ->
        repositories' !! i =
          Some (if bool_decide (indexOfName (r_name r) repositories = Some i)
                then stamped net r else r)
  | (Failed e, _) =>
      exists r cause, In r repositories /\ e = FailedToUpdate (r_name r) cause
  end.
Proof.
  unfold updateAllRepos.
  destruct (updateEach net fs (map r_name repositories) repositories)
    as [[[] | e] repositories'] eqn:U.
  - intros i r Hi. rewrite (updateEach_effect _ _ _ _ _ U i r Hi). f_equal.
    assert (Hin : r_name r ∈ map r_name repositories).
    { apply list_elem_of_fmap. exists r. split; [reflexivity |].
      eapply list_elem_of_lookup_2. exact Hi. }
    case_bool_decide as H1; case_bool_decide as H2; try reflexivity; tauto.
  - destruct (updateEach_failure _ _ _ _ _ _ U) as (n & cause & Hn & ->).
    + intros n Hn. apply list_elem_of_fmap in Hn as (r & -> & Hr).
      apply indexOfName_present. now apply list_elem_of_In.
    + apply list_elem_of_fmap in Hn as (r & -> & Hr).
      exists r, cause. split; [now apply list_elem_of_In | reflexivity].
Qed.

End ReposFacts.

(** ** Configuration *)

Module ConfigFacts.
Import Fs Pawkit.

Lemma set_confirm_installation (input : option string)
    (configData configData' : gmap string Config.value) :
  Config.set (Some "confirm_installation") input configData = Some configData' ->
  Config.confirm_installation configData' =
    match input with
    | Some s => negb (String.eqb s "false") && negb (String.eqb s "")
    | None => false
    end.
Proof.
  unfold Config.set, Config.assign. cbn [String.eqb Ascii.eqb Bool.eqb andb].
  intros [= <-]. unfold Config.confirm_installation, Config.coerce.
  destruct input as [s |].
  - destruct (String.eqb s "true") eqn:Et.
    { apply String.eqb_eq in Et as ->. now rewrite lookup_insert_eq. }
    destruct (String.eqb s "false") eqn:Ef.
    { now rewrite lookup_insert_eq. }
    rewrite lookup_insert_eq. reflexivity.
  - now rewrite lookup_delete_eq.
Qed.

(** X24: What [config set confirm_installation <value>] does to the next
    install that is not forced, has no conflict, and gets another
    answer than [y] or [yes] at the prompt.  The install goes on
    without asking when the value is [false] or the empty string, or
    when no value was given, which drops the key from the file; with
    any other value, [no] and [0] among them, the user is asked and
    the install is cancelled. *)
Theorem only_false_turns_confirmation_off
    (env : Env) (input : option string)
    (configData configData' : gmap string Config.value)
    (installPaths : list InstallPath) (fs : FS) :
  Config.set (Some "confirm_installation") input configData = Some configData' ->
  Pawkit.confirm_installation env = Config.confirm_installation configData' ->
  PAWKIT_FORCE_INSTALL env = false ->
  existingFiles env fs installPaths = [] ->
  answer env <> "y" ->
  answer env <> "yes" ->
  confirmInstall env installPaths fs =
    (match input with
     | Some s => if String.eqb s "false" || String.eqb s ""
                 then Ok tt else Throw CancelledByUser
     | None => Ok tt
     end, fs).
Proof.
  intros Hset Hc Hforce Hex Hy Hyes.
  rewrite (set_confirm_installation _ _ _ Hset) in Hc.
  unfold confirmInstall, bind, get, throw, ret. rewrite Hex, Hforce, Hc.
  apply String.eqb_neq in Hy, Hyes. rewrite Hy, Hyes. cbn [length Nat.eqb negb andb].
  destruct input as [s |]; [| reflexivity].
  destruct (String.eqb s "false"), (String.eqb s ""); reflexivity.
Qed.

(** X25: [config set] writes the value under the key and nothing else:
    [true] and [false] are stored as booleans, any other text as it
    is, and a missing value removes the key.  The one key that cannot
    be created is [__proto__], where the file stays as it was; and the
    call throws exactly when the key is missing or empty. *)
Theorem config_set_writes_one_key
    (key input : option string) (configData : gmap string Config.value) :
  match Config.set key input configData with
  | Some configData' =>
      exists k, key = Some k /\ k <> ""
        /\ (forall k', k' <> k -> configData' !! k' = configData !! k')
        /\ (if String.eqb k "__proto__" && bool_decide (configData !! k = None)
            then configData' = configData
            else configData' !! k = Config.coerce input)
  | None => key = None \/ key = Some ""
  end.
Proof.
  unfold Config.set. destruct key as [k |]; [| now left].
  destruct (String.eqb k "") eqn:E.
  { apply String.eqb_eq in E as ->. now right. }
  exists k. split; [reflexivity |]. split; [now apply String.eqb_neq |].
  unfold Config.assign.
  destruct (String.eqb k "__proto__" && bool_decide (configData !! k = None)).
  - split; [reflexivity | reflexivity].
  - destruct (Config.coerce input) as [v |].
    + split; [intros k' Hk'; now apply lookup_insert_ne | apply lookup_insert_eq].
    + split; [intros k' Hk'; now apply lookup_delete_ne | apply lookup_delete_eq].
Qed.

End ConfigFacts.

Module ConfigExamples.
Import Fs Pawkit Demo ConfigFacts.

Lemma only_false_turns_confirmation_off_witness :
  confirmInstall (env_with false true "n" hello_leaves) [] (disk []) =
    (Throw CancelledByUser, disk []).
Proof.
  apply (only_false_turns_confirmation_off (env_with false true "n" hello_leaves)
           (Some "no") ∅ (<["confirm_installation" := Config.VString "no"]> ∅)
           [] (disk [])).
  - reflexivity.
  - vm_compute. reflexivity.
  - reflexivity.
  - reflexivity.
  - intros E. discriminate E.
  - intros E. discriminate E.
Defined.

End ConfigExamples.

(** ** The plan is complete *)

Module PlanComplete.
Import Fs Pawkit FsFacts MFacts InstallFacts.
Local Open Scope m_scope.

Lemma grows_subset (fs fs' : FS) : grows fs fs' -> nodes fs ⊆ nodes fs'.
Proof.
  intros G. apply map_subseteq_spec. intros q n H.
  destruct (G q) as [E | [N _]]; congruence.
Qed.

(** A [mkdir -p] that went through goes through again after
    directories were added. *)
Lemma ensureDirSync_later (d : string) (fs fs1 fs' : FS) :
  ensureDirSync d fs = Some fs1 -> grows fs fs' ->
  exists fs'', ensureDirSync d fs' = Some fs''.
Proof.
  unfold ensureDirSync. intros H G.
  destruct (existsb (blocks_mkdir fs) (chain d)) eqn:E; [discriminate |].
  assert (E' : existsb (blocks_mkdir fs') (chain d) = false).
  { rewrite existsb_false in E |- *. intros q Hq. specialize (E q Hq).
    unfold blocks_mkdir in E |- *.
    destruct (G q) as [Same | [Hnone Hdir]].
    - rewrite Same. destruct (nodes fs !! q) as [n |]; [| reflexivity].
      apply negb_false_iff in E. apply negb_false_iff.
      eapply is_dir_mono; [apply grows_subset; exact G | exact E].
    - rewrite Hdir. apply negb_false_iff. now apply is_dir_here. }
  rewrite E'. eauto.
Qed.

Lemma cleanAndMapPath_later (home p d : string) (fs fs' : FS) :
  (Resolver.cleanAndMapPath home p fs).1 = Some d ->
  grows fs fs' ->
  (Resolver.cleanAndMapPath home p fs').1 = Some d.
Proof.
  unfold Resolver.cleanAndMapPath. intros H G.
  destruct (Resolver.map_marker home (Resolver.clean p)) as [m |]; [exact H |].
  destruct (Js.includes "metadata/" (Resolver.clean p)); [| discriminate H].
  destruct (ensureDirSync (Resolver.metadataDir home) fs) as [fs1 |] eqn:E;
    [| discriminate H].
  destruct (ensureDirSync_later _ _ _ _ E G) as [fs'' ->]. exact H.
Qed.

Section WithEnv.
Variable env : Env.

Lemma resolvePath_later (p d : string) (fs s s' : FS) (r : option string) :
  (Resolver.cleanAndMapPath (USER_HOME env) p fs).1 = Some d ->
  grows fs s ->
  resolvePath env p s = (Ok r, s') ->
  r = Some d.
Proof.
  intros H G. unfold resolvePath.
  pose proof (cleanAndMapPath_later _ _ _ _ _ H G) as Hl.
  destruct (Resolver.cleanAndMapPath (USER_HOME env) p s) as [o sx].
  cbn [fst] in Hl. now intros [= <- _].
Qed.

Lemma filterValid_complete (fs : FS) (entries : list Entry) :
  forall s s' kept,
    grows fs s ->
    filterValid env entries s = (Ok kept, s') ->
    forall entry d,
      In entry entries ->
      isSystemFile (entryName entry) = false ->
      (Resolver.cleanAndMapPath (USER_HOME env) (entryName entry) fs).1 = Some d ->
      In entry kept.
Proof.
  induction entries as [| x rest IH]; intros s s' kept G H entry d Hin Hs Hr;
    [destruct Hin |].
  cbn [filterValid] in H. destruct (isSystemFile (entryName x)) eqn:Hx.
  - destruct Hin as [-> | Hin]; [congruence |]. eapply IH; eassumption.
  - apply bind_Ok in H as (cleanPath & s1 & H1 & H).
    apply bind_Ok in H as (kept' & s2 & H2 & H).
    injection H as <- _.
    assert (G1 : grows fs s1).
    { etrans; [exact G | eapply resolvePath_grows; exact H1]. }
    destruct Hin as [-> | Hin].
    + rewrite (resolvePath_later _ _ _ _ _ _ Hr G H1). now left.
    + assert (Hk : In entry kept') by (eapply IH; eassumption).
      destruct cleanPath; [now right | exact Hk].
Qed.

Lemma mapInstallPaths_complete (fs : FS) (l : list Entry) :
  forall s s' installPaths,
    grows fs s ->
    mapInstallPaths env l s = (Ok installPaths, s') ->
    forall entry d,
      In entry l ->
      (Resolver.cleanAndMapPath (USER_HOME env) (entryName entry) fs).1 = Some d ->
      exists file,
        In file installPaths /\ source file = fullPath entry /\ target file = d
        /\ ip_isSymlink file = isSymlink entry
        /\ ip_linkTarget file = linkTarget entry.
Proof.
  induction l as [| x rest IH]; intros s s' installPaths G H entry d Hin Hr;
    [destruct Hin |].
  cbn [mapInstallPaths] in H.
  apply bind_Ok in H as (mapped & s1 & H1 & H).
  apply bind_Ok in H as (stats & s2 & H2 & H).
  apply bind_Ok in H as (more & s3 & H3 & H).
  injection H as <- _.
  assert (G1 : grows fs s1).
  { etrans; [exact G | eapply resolvePath_grows; exact H1]. }
  assert (G2 : grows fs s2).
  { destruct (lstatSync s1 (fullPath x)); [| discriminate H2].
    injection H2 as _ <-. exact G1. }
  destruct Hin as [-> | Hin].
  - rewrite (resolvePath_later _ _ _ _ _ _ Hr G H1).
    eexists. split; [now left |]. cbn. auto.
  - destruct (IH _ _ _ G2 H3 entry d Hin Hr) as (file & Hf & Hrest).
    exists file. split; [| exact Hrest]. destruct mapped; [now right | exact Hf].
Qed.

(** A plan entry, seen from the file system the planning ends in. *)
Lemma mapInstallPaths_at_end (l : list Entry) :
  forall fs fs' installPaths,
    mapInstallPaths env l fs = (Ok installPaths, fs') ->
    forall file, In file installPaths ->
      exists entry,
        In entry l /\ source file = fullPath entry
        /\ ip_isSymlink file = isSymlink entry
        /\ ip_linkTarget file = linkTarget entry
        /\ (Resolver.cleanAndMapPath (USER_HOME env) (entryName entry) fs').1 =
             Some (target file)
        /\ lstatSync fs' (fullPath entry) = Some (sourceStats file).
Proof.
  induction l as [| entry rest IH]; intros fs fs' installPaths H file Hf;
    cbn [mapInstallPaths] in H.
  - injection H as <- _. destruct Hf.
  - apply bind_Ok in H as (mapped & fs1 & H1 & H).
    apply bind_Ok in H as (stats & fs2 & H2 & H).
    apply bind_Ok in H as (more & fs3 & H3 & H).
    injection H as <- <-.
    assert (Hmore : In file more ->
              exists entry0,
                In entry0 (entry :: rest) /\ source file = fullPath entry0
                /\ ip_isSymlink file = isSymlink entry0
                /\ ip_linkTarget file = linkTarget entry0
                /\ (Resolver.cleanAndMapPath (USER_HOME env) (entryName entry0) fs3).1 =
                     Some (target file)
                /\ lstatSync fs3 (fullPath entry0) = Some (sourceStats file)).
    { intros Hm. destruct (IH _ _ _ H3 file Hm) as (e0 & He0 & Hrest).
      exists e0. split; [now right | exact Hrest]. }
    destruct mapped as [d |]; [| now apply Hmore].
    destruct Hf as [<- | Hf]; [| now apply Hmore].
    unfold resolvePath in H1.
    destruct (Resolver.cleanAndMapPath (USER_HOME env) (entryName entry) fs)
      as [o fsx] eqn:E.
    injection H1 as -> ->.
    destruct (lstatSync fs1 (fullPath entry)) as [n |] eqn:L; [| discriminate H2].
    injection H2 as <- <-.
    assert (G13 : grows fs1 fs3) by (eapply mapInstallPaths_grows; exact H3).
    assert (G01 : grows fs fs1).
    { eapply ResolverFacts.cleanAndMapPath_grows. exact E. }
    exists entry. cbn [source target sourceStats ip_isSymlink ip_linkTarget].
    split; [now left |]. split; [reflexivity |]. split; [reflexivity |].
    split; [reflexivity |]. split.
    + apply (cleanAndMapPath_later _ _ _ fs); [now rewrite E |].
      etrans; [exact G01 | exact G13].
    + unfold lstatSync in L |- *. destruct (G13 (fullPath entry)) as [Eq | [N _]];
        congruence.
Qed.

End WithEnv.

(** X6: Every entry of the plan comes from an entry of the archive that is
    no system file ([__MACOSX], [.DS_Store], [._] files) and carries
    its link flag and link text.  In the file system the planning
    ends in, which is the one the installation starts from, path
    resolution maps the name of that entry to the destination of the
    plan entry, and the status the plan entry carries is the [lstat]
    of the entry.  A plan that is built is never empty. *)
Theorem plan_holds_resolved_entries_only
    (env : Env) (entries : list Entry) (fs fs' : FS)
    (plan : list Entry * list InstallPath) :
  planInstall env entries fs = (Ok plan, fs') ->
  plan.2 <> []
  /\ forall file, In file plan.2 ->
       exists entry,
         In entry entries
         /\ In entry plan.1
         /\ isSystemFile (entryName entry) = false
         /\ source file = fullPath entry
         /\ ip_isSymlink file = isSymlink entry
         /\ ip_linkTarget file = linkTarget entry
         /\ (Resolver.cleanAndMapPath (USER_HOME env) (entryName entry) fs').1 =
              Some (target file)
         /\ lstatSync fs' (fullPath entry) = Some (sourceStats file).
Proof.
  unfold planInstall. intros H.
  apply bind_Ok in H as (osFiles & fsa & Hfv & H).
  destruct osFiles as [| o osFiles].
  { destruct (filesWithPotentialPrefixes entries); discriminate H. }
  apply bind_Ok in H as (installPaths & fsb & Hmap & H).
  destruct installPaths as [| ip installPaths]; [discriminate H |].
  injection H as <- <-. cbn [fst snd]. split; [discriminate |].
  intros file Hf.
  destruct (mapInstallPaths_at_end env _ _ _ _ Hmap file Hf)
    as (entry & Hin & Hsrc & Hsym & Hlt & Hres & Hst).
  exists entry. split; [eapply filterValid_subset; eassumption |].
  split; [exact Hin |].
  split; [eapply BundleFacts.filterValid_kept; eassumption | auto].
Qed.

(** X7: Nothing that resolves is left out of the plan.  When the plan is
    built, every entry of the archive that is no system file and whose
    name path resolution maps to a destination (in the file system
    the planning starts from) has a plan entry with that source and
    that destination, carrying the entry's link flag and link text. *)
Theorem plan_keeps_every_resolvable_entry
    (env : Env) (entries : list Entry) (fs fs' : FS)
    (plan : list Entry * list InstallPath) (entry : Entry) (d : string) :
  planInstall env entries fs = (Ok plan, fs') ->
  In entry entries ->
  isSystemFile (entryName entry) = false ->
  (Resolver.cleanAndMapPath (USER_HOME env) (entryName entry) fs).1 = Some d ->
  exists file,
    In file plan.2 /\ source file = fullPath entry /\ target file = d
    /\ ip_isSymlink file = isSymlink entry
    /\ ip_linkTarget file = linkTarget entry.
Proof.
  unfold planInstall. intros H Hin Hs Hr.
  apply bind_Ok in H as (osFiles & fsa & Hfv & H).
  assert (Hkept : In entry osFiles).
  { eapply (filterValid_complete env fs); [reflexivity | exact Hfv | | |]; eassumption. }
  destruct osFiles as [| o osFiles]; [destruct Hkept |].
  apply bind_Ok in H as (installPaths & fsb & Hmap & H).
  destruct installPaths as [| ip installPaths]; [discriminate H |].
  injection H as <- _. cbn [snd].
  eapply (mapInstallPaths_complete env fs); [| exact Hmap | exact Hkept | exact Hr].
  eapply filterValid_grows. exact Hfv.
Qed.

End PlanComplete.

Module PlanCompleteExamples.
Import Fs Pawkit Demo InstallExamples PlanComplete.

Lemma plan_keeps_every_resolvable_entry_witness :
  exists file,
    In file (plan_of (env_with false false "" hello_leaves) (disk [])).1.2
    /\ source file = "/tmp/pawkit-1-abc/extracted/@documents/hello.txt"
    /\ target file = "/Users/u/Documents/hello.txt"
    /\ ip_isSymlink file = false
    /\ ip_linkTarget file = None.
Proof.
  apply (plan_keeps_every_resolvable_entry (env_with false false "" hello_leaves)
           (scratch_of (env_with false false "" hello_leaves) (disk [])).1.2
           (scratch_of (env_with false false "" hello_leaves) (disk [])).2
           (plan_of (env_with false false "" hello_leaves) (disk [])).2
           (plan_of (env_with false false "" hello_leaves) (disk [])).1
           (mkEntry "@documents/hello.txt"
              "/tmp/pawkit-1-abc/extracted/@documents/hello.txt" false None None)
           "/Users/u/Documents/hello.txt").
  - apply plan_of_ok. eexists. vm_compute. reflexivity.
  - vm_compute. left. reflexivity.
  - vm_compute. reflexivity.
  - vm_compute. reflexivity.
Defined.

Lemma plan_holds_resolved_entries_only_witness :
  (plan_of (env_with false false "" hello_leaves) (disk [])).1.2 <> []
  /\ forall file,
       In file (plan_of (env_with false false "" hello_leaves) (disk [])).1.2 ->
       exists entry,
         In entry (scratch_of (env_with false false "" hello_leaves) (disk [])).1.2
         /\ In entry (plan_of (env_with false false "" hello_leaves) (disk [])).1.1
         /\ isSystemFile (entryName entry) = false
         /\ source file = fullPath entry
         /\ ip_isSymlink file = isSymlink entry
         /\ ip_linkTarget file = linkTarget entry
         /\ (Resolver.cleanAndMapPath "/Users/u" (entryName entry)
               (plan_of (env_with false false "" hello_leaves) (disk [])).2).1 =
              Some (target file)
         /\ lstatSync (plan_of (env_with false false "" hello_leaves) (disk [])).2
                      (fullPath entry) = Some (sourceStats file).
Proof.
  apply (plan_holds_resolved_entries_only (env_with false false "" hello_leaves)
           (scratch_of (env_with false false "" hello_leaves) (disk [])).1.2
           (scratch_of (env_with false false "" hello_leaves) (disk [])).2
           (plan_of (env_with false false "" hello_leaves) (disk [])).2
           (plan_of (env_with false false "" hello_leaves) (disk [])).1).
  apply plan_of_ok. eexists. vm_compute. reflexivity.
Defined.

End PlanCompleteExamples.

(** ** The walk over the extracted tree *)

Module WalkFacts.
Import Fs Pawkit Walk.

Lemma readdirSync_spec (fs : FS) (dir k : string) :
  In k (readdirSync fs dir) <-> child fs dir k.
Proof.
  unfold readdirSync, child. rewrite filter_In, in_map_iff, andb_true_iff.
  rewrite String.eqb_eq, negb_true_iff, String.eqb_neq. split.
  - intros [([k' v] & <- & Hin) [Hd Hne]]. split; [| auto].
    apply list_elem_of_In, elem_of_map_to_list in Hin. cbn. eauto.
  - intros [[v Hv] [Hd Hne]]. split; [| auto].
    exists (k, v). split; [reflexivity |].
    apply list_elem_of_In, elem_of_map_to_list. exact Hv.
Qed.

Lemma readItem_leaf (recurse : string -> list Entry) (fs : FS) (x p : string)
    (e : Entry) :
  entryOf fs x p = Some e -> readItem recurse fs x p = [e].
Proof.
  unfold entryOf, readItem.
  destruct (lstatSync fs p) as [[data mode | | t] |]; intros [= <-]; reflexivity.
Qed.

(** X5: The walk lists the files and the links that are reached from the
    directory through directories, and nothing else: every entry it
    returns is the entry of such a path, found within the depth the
    walk was given; and every file or link that is reached within that
    depth has its entry in the list.  Directories are walked into and
    never listed. *)
Theorem walk_lists_files_and_links (fuel : nat) (fs : FS) (x dir : string) :
  (forall e, In e (readDir fuel fs x dir) ->
     entryOf fs x (fullPath e) = Some e
     /\ exists n, n <= fuel /\ reaches fs n dir (fullPath e))
  /\ (forall n p e, reaches fs n dir p -> n <= fuel ->
        entryOf fs x p = Some e -> In e (readDir fuel fs x dir)).
Proof.
  revert dir. induction fuel as [| k IH]; intros dir; split.
  - intros e [].
  - intros n p e Hr Hn. inversion Hr; subst; lia.
  - intros e Hin. cbn [readDir] in Hin.
    apply in_flat_map in Hin as (c & Hc & Hin). apply readdirSync_spec in Hc.
    unfold readItem in Hin.
    destruct (lstatSync fs c) as [[data mode | | t] |] eqn:E.
    + destruct Hin as [<- | []]. cbn [fullPath]. split.
      * unfold entryOf. now rewrite E.
      * exists 1. split; [lia | now constructor].
    + destruct (proj1 (IH c) e Hin) as (He & n & Hn & Hr). split; [exact He |].
      exists (S n). split; [lia |]. eapply reaches_down; eassumption.
    + destruct Hin as [<- | []]. cbn [fullPath]. split.
      * unfold entryOf. now rewrite E.
      * exists 1. split; [lia | now constructor].
    + destruct Hin.
  - intros n p e Hr Hn He. cbn [readDir]. apply in_flat_map.
    inversion Hr as [dir' p' Hc | n' dir' c p' Hc Hdir Hr']; subst.
    + exists p. split; [now apply readdirSync_spec |].
      rewrite (readItem_leaf _ _ _ _ _ He). now left.
    + exists c. split; [now apply readdirSync_spec |].
      unfold readItem. unfold lstatSync. rewrite Hdir.
      apply (proj2 (IH c) n' p e Hr'); [lia | exact He].
Qed.

End WalkFacts.

(** ** Versions without [NaN] components are ordered *)

Module VersionTotal.
Import Version VersionOrder.

(** Two finite numbers are compared on any common scale. *)
Lemma lt_scale (m1 e1 m2 e2 E : Z) :
  (E <= e1)%Z -> (E <= e2)%Z ->
  lt (Fin m1 e1) (Fin m2 e2) = (m1 * 10 ^ (e1 - E) <? m2 * 10 ^ (e2 - E))%Z.
Proof.
  intros H1 H2. cbn [lt]. set (e := Z.min e1 e2).
  assert (He : (E <= e)%Z) by (unfold e; lia).
  assert (P : (0 < 10 ^ (e - E))%Z) by (apply Z.pow_pos_nonneg; lia).
  replace (e1 - E)%Z with ((e1 - e) + (e - E))%Z by lia.
  replace (e2 - E)%Z with ((e2 - e) + (e - E))%Z by lia.
  rewrite !Z.pow_add_r by (unfold e; lia).
  rewrite !Z.mul_assoc.
  destruct (Z.ltb_spec (m1 * 10 ^ (e1 - e)) (m2 * 10 ^ (e2 - e))) as [L | L],
           (Z.ltb_spec (m1 * 10 ^ (e1 - e) * 10 ^ (e - E))
                       (m2 * 10 ^ (e2 - e) * 10 ^ (e - E))) as [L' | L'];
    try reflexivity; exfalso; nia.
Qed.

Lemma lt_trans (a b c : JsNumber) :
  lt a b = true -> lt b c = true -> lt a c = true.
Proof.
  destruct a as [| m1 e1 | []], b as [| m2 e2 | []], c as [| m3 e3 | []];
    try (cbn; congruence).
  set (E := Z.min e1 (Z.min e2 e3)).
  assert (B1 : (E <= e1)%Z) by (unfold E; lia).
  assert (B2 : (E <= e2)%Z) by (unfold E; lia).
  assert (B3 : (E <= e3)%Z) by (unfold E; lia).
  rewrite (lt_scale m1 e1 m2 e2 E B1 B2), (lt_scale m2 e2 m3 e3 E B2 B3),
          (lt_scale m1 e1 m3 e3 E B1 B3).
  rewrite !Z.ltb_lt. lia.
Qed.

(** Two numbers, none of them [NaN], of which neither is less than the
    other, compare alike with every third. *)
Lemma lt_equiv (a b c : JsNumber) :
  a <> NaN -> b <> NaN ->
  lt a b = false -> lt b a = false ->
  lt a c = lt b c /\ lt c a = lt c b.
Proof.
  intros Ha Hb.
  destruct a as [| m1 e1 | []], b as [| m2 e2 | []]; try congruence;
    try (cbn; congruence); try (destruct c as [| m3 e3 | []]; cbn; auto; fail).
  destruct c as [| m3 e3 | []]; try (cbn; auto; fail).
  set (E := Z.min e1 (Z.min e2 e3)).
  assert (B1 : (E <= e1)%Z) by (unfold E; lia).
  assert (B2 : (E <= e2)%Z) by (unfold E; lia).
  assert (B3 : (E <= e3)%Z) by (unfold E; lia).
  rewrite (lt_scale m1 e1 m2 e2 E B1 B2), (lt_scale m2 e2 m1 e1 E B2 B1),
          (lt_scale m1 e1 m3 e3 E B1 B3), (lt_scale m2 e2 m3 e3 E B2 B3),
          (lt_scale m3 e3 m1 e1 E B3 B1), (lt_scale m3 e3 m2 e2 E B3 B2).
  rewrite !Z.ltb_ge. intros H1 H2.
  assert (Heq : (m1 * 10 ^ (e1 - E) = m2 * 10 ^ (e2 - E))%Z) by lia.
  now rewrite Heq.
Qed.

(** The loop of [compareVersions] on arrays without [NaN]: greater
    than is transitive. *)
Lemma compareParts_trans (a : list JsNumber) :
  forall b c,
    Forall (fun x => x <> NaN) a -> Forall (fun x => x <> NaN) b ->
    Forall (fun x => x <> NaN) c ->
    length a = length b -> length b = length c ->
    compareParts a b = 1%Z -> compareParts b c = 1%Z -> compareParts a c = 1%Z.
Proof.
  induction a as [| a0 a IH]; intros [| b0 b] [| c0 c] Fa Fb Fc Lab Lbc;
    try discriminate; cbn [compareParts]; try (intros H; discriminate H).
  apply Forall_cons in Fa as [Na Fa]. apply Forall_cons in Fb as [Nb Fb].
  apply Forall_cons in Fc as [Nc Fc].
  injection Lab as Lab. injection Lbc as Lbc. unfold gt.
  destruct (lt b0 a0) eqn:Hba.
  - intros _. destruct (lt c0 b0) eqn:Hcb.
    + intros _. now rewrite (lt_trans c0 b0 a0 Hcb Hba).
    + destruct (lt b0 c0) eqn:Hbc; [discriminate |]. intros _.
      destruct (lt_equiv b0 c0 a0 Nb Nc Hbc Hcb) as [E1 E2].
      now rewrite <- E1, Hba.
  - destruct (lt a0 b0) eqn:Hab; [discriminate |]. intros Hab'.
    destruct (lt_equiv a0 b0 c0 Na Nb Hab Hba) as [E1 E2].
    rewrite E1, E2.
    destruct (lt c0 b0); [reflexivity |].
    destruct (lt b0 c0); [discriminate |]. now apply IH.
Qed.

(** Between two numbers of which one is less than the other, a third
    that is not [NaN] is greater than the one or less than the other. *)
Lemma lt_between (a b c : JsNumber) :
  b <> NaN -> lt a c = true -> lt a b = true \/ lt b c = true.
Proof.
  intros Hb.
  destruct a as [| m1 e1 | []], b as [| m2 e2 | []], c as [| m3 e3 | []];
    try congruence; try (cbn; auto; congruence).
  set (E := Z.min e1 (Z.min e2 e3)).
  assert (B1 : (E <= e1)%Z) by (unfold E; lia).
  assert (B2 : (E <= e2)%Z) by (unfold E; lia).
  assert (B3 : (E <= e3)%Z) by (unfold E; lia).
  rewrite (lt_scale m1 e1 m2 e2 E B1 B2), (lt_scale m2 e2 m3 e3 E B2 B3),
          (lt_scale m1 e1 m3 e3 E B1 B3).
  rewrite !Z.ltb_lt. lia.
Qed.

Lemma compareParts_between (a : list JsNumber) :
  forall b c,
    Forall (fun x => x <> NaN) a -> Forall (fun x => x <> NaN) b ->
    Forall (fun x => x <> NaN) c ->
    length a = length b -> length b = length c ->
    compareParts a c = 1%Z -> compareParts a b = 1%Z \/ compareParts b c = 1%Z.
Proof.
  induction a as [| a0 a IH]; intros [| b0 b] [| c0 c] Fa Fb Fc Lab Lbc;
    try discriminate; cbn [compareParts]; try (intros H; discriminate H).
  apply Forall_cons in Fa as [Na Fa]. apply Forall_cons in Fb as [Nb Fb].
  apply Forall_cons in Fc as [Nc Fc].
  injection Lab as Lab. injection Lbc as Lbc. unfold gt.
  destruct (lt c0 a0) eqn:Hca.
  - intros _. destruct (lt_between c0 b0 a0 Nb Hca) as [H | H]; rewrite H; auto.
  - destruct (lt a0 c0) eqn:Hac; [discriminate |]. intros Hrest.
    destruct (lt_equiv a0 c0 b0 Na Nc Hac Hca) as [E1 E2].
    destruct (lt b0 a0) eqn:Hba; [now left |].
    rewrite <- E2, <- E1.
    destruct (lt a0 b0) eqn:Hab; [now right |].
    now apply IH.
Qed.

Lemma pad_common (n : nat) :
  forall l1 l2,
    length l1 <= n -> length l2 <= n ->
    compareParts (pad n l1) (pad n l2) =
      compareParts (pad (length l2) l1) (pad (length l1) l2).
Proof.
  induction n as [| n IH]; intros [| a r1] [| b r2] H1 H2; cbn [length] in *;
    try lia.
  - rewrite !pad_nil. cbn [repeat]. now rewrite compareParts_same.
  - rewrite (pad_nil (S n)), (pad_nil (S (length r2))), pad_cons, pad_zero.
    cbn [repeat compareParts].
    rewrite <- (pad_nil n), <- (pad_nil (length r2)).
    rewrite (IH [] r2) by (cbn [length]; lia). cbn [length]. now rewrite pad_zero.
  - rewrite (pad_nil (S n)), (pad_nil (S (length r1))), pad_cons, pad_zero.
    cbn [repeat compareParts].
    rewrite <- (pad_nil n), <- (pad_nil (length r1)).
    rewrite (IH r1 []) by (cbn [length]; lia). cbn [length]. now rewrite pad_zero.
  - rewrite !pad_cons. cbn [compareParts].
    rewrite (IH r1 r2) by lia. reflexivity.
Qed.

Lemma pad_no_NaN (n : nat) (l : list JsNumber) :
  Forall (fun x => x <> NaN) l -> Forall (fun x => x <> NaN) (pad n l).
Proof.
  intros H. unfold pad. apply Forall_app. split; [exact H |].
  apply Forall_forall. intros x Hx. apply list_elem_of_In, repeat_spec in Hx. now subst x.
Qed.

Lemma pad_length (n : nat) (l : list JsNumber) :
  length l <= n -> length (pad n l) = n.
Proof. intros H. unfold pad. rewrite length_app, repeat_length. lia. Qed.

(** Greater than is transitive on versions none of whose components
    is [NaN]. *)
Lemma compareVersions_trans (v1 v2 v3 : string) :
  Forall (fun x => x <> NaN) (parts v1) ->
  Forall (fun x => x <> NaN) (parts v2) ->
  Forall (fun x => x <> NaN) (parts v3) ->
  compareVersions v1 v2 = 1%Z -> compareVersions v2 v3 = 1%Z ->
  compareVersions v1 v3 = 1%Z.
Proof.
  intros F1 F2 F3. unfold compareVersions.
  set (n := Nat.max (length (parts v1)) (Nat.max (length (parts v2)) (length (parts v3)))).
  rewrite <- (pad_common n (parts v1) (parts v2)) by (unfold n; lia).
  rewrite <- (pad_common n (parts v2) (parts v3)) by (unfold n; lia).
  rewrite <- (pad_common n (parts v1) (parts v3)) by (unfold n; lia).
  apply compareParts_trans; try (now apply pad_no_NaN);
    rewrite !pad_length by (unfold n; lia); reflexivity.
Qed.

Lemma compareVersions_between (v1 v2 v3 : string) :
  Forall (fun x => x <> NaN) (parts v1) ->
  Forall (fun x => x <> NaN) (parts v2) ->
  Forall (fun x => x <> NaN) (parts v3) ->
  compareVersions v1 v3 = 1%Z ->
  compareVersions v1 v2 = 1%Z \/ compareVersions v2 v3 = 1%Z.
Proof.
  intros F1 F2 F3. unfold compareVersions.
  set (n := Nat.max (length (parts v1)) (Nat.max (length (parts v2)) (length (parts v3)))).
  rewrite <- (pad_common n (parts v1) (parts v2)) by (unfold n; lia).
  rewrite <- (pad_common n (parts v2) (parts v3)) by (unfold n; lia).
  rewrite <- (pad_common n (parts v1) (parts v3)) by (unfold n; lia).
  apply compareParts_between; try (now apply pad_no_NaN);
    rewrite !pad_length by (unfold n; lia); reflexivity.
Qed.

Lemma compareVersions_not_less (v1 v2 : string) :
  (0 <= compareVersions v1 v2)%Z <-> compareVersions v2 v1 <> 1%Z.
Proof.
  unfold compareVersions. rewrite (compareParts_swap _ (pad _ (parts v2))).
  destruct (compareParts_range (pad (length (parts v2)) (parts v1))
                               (pad (length (parts v1)) (parts v2)))
    as [E | [E | E]]; rewrite E; split; intros H; try lia; try discriminate.
Qed.

(** X3: On versions none of whose components [Number] turns into [NaN],
    [compareVersions] is an order: greater than is transitive, and so
    is greater than or equal, the test of [updatePaw]. *)
Theorem compareVersions_orders_versions_without_NaN (v1 v2 v3 : string) :
  Forall (fun x => x <> NaN) (parts v1) ->
  Forall (fun x => x <> NaN) (parts v2) ->
  Forall (fun x => x <> NaN) (parts v3) ->
  (compareVersions v1 v2 = 1%Z -> compareVersions v2 v3 = 1%Z ->
   compareVersions v1 v3 = 1%Z)
  /\ (alreadyLatest v1 v2 = true -> alreadyLatest v2 v3 = true ->
      alreadyLatest v1 v3 = true).
Proof.
  intros F1 F2 F3. split; [now apply compareVersions_trans |].
  unfold alreadyLatest. rewrite !Z.leb_le, !compareVersions_not_less.
  intros H21 H32 H31.
  destruct (compareVersions_between v3 v2 v1 F3 F2 F1 H31); contradiction.
Qed.

End VersionTotal.

Module VersionTotalExamples.
Import Version VersionTotal.

Lemma compareVersions_orders_versions_without_NaN_witness :
  (compareVersions "2" "1.10" = 1%Z -> compareVersions "1.10" "1.9.5" = 1%Z ->
   compareVersions "2" "1.9.5" = 1%Z)
  /\ (alreadyLatest "2" "1.10" = true -> alreadyLatest "1.10" "1.9.5" = true ->
      alreadyLatest "2" "1.9.5" = true).
Proof.
  apply (compareVersions_orders_versions_without_NaN "2" "1.10" "1.9.5").
  - vm_compute. repeat constructor; discriminate.
  - vm_compute. repeat constructor; discriminate.
  - vm_compute. repeat constructor; discriminate.
Defined.

End VersionTotalExamples.

(** ** The latest version is the highest *)

Module LatestFacts.
Import Fs Repos Version VersionOrder VersionTotal.

Lemma latestStep_cases (net : Net) (fs : FS) (name : string)
    (acc : string * bool) (x : Repo) :
  match versionIn net fs name x with
  | Some v =>
      (compareVersions v acc.1 = 1%Z /\ (latestStep net fs name acc x).1 = v) \/
      (compareVersions v acc.1 <> 1%Z /\ (latestStep net fs name acc x).1 = acc.1)
  | None => latestStep net fs name acc x = acc
  end.
Proof.
  unfold latestStep. destruct (versionIn net fs name x) as [v |]; [| reflexivity].
  cbn [fst]. unfold compareVersions.
  destruct (compareParts_range (pad (length (parts acc.1)) (parts v))
                               (pad (length (parts v)) (parts acc.1)))
    as [E | [E | E]]; rewrite E; cbn; [right | right | left]; split;
    reflexivity || discriminate.
Qed.

Lemma latest_fold_highest (net : Net) (fs : FS) (name : string) (l : list Repo) :
  (forall r w, In r l -> versionIn net fs name r = Some w ->
               Forall (fun x => x <> NaN) (parts w)) ->
  forall acc,
    Forall (fun x => x <> NaN) (parts acc.1) ->
    Forall (fun x => x <> NaN) (parts (fold_left (latestStep net fs name) l acc).1)
    /\ compareVersions acc.1 (fold_left (latestStep net fs name) l acc).1 <> 1%Z
    /\ (forall r w, In r l -> versionIn net fs name r = Some w ->
          compareVersions w (fold_left (latestStep net fs name) l acc).1 <> 1%Z).
Proof.
  induction l as [| x rest IH]; intros Hall acc Hacc; cbn [fold_left].
  - split; [exact Hacc |]. split; [| intros r w []].
    unfold compareVersions. rewrite compareParts_same. discriminate.
  - assert (Hrest : forall r w, In r rest -> versionIn net fs name r = Some w ->
                                Forall (fun x => x <> NaN) (parts w))
      by (intros r w Hr; apply Hall; now right).
    pose proof (latestStep_cases net fs name acc x) as Hc.
    destruct (versionIn net fs name x) as [v |] eqn:Ev.
    + assert (Hv : Forall (fun x => x <> NaN) (parts v))
        by (apply (Hall x v); [now left | exact Ev]).
      destruct Hc as [[Hgt Hnew] | [Hle Hnew]].
      * destruct (IH Hrest (latestStep net fs name acc x)) as (Fo & Ho & Hr).
        { now rewrite Hnew. }
        rewrite Hnew in Ho. split; [exact Fo |]. split.
        -- intros Habs. apply Ho.
           eapply compareVersions_trans; [exact Hv | exact Hacc | exact Fo | |];
             eassumption.
        -- intros r w [<- | Hin] Hw; [| now apply (Hr r w)].
           assert (w = v) as -> by congruence. exact Ho.
      * destruct (IH Hrest (latestStep net fs name acc x)) as (Fo & Ho & Hr).
        { now rewrite Hnew. }
        rewrite Hnew in Ho. split; [exact Fo |]. split; [exact Ho |].
        intros r w [<- | Hin] Hw; [| now apply (Hr r w)].
        assert (w = v) as -> by congruence. intros Habs.
        destruct (compareVersions_between v acc.1 _ Hv Hacc Fo Habs); contradiction.
    + rewrite Hc. destruct (IH Hrest acc Hacc) as (Fo & Ho & Hr).
      split; [exact Fo |]. split; [exact Ho |].
      intros r w [<- | Hin] Hw; [congruence | now apply (Hr r w)].
Qed.

(** X23: "Keep the highest one": when [Number] turns no component of an
    offered version into [NaN], the version
    [getLatestVersionFromRepo] returns is not less than [0.0.0] and
    not less than any version a repository of the list offers for the
    paw, so [updatePaw] would find it up to date against each of
    them. *)
Theorem latest_version_is_highest
    (net : Net) (fs : FS) (name : string) (repositories : list Repo)
    (latest : string) :
  (forall r w, In r repositories -> versionIn net fs name r = Some w ->
               Forall (fun x => x <> NaN) (parts w)) ->
  getLatestVersionFromRepo net fs name repositories = Done latest ->
  alreadyLatest latest "0.0.0" = true
  /\ forall r w, In r repositories -> versionIn net fs name r = Some w ->
       alreadyLatest latest w = true.
Proof.
  intros Hall. unfold getLatestVersionFromRepo.
  destruct (latest_fold_highest net fs name repositories Hall ("0.0.0", false))
    as (Fo & Ho & Hr).
  { cbn [fst]. vm_compute. repeat constructor; discriminate. }
  cbn [fst] in Ho.
  destruct (fold_left (latestStep net fs name) repositories ("0.0.0", false)).2;
    [| discriminate].
  intros [= <-]. unfold alreadyLatest. split.
  - apply Z.leb_le, compareVersions_not_less. exact Ho.
  - intros r w Hin Hw. apply Z.leb_le, compareVersions_not_less.
    now apply (Hr r w).
Qed.

End LatestFacts.

Module LatestExamples.
Import Fs Repos Version LatestFacts.

Lemma latest_version_is_highest_witness :
  let net := mkNet (fun _ => Some (JObject (mkRepoData None None
                                     (Some {[ "foo" := mkPawEntry None (Some "1.2.0") ]})
                                     None)))
                   (fun _ => None) "2025-01-01T00:00:00.000Z" in
  let repositories := [mkRepo "main" "https://example.org/repo.json" "2024" None] in
  getLatestVersionFromRepo net (Demo.disk []) "foo" repositories = Done "1.2.0"
  /\ alreadyLatest "1.2.0" "0.0.0" = true
  /\ forall r w, In r repositories ->
       versionIn net (Demo.disk []) "foo" r = Some w ->
       alreadyLatest "1.2.0" w = true.
Proof.
  cbn zeta.
  assert (Hrun : getLatestVersionFromRepo
                   (mkNet (fun _ => Some (JObject (mkRepoData None None
                              (Some {[ "foo" := mkPawEntry None (Some "1.2.0") ]})
                              None)))
                          (fun _ => None) "2025-01-01T00:00:00.000Z")
                   (Demo.disk []) "foo"
                   [mkRepo "main" "https://example.org/repo.json" "2024" None]
                 = Done "1.2.0") by (vm_compute; reflexivity).
  split; [exact Hrun |].
  apply (latest_version_is_highest _ _ _ _ _); [| exact Hrun].
  intros r w [<- | []] Hw. vm_compute in Hw. injection Hw as <-.
  vm_compute. repeat constructor; discriminate.
Defined.

End LatestExamples.

(** ** The record of an installed paw *)

Module RecordFacts.
Import Fs Pawkit FsFacts MFacts InstallFacts ManifestFacts PlanComplete.
Local Open Scope m_scope.

(** The destination of a path does not depend on the file system;
    only whether there is one does. *)
Lemma cleanAndMapPath_value (home p d d' : string) (fs fs' : FS) :
  (Resolver.cleanAndMapPath home p fs).1 = Some d ->
  (Resolver.cleanAndMapPath home p fs').1 = Some d' ->
  d = d'.
Proof.
  unfold Resolver.cleanAndMapPath.
  destruct (Resolver.map_marker home (Resolver.clean p)) as [m |];
    [cbn [fst]; congruence |].
  destruct (Js.includes "metadata/" (Resolver.clean p));
    [| intros X; discriminate X].
  destruct (ensureDirSync (Resolver.metadataDir home) fs);
    [| intros X; discriminate X].
  destruct (ensureDirSync (Resolver.metadataDir home) fs');
    [| intros _ X; discriminate X].
  cbn [fst]. congruence.
Qed.

(** After one resolution every path resolves as before it. *)
Lemma cleanAndMapPath_step (home p : string) (fs fs1 : FS) (r : option string) :
  Resolver.cleanAndMapPath home p fs = (r, fs1) ->
  forall p', (Resolver.cleanAndMapPath home p' fs1).1 =
             (Resolver.cleanAndMapPath home p' fs).1.
Proof.
  unfold Resolver.cleanAndMapPath at 1.
  destruct (Resolver.map_marker home (Resolver.clean p));
    [intros [= _ <-]; reflexivity |].
  destruct (Js.includes "metadata/" (Resolver.clean p));
    [| intros [= _ <-]; reflexivity].
  destruct (ensureDirSync (Resolver.metadataDir home) fs) as [fs2 |] eqn:E;
    intros [= _ <-]; [| reflexivity].
  intros p'. unfold Resolver.cleanAndMapPath.
  destruct (Resolver.map_marker home (Resolver.clean p')); [reflexivity |].
  destruct (Js.includes "metadata/" (Resolver.clean p')); [| reflexivity].
  now rewrite E, (ensureDirSync_twice _ _ _ E).
Qed.

Section WithEnv.
Variable env : Env.

(** The destinations of the entries, as the file system [fs] has them. *)
Definition destinations (fs : FS) (l : list Entry) : list string :=
  omap (fun entry => (Resolver.cleanAndMapPath (USER_HOME env) (entryName entry) fs).1) l.

Lemma resolveAll_from (l : list Entry) :
  forall fs0 fs,
    (forall p, (Resolver.cleanAndMapPath (USER_HOME env) p fs).1 =
               (Resolver.cleanAndMapPath (USER_HOME env) p fs0).1) ->
    exists fs', resolveAll env l fs = (Ok (destinations fs0 l), fs').
Proof.
  induction l as [| entry rest IH]; intros fs0 fs Hsame; cbn [resolveAll].
  - unfold ret. eauto.
  - unfold bind at 1, resolvePath.
    destruct (Resolver.cleanAndMapPath (USER_HOME env) (entryName entry) fs)
      as [o fs1] eqn:E.
    destruct (IH fs0 fs1) as [fs' Hrest].
    { intros p. rewrite (cleanAndMapPath_step _ _ _ _ _ E p). apply Hsame. }
    unfold bind, ret. rewrite Hrest. exists fs'.
    unfold destinations. cbn [omap list_omap]. rewrite <- (Hsame (entryName entry)), E.
    cbn [fst]. now destruct o.
Qed.

Lemma resolveAll_destinations (l : list Entry) (fs fs' : FS) (resolved : list string) :
  resolveAll env l fs = (Ok resolved, fs') -> resolved = destinations fs l.
Proof.
  intros H. destruct (resolveAll_from l fs fs (fun _ => eq_refl)) as [fs'' E].
  congruence.
Qed.

(** A kept entry has a destination when the filter is through. *)
Lemma filterValid_resolved (entries : list Entry) :
  forall fs fs' kept,
    filterValid env entries fs = (Ok kept, fs') ->
    forall entry, In entry kept ->
      exists d, (Resolver.cleanAndMapPath (USER_HOME env) (entryName entry) fs').1
                = Some d.
Proof.
  induction entries as [| x rest IH]; intros fs fs' kept H entry He;
    cbn [filterValid] in H.
  - injection H as <- _. destruct He.
  - destruct (isSystemFile (entryName x)); [eapply IH; eassumption |].
    apply bind_Ok in H as (cleanPath & fs1 & H1 & H).
    apply bind_Ok in H as (kept' & fs2 & H2 & H).
    injection H as <- <-.
    destruct cleanPath as [d |]; [destruct He as [<- | He] |];
      try (eapply IH; eassumption).
    exists d. unfold resolvePath in H1.
    destruct (Resolver.cleanAndMapPath (USER_HOME env) (entryName x) fs)
      as [o fsx] eqn:E.
    injection H1 as -> ->.
    apply (cleanAndMapPath_later _ _ _ fs); [now rewrite E |].
    etrans; [eapply ResolverFacts.cleanAndMapPath_grows; exact E |].
    eapply filterValid_grows. exact H2.
Qed.

(** Every entry the plan keeps has a plan entry with its destination. *)
Lemma planInstall_covers (entries : list Entry) (fs fs' : FS)
    (plan : list Entry * list InstallPath) :
  planInstall env entries fs = (Ok plan, fs') ->
  forall entry d s,
    In entry plan.1 ->
    (Resolver.cleanAndMapPath (USER_HOME env) (entryName entry) s).1 = Some d ->
    exists file, In file plan.2 /\ target file = d /\ source file = fullPath entry.
Proof.
  unfold planInstall. intros H entry d s Hin Hd.
  apply bind_Ok in H as (osFiles & fsa & Hfv & H).
  destruct osFiles as [| o osFiles].
  { destruct (filesWithPotentialPrefixes entries); discriminate H. }
  apply bind_Ok in H as (installPaths & fsb & Hmap & H).
  destruct installPaths as [| ip installPaths]; [discriminate H |].
  injection H as <- _. cbn [fst snd] in *.
  destruct (filterValid_resolved _ _ _ _ Hfv entry Hin) as [d0 Hd0].
  destruct (mapInstallPaths_complete env fsa _ fsa fsb _ (reflexivity _) Hmap
              entry d0 Hin Hd0) as (file & Hf & Hsrc & Htgt & _).
  exists file. split; [exact Hf |]. split; [| exact Hsrc].
  rewrite Htgt. eapply cleanAndMapPath_value; eassumption.
Qed.

(** The bytes the descriptor is read from are those of the archive. *)
Lemma copyFileSync_bytes (src dst : string) (fs fs' : FS) :
  copyFileSync src dst fs = Some fs' ->
  exists data mode mode',
    statSync fs src = Some (NFile data mode) /\
    statSync fs' dst = Some (NFile data mode').
Proof.
  unfold copyFileSync.
  destruct (statSync fs src) as [[data mode | |] |]; try (intros X; discriminate X).
  destruct (realpath fs dst) as [d |] eqn:Hd; [| intros X; discriminate X].
  case_bool_decide; [intros X; discriminate X |].
  destruct (negb (is_dir fs (Path.dirname d))); [intros X; discriminate X |].
  assert (Hread : forall mode1,
            statSync (set_nodes fs (<[d := NFile data mode1]> (nodes fs))) dst
            = Some (NFile data mode1)).
  { intros mode1. unfold statSync, realpath. cbn [nodes set_nodes].
    unfold realpath in Hd.
    rewrite (realpath_fuel_insert _ d (NFile data mode1)); [| discriminate | exact Hd].
    apply lookup_insert_eq. }
  destruct (nodes fs !! d) as [[data' mode' | |] |]; try (intros X; discriminate X);
    intros [= <-]; eexists data, mode, _; (split; [reflexivity | apply Hread]).
Qed.

Lemma setupScratch_reads (filePath : string) (fs fs1 : FS)
    (scratch : Metadata * list Entry) :
  existsSync fs filePath = true ->
  setupScratch env filePath fs = (Ok scratch, fs1) ->
  scratch.1 = readMetadata env filePath (file_bytes fs filePath).
Proof.
  intros Hex. unfold setupScratch. intros H.
  apply bind_Ok in H as ([] & fsa & H1 & H).
  apply bind_Ok in H as ([] & fsb & H2 & H).
  apply bind_Ok in H as ([] & fsc & H3 & H).
  apply bind_Ok in H as (bytes & fsd & H4 & H).
  apply bind_Ok in H as ([] & fse & _ & H).
  apply bind_Ok in H as (entries & fsf & _ & H).
  injection H as <- _. cbn [fst]. f_equal.
  injection H4 as <- _.
  unfold call in H1, H2, H3.
  destruct (ensureDirSync (tempInstallDir env) fs) as [fsa' |] eqn:E1;
    [| discriminate H1].
  injection H1 as <-.
  destruct (copyFileSync filePath (tempFile env) fsa') as [fsb' |] eqn:E2;
    [| discriminate H2].
  injection H2 as <-.
  destruct (ensureDirSync (extractDir env) fsb') as [fsc' |] eqn:E3;
    [| discriminate H3].
  injection H3 as <-.
  destruct (copyFileSync_bytes _ _ _ _ E2) as (data & mode & mode' & Hsrc & Hdst).
  destruct (ensureDirSync_effect _ _ _ E1) as (_ & Hsub1 & _).
  destruct (ensureDirSync_effect _ _ _ E3) as (_ & Hsub3 & _).
  unfold file_bytes.
  rewrite (statSync_mono fsb' fsc' _ _ Hsub3 Hdst).
  unfold existsSync in Hex.
  destruct (statSync fs filePath) as [n |] eqn:En; [| discriminate Hex].
  pose proof (statSync_mono fs fsa' _ _ Hsub1 En) as Hn.
  rewrite Hsrc in Hn. injection Hn as <-. reflexivity.
Qed.

(** The stages of an install that returns. *)
Lemma installFromFile_stages (filePath : string) (fs0 fs' : FS) :
  installFromFile env filePath fs0 = (Ok tt, fs') ->
  exists scratch fs1 plan fs2 fs4 fs5 before,
    setupScratch env filePath fs0 = (Ok scratch, fs1)
    /\ scratch.1 = readMetadata env filePath (file_bytes fs0 filePath)
    /\ planInstall env scratch.2 fs1 = (Ok plan, fs2)
    /\ materialize env plan.2 fs2 = (Ok tt, fs4)
    /\ grows fs4 fs5
    /\ readPaws env fs5 = Some before
    /\ writePaws env
         (JsObject.set (name scratch.1)
            (mkPawInfo (md_version scratch.1) (now env)
               (array_from_set ∅ (destinations fs4 plan.1)) scratch.1)
            before) fs5 = Some fs'.
Proof.
  intros Hrun. apply installFromFile_success in Hrun as (Hex & _ & Hb).
  unfold installBody in Hb.
  apply bind_Ok in Hb as (scratch & fs1 & Hs & Hb).
  apply bind_Ok in Hb as (plan & fs2 & Hp & Hb).
  apply bind_Ok in Hb as ([] & fs3 & Hc & Hb).
  apply InstallMore.confirmInstall_reads in Hc as ->.
  apply bind_Ok in Hb as ([] & fs4 & Hm & Hb).
  apply bind_Ok in Hb as (resolved & fs5 & Hr & Hb).
  apply recordPaw_Ok in Hb as (before & Hread & Hw).
  rewrite (resolveAll_destinations _ _ _ _ Hr) in Hw.
  exists scratch, fs1, plan, fs2, fs4, fs5, before.
  split; [exact Hs |]. split; [eapply setupScratch_reads; eassumption |].
  split; [exact Hp |]. split; [exact Hm |].
  split; [eapply resolveAll_grows; exact Hr |]. auto.
Qed.

End WithEnv.

(** X12: What an install that returns writes to [paws.json].  The table is
    read when the files have been installed, one record is assigned
    under the name of the descriptor, and the table is written back,
    so that the other records are those read; a descriptor named
    [__proto__] leaves no record.  The descriptor is the one read from
    the bytes of the archive, with the name of the archive file and
    the version [0.0.0] where it gives none.  The record has the
    descriptor's version, which is never empty, the time of the run,
    and the destinations of the kept entries as path resolution gives
    them after the installation, each once, in the order of the
    entries; each of them is the destination of an entry of the plan.
    What is read from [paws.json] afterwards is that table, for a
    [JSON] that reads it back. *)
Theorem install_writes_one_record
    (env : Env) (filePath : string) (fs0 fs' : FS)
    (scratch : Metadata * list Entry) (fs1 : FS)
    (plan : list Entry * list InstallPath) (fs2 : FS) :
  installFromFile env filePath fs0 = (Ok tt, fs') ->
  setupScratch env filePath fs0 = (Ok scratch, fs1) ->
  planInstall env scratch.2 fs1 = (Ok plan, fs2) ->
  exists (fs4 fs5 : FS) (before : gmap string PawInfo),
    let recorded := array_from_set ∅ (destinations env fs4 plan.1) in
    let pawInfo := mkPawInfo (md_version scratch.1) (now env) recorded scratch.1 in
    let written := JsObject.set (name scratch.1) pawInfo before in
    scratch.1 = readMetadata env filePath (file_bytes fs0 filePath)
    /\ md_version scratch.1 <> ""
    /\ materialize env plan.2 fs2 = (Ok tt, fs4)
    /\ grows fs4 fs5
    /\ readPaws env fs5 = Some before
    /\ writePaws env written fs5 = Some fs'
    /\ (JSON_parse_paws env (JSON_stringify_paws env written) = Some (Table written) ->
        readPaws env fs' = Some written)
    /\ (name scratch.1 <> "__proto__" ->
        written !! name scratch.1 = Some pawInfo
        /\ forall other, other <> name scratch.1 -> written !! other = before !! other)
    /\ (name scratch.1 = "__proto__" -> before !! "__proto__" = None ->
        written = before)
    /\ NoDup recorded
    /\ (forall d, In d recorded ->
          exists file, In file plan.2 /\ target file = d).
Proof.
  intros Hrun Hs Hp.
  destruct (installFromFile_stages env _ _ _ Hrun)
    as (scratch' & fs1' & plan' & fs2' & fs4 & fs5 & before
        & Hs' & Hmd & Hp' & Hm & G & Hread & Hw).
  rewrite Hs in Hs'. injection Hs' as <- <-.
  rewrite Hp in Hp'. injection Hp' as <- <-.
  exists fs4, fs5, before. cbn zeta.
  split; [exact Hmd |].
  split; [rewrite Hmd; apply InstallMore.readMetadata_version |].
  split; [exact Hm |]. split; [exact G |]. split; [exact Hread |].
  split; [exact Hw |].
  split; [intros Hcodec; eapply readPaws_writePaws; eassumption |].
  destruct (PlanFacts.array_from_set_spec (destinations env fs4 plan.1) ∅)
    as [Hnd Hin].
  split; [| split; [| split; [exact Hnd |]]].
  - intros Hne. unfold JsObject.set.
    destruct (String.eqb (name scratch.1) "__proto__") eqn:E.
    { apply String.eqb_eq in E. contradiction. }
    cbn [andb]. split; [apply lookup_insert_eq |].
    intros other Ho. apply lookup_insert_ne. congruence.
  - intros -> Hnone. unfold JsObject.set. cbn [String.eqb andb].
    rewrite bool_decide_eq_true_2 by exact Hnone.
    change (String.eqb "__proto__" "__proto__") with true. reflexivity.
  - intros d Hd. apply list_elem_of_In, Hin in Hd as [Hd _].
    unfold destinations in Hd. apply list_elem_of_In in Hd.
    apply list_elem_of_In, list_elem_of_omap in Hd as (entry & Hentry & Hres).
    apply list_elem_of_In in Hentry.
    destruct (planInstall_covers env _ _ _ _ Hp entry d fs4 Hentry Hres)
      as (file & Hf & Ht & _).
    eauto.
Qed.

(** X18: Install, then remove.  The paw that a successful install
    recorded, under a name other than [__proto__] and with delete
    paths that are all strings, has a record afterwards, which carries
    the descriptor; the deletion passes of its removal run to their
    end; and when [paws.json] can then be written, it holds the table
    the install read, without the record of that name.  [JSON] is
    taken to read back what it wrote. *)
Theorem install_then_remove_restores_manifest
    (env : Env) (filePath : string) (fs0 fs1 : FS)
    (scratch : Metadata * list Entry) (fsS : FS) :
  installFromFile env filePath fs0 = (Ok tt, fs1) ->
  setupScratch env filePath fs0 = (Ok scratch, fsS) ->
  (forall installed,
      JSON_parse_paws env (JSON_stringify_paws env installed)
      = Some (Table installed)) ->
  name scratch.1 <> "__proto__" ->
  ~ In NotText (deletePaths scratch.1) ->
  exists (before : gmap string PawInfo) (pawInfo : PawInfo)
         (failed : list string) (fs2 : FS),
    readPaws env fs1 = Some (<[name scratch.1 := pawInfo]> before)
    /\ metadata pawInfo = scratch.1
    /\ removeAll env pawInfo fs1 = (Ok failed, fs2)
    /\ (writePaws env (delete (name scratch.1) before) fs2 = None ->
        remove env (name scratch.1) fs1 =
          (Throw (JsonWriteError (PAWS_FILE env)), fs2))
    /\ (forall fs3,
          writePaws env (delete (name scratch.1) before) fs2 = Some fs3 ->
          remove env (name scratch.1) fs1 =
            (if summaryThrows failed then Throw TypeError else Ok failed, fs3)
          /\ readPaws env fs3 = Some (delete (name scratch.1) before)).
Proof.
  intros Hrun Hs Hcodec Hname Htext.
  destruct (installFromFile_stages env _ _ _ Hrun)
    as (scratch' & fs1' & plan & fs2' & fs4 & fs5 & before
        & Hs' & Hmd & Hp & Hm & G & Hread & Hw).
  rewrite Hs in Hs'. injection Hs' as <- <-.
  set (pawInfo := mkPawInfo (md_version scratch.1) (now env)
                    (array_from_set ∅ (destinations env fs4 plan.1)) scratch.1) in *.
  assert (Hset : JsObject.set (name scratch.1) pawInfo before
                 = <[name scratch.1 := pawInfo]> before).
  { unfold JsObject.set.
    destruct (String.eqb (name scratch.1) "__proto__") eqn:E; [| reflexivity].
    apply String.eqb_eq in E. contradiction. }
  rewrite Hset in Hw.
  pose proof (readPaws_writePaws env _ fs5 fs1 (Hcodec _) Hw) as Hr1.
  destruct (removeAll_total env pawInfo fs1 Htext) as (failed & fs2 & Hall).
  assert (Hown : (<[name scratch.1 := pawInfo]> before) !! name scratch.1
                 = Some pawInfo) by apply lookup_insert_eq.
  pose proof (remove_own env _ _ _ _ Hr1 Hown) as Hrem.
  rewrite Hall, delete_insert_eq in Hrem.
  exists before, pawInfo, failed, fs2.
  split; [exact Hr1 |]. split; [reflexivity |]. split; [exact Hall |]. split.
  - intros Hnone. now rewrite Hrem, Hnone.
  - intros fs3 Hw3. rewrite Hrem, Hw3. split.
    + now destruct (summaryThrows failed).
    + eapply readPaws_writePaws; [apply Hcodec | exact Hw3].
Qed.

End RecordFacts.

Module RecordExamples.
Import Fs Pawkit FsFacts Demo InstallFacts InstallExamples RecordFacts.

Lemma install_writes_one_record_witness :
  let env := env_with true false "" hello_leaves in
  readPaws env (installFromFile env "/dl/pkg.paw" (disk [])).2
  = Some {[ "pkg" := mkPawInfo "0.0.0" "2025-01-01T00:00:00.000Z"
                       ["/Users/u/Documents/hello.txt"]
                       (mkMetadata "pkg" "0.0.0" []) ]}.
Proof.
  cbn zeta.
  destruct (install_writes_one_record (env_with true false "" hello_leaves)
              "/dl/pkg.paw" (disk [])
              (installFromFile (env_with true false "" hello_leaves) "/dl/pkg.paw"
                 (disk [])).2
              (scratch_of (env_with true false "" hello_leaves) (disk [])).1
              (scratch_of (env_with true false "" hello_leaves) (disk [])).2
              (plan_of (env_with true false "" hello_leaves) (disk [])).1
              (plan_of (env_with true false "" hello_leaves) (disk [])).2)
    as (fs4 & fs5 & before & _ & _ & _ & _ & _ & _ & Hread & _).
  - apply pair_from_fst. vm_compute. reflexivity.
  - apply scratch_of_ok. eexists. vm_compute. reflexivity.
  - apply plan_of_ok. eexists. vm_compute. reflexivity.
  - vm_compute. reflexivity.
Defined.

Lemma install_then_remove_restores_manifest_witness :
  let env := env_with true false "" hello_leaves in
  let fs1 := (installFromFile env "/dl/pkg.paw" (disk [])).2 in
  let descriptor := (scratch_of env (disk [])).1.1 in
  descriptor = mkMetadata "pkg" "0.0.0" [] /\
  exists (before : gmap string PawInfo) (pawInfo : PawInfo)
         (failed : list string) (fs2 : FS),
    readPaws env fs1 = Some (<[name descriptor := pawInfo]> before)
    /\ metadata pawInfo = descriptor
    /\ removeAll env pawInfo fs1 = (Ok failed, fs2)
    /\ (writePaws env (delete (name descriptor) before) fs2 = None ->
        remove env (name descriptor) fs1 =
          (Throw (JsonWriteError (PAWS_FILE env)), fs2))
    /\ (forall fs3,
          writePaws env (delete (name descriptor) before) fs2 = Some fs3 ->
          remove env (name descriptor) fs1 =
            (if summaryThrows failed then Throw TypeError else Ok failed, fs3)
          /\ readPaws env fs3 = Some (delete (name descriptor) before)).
Proof.
  cbn zeta. split; [vm_compute; reflexivity |].
  apply (install_then_remove_restores_manifest
           (env_with true false "" hello_leaves) "/dl/pkg.paw" (disk [])
           (installFromFile (env_with true false "" hello_leaves) "/dl/pkg.paw"
              (disk [])).2
           (scratch_of (env_with true false "" hello_leaves) (disk [])).1
           (scratch_of (env_with true false "" hello_leaves) (disk [])).2).
  - apply pair_from_fst. vm_compute. reflexivity.
  - apply scratch_of_ok. eexists. vm_compute. reflexivity.
  - exact RemoveMoreExamples.parse_stringify_paws.
  - vm_compute. intros E. discriminate E.
  - vm_compute. intros [].
Defined.

End RecordExamples.
